(** * The msgpack-c memory pool (zone), C++11 flavour

  A shallow embedding of [include/msgpack/detail/cpp11_zone.hpp] and the
  properties of its chunked bump allocator and finalizer registry.

  Conventions of the embedding.
  - [size_t] values are integers in [0, 2^64); every arithmetic operation
    the source performs on them is written with its wrap-around.
  - Pointers are byte addresses ([Z], [0] is [nullptr]); pointer arithmetic
    on [finalizer*] scales by [sizeof(finalizer)].
  - The system allocator ([::malloc], [::realloc], [::free]) and the
    observable effects (finalizer invocations, deletions performed by a
    [unique_ptr]) live in a [world] that every operation threads through.
  - A [chunk] is written once, when it is linked; the list of chunks is
    therefore the inductive value reached from [m_head] through [m_next].
  - A call that never returns is [None]; a call that returns either
    completes ([Normal]) or propagates an exception ([Raise]). *)

From Stdlib Require Import ZArith List Lia Bool.
From stdpp Require Import base option list gmap.
Import ListNotations.
Local Open Scope Z_scope.

(** ** Platform constants (LP64) *)

Module Platform.

Definition size_mod : Z := 2 ^ 64.

(** Reduction of an integer to its [size_t] value. *)
Definition size_t (x : Z) : Z := x mod size_mod.

Definition sizeof_int : Z := 4.
Definition sizeof_ptr : Z := 8.

(** [#define MSGPACK_ZONE_CHUNK_SIZE 8192] *)
Definition MSGPACK_ZONE_CHUNK_SIZE : Z := 8192.

(** [#define MSGPACK_ZONE_ALIGN sizeof(int)] *)
Definition MSGPACK_ZONE_ALIGN : Z := sizeof_int.

(** [struct finalizer { void (*m_func)(void*); void* m_data; }] *)
Definition sizeof_finalizer : Z := 2 * sizeof_ptr.

(** [struct chunk { chunk* m_next; }] *)
Definition sizeof_chunk : Z := sizeof_ptr.

(** [size_t m_chunk_size; chunk_list m_chunk_list; finalizer_array
    m_finalizer_array;] with three words in each of the two members. *)
Definition sizeof_zone : Z := sizeof_ptr + 3 * sizeof_ptr + 3 * sizeof_ptr.

(** The largest object the system allocator ever grants. *)
Definition PTRDIFF_MAX : Z := 2 ^ 63 - 1.

End Platform.
Import Platform.

(** ** Exceptions and results *)

Inductive exn : Type :=
| bad_alloc                (* std::bad_alloc *)
| thrown (code : Z).       (* whatever a user constructor throws *)

Inductive result (A : Type) : Type :=
| Normal (a : A)
| Raise (e : exn).
Arguments Normal {A} a.
Arguments Raise {A} e.

(** [struct finalizer]: the pair (function pointer, opaque argument). *)
Record finalizer : Type := Finalizer { m_func : Z; m_data : Z }.

(** ** The environment: system allocator and observable effects *)

Module Sys.

Inductive syscall : Type :=
| Malloc (size ret : Z)
| Realloc (p size ret : Z)
| Free (p : Z).

Record world : Type := World {
  blocks  : gmap Z Z;          (* live heap blocks: base address ↦ size *)
  brk     : Z;                 (* first address never handed out *)
  fmem    : Z -> finalizer;    (* the finalizer objects stored in memory *)
  oracle  : list bool;         (* does the allocator have memory, call by call *)
  syslog  : list syscall;      (* calls of the system allocator, oldest first *)
  invoked : list finalizer;    (* finalizers called so far, oldest first *)
  deleted : list Z;            (* objects deleted by a unique_ptr, oldest first *)
}.

Definition upd_heap (f : gmap Z Z -> gmap Z Z) (b : Z) (w : world) : world :=
  {| blocks := f (blocks w); brk := b; fmem := fmem w; oracle := oracle w;
     syslog := syslog w; invoked := invoked w; deleted := deleted w |}.

Definition upd_fmem (m : Z -> finalizer) (w : world) : world :=
  {| blocks := blocks w; brk := brk w; fmem := m; oracle := oracle w;
     syslog := syslog w; invoked := invoked w; deleted := deleted w |}.

Definition consume (w : world) : world :=
  {| blocks := blocks w; brk := brk w; fmem := fmem w; oracle := tl (oracle w);
     syslog := syslog w; invoked := invoked w; deleted := deleted w |}.

Definition log_call (c : syscall) (w : world) : world :=
  {| blocks := blocks w; brk := brk w; fmem := fmem w; oracle := oracle w;
     syslog := syslog w ++ [c]; invoked := invoked w; deleted := deleted w |}.

(** A finalizer is called: [m_func(m_data)]. *)
Definition invoke (f : finalizer) (w : world) : world :=
  {| blocks := blocks w; brk := brk w; fmem := fmem w; oracle := oracle w;
     syslog := syslog w; invoked := invoked w ++ [f]; deleted := deleted w |}.

(** [delete p], as done by the destructor of a [unique_ptr] that owns [p]. *)
Definition delete_object (p : Z) (w : world) : world :=
  {| blocks := blocks w; brk := brk w; fmem := fmem w; oracle := oracle w;
     syslog := syslog w; invoked := invoked w; deleted := deleted w ++ [p] |}.

(** The allocator grants a request when the size is one it can represent
    and the oracle says memory is left (an exhausted oracle always does). *)
Definition grants (size : Z) (w : world) : bool :=
  (size <=? PTRDIFF_MAX) && hd true (oracle w).

(** Blocks are carved at increasing 16-byte aligned addresses and never
    reused; a block of [size] bytes occupies [brk, brk + size). *)
Definition next_brk (size : Z) (w : world) : Z := brk w + 16 * (size / 16 + 1).

Definition malloc (size : Z) (w : world) : Z * world :=
  if grants size w then
    (brk w, log_call (Malloc size (brk w))
              (upd_heap <[brk w := size]> (next_brk size w) (consume w)))
  else (0, log_call (Malloc size 0) (consume w)).

Definition free (p : Z) (w : world) : world :=
  log_call (Free p) (if p =? 0 then w else upd_heap (delete p) (brk w) w).

(** The new block receives the bytes of the old one; what lies beyond the
    old size is indeterminate in C and is here whatever followed the old
    block. *)
Definition moved (m : Z -> finalizer) (p q size : Z) : Z -> finalizer :=
  fun a => if (q <=? a) && (a <? q + size) then m (p + (a - q)) else m a.

Definition realloc (p size : Z) (w : world) : Z * world :=
  if grants size w then
    (brk w, log_call (Realloc p size (brk w))
              (upd_fmem (moved (fmem w) p (brk w) size)
                 (upd_heap (fun b => <[brk w := size]> (delete p b))
                    (next_brk size w) (consume w))))
  else (0, log_call (Realloc p size 0) (consume w)).

(** A machine on which nothing was allocated yet. *)
Definition boot (o : list bool) : world :=
  {| blocks := ∅; brk := 16; fmem := fun _ => Finalizer 0 0; oracle := o;
     syslog := []; invoked := []; deleted := [] |}.

End Sys.
Import Sys.

(** ** [struct finalizer_array] *)

Module finalizer_array.

Record t : Type := Make { m_tail : Z; m_end : Z; m_array : Z }.

(** [finalizer_array():m_tail(nullptr), m_end(nullptr), m_array(nullptr)] *)
Definition init : t := {| m_tail := 0; m_end := 0; m_array := 0 |}.

(** [for(; fin != m_array; --fin) ( *(fin-1))();]  The loop leaves when
    [fin] meets [m_array]; [None] when it never does. *)
Fixpoint call_loop (fuel : nat) (arr fin : Z) (w : world) : option world :=
  if fin =? arr then Some w
  else match fuel with
       | O => None
       | S k => call_loop k arr (fin - sizeof_finalizer)
                  (invoke (fmem w (fin - sizeof_finalizer)) w)
       end.

(** [void call()].  A loop that terminates does so within
    [|m_tail - m_array|] steps. *)
Definition call (fa : t) (w : world) : option world :=
  call_loop (Z.abs_nat (m_tail fa - m_array fa)) (m_array fa) (m_tail fa) w.

(** [~finalizer_array() { call(); ::free(m_array); }] *)
Definition dtor (fa : t) (w : world) : option world :=
  match call fa w with
  | Some w1 => Some (free (m_array fa) w1)
  | None => None
  end.

(** [void clear() { call(); m_tail = m_array; }] *)
Definition clear (fa : t) (w : world) : option (t * world) :=
  match call fa w with
  | Some w1 =>
      Some ({| m_tail := m_array fa; m_end := m_end fa; m_array := m_array fa |}, w1)
  | None => None
  end.

(** [void push_expand(void ( *func)(void* ), void* data)] *)
Definition push_expand (f : finalizer) (fa : t) (w : world)
  : result unit * t * world :=
  let nused := (m_end fa - m_array fa) / sizeof_finalizer in
  let nnext :=
    if nused =? 0
    then (if sizeof_finalizer <? 72 / 2 then 72 / sizeof_finalizer else 8)
    else size_t (nused * 2) in
  let (tmp, w1) := realloc (m_array fa) (size_t (sizeof_finalizer * nnext)) w in
  if tmp =? 0 then (Raise bad_alloc, fa, w1)
  else
    let tail := tmp + sizeof_finalizer * nused in
    (Normal tt,
     {| m_array := tmp;
        m_end := tmp + sizeof_finalizer * nnext;
        m_tail := tail + sizeof_finalizer |},
     upd_fmem (fun a => if a =? tail then f else fmem w1 a) w1).

(** [void push(void ( *func)(void* data), void* data)] *)
Definition push (f : finalizer) (fa : t) (w : world)
  : result unit * t * world :=
  let fin := m_tail fa in
  if fin =? m_end fa then push_expand f fa w
  else
    (Normal tt,
     {| m_tail := m_tail fa + sizeof_finalizer;
        m_end := m_end fa; m_array := m_array fa |},
     upd_fmem (fun a => if a =? fin then f else fmem w a) w).

(** [--m_finalizer_array.m_tail], as written in [zone::allocate]. *)
Definition pop_last (fa : t) : t :=
  {| m_tail := m_tail fa - sizeof_finalizer;
     m_end := m_end fa; m_array := m_array fa |}.

End finalizer_array.

(** ** [struct chunk] and [struct chunk_list] *)

(** A chunk header at address [c_addr]: [Last] when its [m_next] is
    [nullptr], [Link] when [m_next] points to an older chunk. *)
Inductive chunk : Type :=
| Last (c_addr : Z)
| Link (c_addr : Z) (next : chunk).

Definition c_addr (c : chunk) : Z :=
  match c with Last a => a | Link a _ => a end.

Definition m_next (c : chunk) : option chunk :=
  match c with Last _ => None | Link _ n => Some n end.

(** The headers reached from a chunk, newest first. *)
Fixpoint chain (c : chunk) : list Z :=
  match c with
  | Last a => [a]
  | Link a n => a :: chain n
  end.

(** The chunk whose [m_next] is [nullptr]. *)
Fixpoint terminal (c : chunk) : chunk :=
  match c with
  | Last a => c
  | Link a n => terminal n
  end.

Module chunk_list.

Record t : Type := Make { m_free : Z; m_ptr : Z; m_head : chunk }.

(** [chunk_list(size_t chunk_size)] *)
Definition ctor (chunk_size : Z) (w : world) : result t * world :=
  let (c, w1) := malloc (size_t (sizeof_chunk + chunk_size)) w in
  if c =? 0 then (Raise bad_alloc, w1)
  else (Normal {| m_head := Last c;           (* c->m_next = nullptr *)
                  m_free := chunk_size;
                  m_ptr := c + sizeof_chunk |}, w1).

(** The loop of [~chunk_list()]: every chunk is freed. *)
Fixpoint free_all (c : chunk) (w : world) : world :=
  match c with
  | Link a n => free_all n (free a w)
  | Last a => free a w
  end.

Definition dtor (cl : t) (w : world) : world := free_all (m_head cl) w.

(** The loop of [clear]: a chunk is freed when it has a successor; the one
    without becomes [m_head]. *)
Fixpoint free_but_last (c : chunk) (w : world) : chunk * world :=
  match c with
  | Link a n => free_but_last n (free a w)
  | Last a => (c, w)
  end.

(** [void clear(size_t chunk_size)] *)
Definition clear (chunk_size : Z) (cl : t) (w : world) : t * world :=
  let (c, w1) := free_but_last (m_head cl) w in
  ({| m_head := Last (c_addr c);              (* m_head->m_next = nullptr *)
      m_free := chunk_size;
      m_ptr := c_addr c + sizeof_chunk |}, w1).

End chunk_list.

(** ** [class zone] *)

Module zone.

Record t : Type := Make {
  m_chunk_size : Z;
  m_chunk_list : chunk_list.t;
  m_finalizer_array : finalizer_array.t;
}.

Definition with_chunk_list (cl : chunk_list.t) (z : t) : t :=
  {| m_chunk_size := m_chunk_size z; m_chunk_list := cl;
     m_finalizer_array := m_finalizer_array z |}.

Definition with_finalizer_array (fa : finalizer_array.t) (z : t) : t :=
  {| m_chunk_size := m_chunk_size z; m_chunk_list := m_chunk_list z;
     m_finalizer_array := fa |}.

Definition m_free (z : t) : Z := chunk_list.m_free (m_chunk_list z).
Definition m_ptr (z : t) : Z := chunk_list.m_ptr (m_chunk_list z).
Definition m_head (z : t) : chunk := chunk_list.m_head (m_chunk_list z).

(** What a constructor declared [noexcept] can do: complete, or end the
    program through [std::terminate] when an exception reaches its
    boundary. *)
Inductive constructed : Type :=
| Built (z : t) (w : world)
| Terminated (w : world).

(** [zone(size_t chunk_size) noexcept : m_chunk_size(chunk_size),
    m_chunk_list(m_chunk_size)] *)
Definition ctor (chunk_size : Z) (w : world) : constructed :=
  match chunk_list.ctor chunk_size w with
  | (Normal cl, w1) =>
      Built {| m_chunk_size := chunk_size; m_chunk_list := cl;
               m_finalizer_array := finalizer_array.init |} w1
  | (Raise _, w1) => Terminated w1
  end.

(** The implicit [~zone()]: members are destroyed in reverse order of
    declaration, the finalizer array first, the chunk list second. *)
Definition dtor (z : t) (w : world) : option world :=
  match finalizer_array.dtor (m_finalizer_array z) w with
  | Some w1 => Some (chunk_list.dtor (m_chunk_list z) w1)
  | None => None
  end.

Inductive created : Type :=
| Handle (p : Z) (z : t) (w : world)     (* the zone lives at address p *)
| Null (w : world)                       (* create returned nullptr *)
| Aborted (w : world).                   (* std::terminate *)

(** [static zone* create(size_t chunk_size)] *)
Definition create (chunk_size : Z) (w : world) : created :=
  let (p, w1) := malloc (size_t (sizeof_zone + chunk_size)) w in
  if p =? 0 then Null w1
  else match ctor chunk_size w1 with
       | Built z w2 => Handle p z w2
       | Terminated w2 => Aborted w2
       end.

(** [static void destroy(zone* z) { z->~zone(); ::free(z); }] *)
Definition destroy (p : Z) (z : t) (w : world) : option world :=
  match dtor z w with
  | Some w1 => Some (free p w1)
  | None => None
  end.

(** The loop [while(sz < size) sz *= 2;] of [allocate_expand]. *)
Fixpoint grow (fuel : nat) (sz size : Z) : option Z :=
  if sz <? size then
    match fuel with
    | O => None
    | S k => grow k (size_t (sz * 2)) size
    end
  else Some sz.

(** After 64 doublings a [size_t] is zero: 65 rounds decide the loop. *)
Definition grow_fuel : nat := 65.

(** [void* allocate_expand(size_t size)] *)
Definition allocate_expand (size : Z) (z : t) (w : world)
  : option (Z * t * world) :=
  match grow grow_fuel (m_chunk_size z) size with
  | None => None
  | Some sz =>
      let (c, w1) := malloc (size_t (sizeof_chunk + sz)) w in
      if c =? 0 then Some (0, z, w1)
      else
        let ptr := c + sizeof_chunk in
        Some (ptr,
              with_chunk_list
                {| chunk_list.m_head := Link c (m_head z);
                   chunk_list.m_free := size_t (sz - size);
                   chunk_list.m_ptr := ptr + size |} z,
              w1)
  end.

(** [void* allocate_no_align(size_t size)] *)
Definition allocate_no_align (size : Z) (z : t) (w : world)
  : option (Z * t * world) :=
  if m_free z <? size then allocate_expand size z w
  else
    let ptr := m_ptr z in
    Some (ptr,
          with_chunk_list
            {| chunk_list.m_head := m_head z;
               chunk_list.m_free := size_t (m_free z - size);
               chunk_list.m_ptr := m_ptr z + size |} z,
          w).

(** [((size)+((MSGPACK_ZONE_ALIGN)-1)) & ~((MSGPACK_ZONE_ALIGN)-1)] *)
Definition aligned_size (size : Z) : Z :=
  Z.land (size_t (size + (MSGPACK_ZONE_ALIGN - 1)))
         (size_t (Z.lnot (MSGPACK_ZONE_ALIGN - 1))).

(** [void* allocate_align(size_t size)] *)
Definition allocate_align (size : Z) (z : t) (w : world)
  : option (Z * t * world) :=
  allocate_no_align (aligned_size size) z w.

(** [void push_finalizer(void ( *func)(void* ), void* data)] *)
Definition push_finalizer (func data : Z) (z : t) (w : world)
  : result unit * t * world :=
  let '(r, fa, w1) :=
    finalizer_array.push (Finalizer func data) (m_finalizer_array z) w in
  (r, with_finalizer_array fa z, w1).

(** The destructor of a [unique_ptr] holding [p]. *)
Definition unique_ptr_dtor (p : Z) (w : world) : world :=
  if p =? 0 then w else delete_object p w.

(** [template <typename T> void push_finalizer(msgpack::unique_ptr<T> obj)]
    with [dtor] standing for [&zone::object_destructor<T>] and [p] for
    [obj.get()].  The parameter [obj] is destroyed when the call ends:
    still owning [p] when [push] throws, empty after [obj.release()]. *)
Definition push_finalizer_unique (dtor p : Z) (z : t) (w : world)
  : result unit * t * world :=
  match finalizer_array.push (Finalizer dtor p) (m_finalizer_array z) w with
  | (Raise e, fa, w1) =>
      (Raise e, with_finalizer_array fa z, unique_ptr_dtor p w1)
  | (Normal _, fa, w1) =>
      (Normal tt, with_finalizer_array fa z, unique_ptr_dtor 0 w1)
  end.

(** [void clear()] *)
Definition clear (z : t) (w : world) : option (t * world) :=
  match finalizer_array.clear (m_finalizer_array z) w with
  | Some (fa, w1) =>
      let (cl, w2) := chunk_list.clear (m_chunk_size z) (m_chunk_list z) w1 in
      Some ({| m_chunk_size := m_chunk_size z; m_chunk_list := cl;
               m_finalizer_array := fa |}, w2)
  | None => None
  end.

(** [void swap(zone& o) { std::swap( *this, o); }]  The library template is
    [T tmp(std::move(a)); a = std::move(b); b = std::move(tmp);].  [zone]
    declares no copy or move operation, so each of the three is the
    member-wise copy of the three fields; [tmp] is a local object of class
    [zone] and its destructor runs when [std::swap] returns. *)
Definition swap (this o : t) (w : world) : option (t * t * world) :=
  let tmp := this in
  let this' := o in
  let o' := tmp in
  match dtor tmp w with
  | Some w1 => Some (this', o', w1)
  | None => None
  end.

(** [void undo_allocate(size_t size)] *)
Definition undo_allocate (size : Z) (z : t) : t :=
  with_chunk_list
    {| chunk_list.m_head := m_head z;
       chunk_list.m_ptr := m_ptr z - size;
       chunk_list.m_free := size_t (m_free z + size) |} z.

(** [template <typename T, typename... Args> T* allocate(Args... args)]
    with [sizeofT] for [sizeof(T)], [dtor] for
    [&zone::object_destructor<T>] and [ctor x] for what [new (x) T(args...)]
    does: [None] when the object is constructed, [Some e] when the
    constructor throws [e]. *)
Definition allocate (sizeofT dtor : Z) (ctor : Z -> option exn)
    (z : t) (w : world) : option (result Z * t * world) :=
  match allocate_align sizeofT z w with
  | None => None
  | Some (x, z1, w1) =>
      match finalizer_array.push (Finalizer dtor x) (m_finalizer_array z1) w1 with
      | (Raise e, fa, w2) =>
          Some (Raise e, undo_allocate sizeofT (with_finalizer_array fa z1), w2)
      | (Normal _, fa, w2) =>
          match ctor x with
          | None => Some (Normal x, with_finalizer_array fa z1, w2)
          | Some e =>
              Some (Raise e,
                    undo_allocate sizeofT
                      (with_finalizer_array (finalizer_array.pop_last fa) z1),
                    w2)
          end
      end
  end.

End zone.

(** * Vocabulary of the specification *)

(** ** The environment *)

Ltac sys_unfold :=
  unfold malloc, realloc, free, log_call, upd_heap, upd_fmem, consume, invoke,
    delete_object, next_brk in *; simpl in *.

(** Every finalizer of a list is called, first to last. *)
Definition invoke_all (fs : list finalizer) (w : world) : world :=
  fold_left (fun w f => invoke f w) fs w.

(** The allocator's own invariant: addresses handed out are positive and lie
    below [brk], which stays 16-byte aligned. *)
Record heap_ok (w : world) : Prop := {
  brk_pos : 0 < brk w;
  brk_aligned : brk w mod 16 = 0;
  blocks_below : forall a s, blocks w !! a = Some s -> 0 < a < brk w;
}.

(** ** The finalizer registry *)

(** Address of the [i]-th entry of an array of finalizers. *)
Definition slot (arr : Z) (i : nat) : Z := arr + sizeof_finalizer * Z.of_nat i.

(** The first [n] entries found in memory at [arr], last first. *)
Fixpoint stored (w : world) (arr : Z) (n : nat) : list finalizer :=
  match n with
  | O => []
  | S k => fmem w (slot arr k) :: stored w arr k
  end.

(** The registry holds the finalizers [l] (oldest first) in storage for
    [cap] entries: [array <= tail <= end], [[array, tail)] populated with
    [l], and the storage is a live block of the allocator unless the
    registry never grew. *)
Record reg_ok (w : world) (fa : finalizer_array.t) (l : list finalizer) (cap : Z)
  : Prop := {
  reg_tail : finalizer_array.m_tail fa = slot (finalizer_array.m_array fa) (length l);
  reg_end : finalizer_array.m_end fa = finalizer_array.m_array fa + sizeof_finalizer * cap;
  reg_room : Z.of_nat (length l) <= cap;
  reg_bound : sizeof_finalizer * cap <= PTRDIFF_MAX;
  reg_mem : forall i f, l !! i = Some f -> fmem w (slot (finalizer_array.m_array fa) i) = f;
  reg_live : if finalizer_array.m_array fa =? 0 then cap = 0
             else blocks w !! finalizer_array.m_array fa = Some (sizeof_finalizer * cap);
}.

Definition registered (w : world) (fa : finalizer_array.t) (l : list finalizer) : Prop :=
  exists cap, reg_ok w fa l cap.

Ltac plat :=
  unfold slot, sizeof_finalizer, sizeof_chunk, sizeof_zone, sizeof_ptr,
    MSGPACK_ZONE_ALIGN, sizeof_int, PTRDIFF_MAX, size_mod in *.

(** The capacity asked for when the registry is full. *)
Definition next_capacity (cap : Z) : Z := if cap =? 0 then 4 else 2 * cap.

(** ** The chunk list *)

(** The chunks that have a successor, newest first: [chain c] is [front c]
    followed by the terminal chunk. *)
Fixpoint front (c : chunk) : list Z :=
  match c with
  | Last _ => []
  | Link a n => a :: front n
  end.

(** What [free] leaves alone. *)
Definition same_but_heap (w w' : world) : Prop :=
  fmem w' = fmem w /\ invoked w' = invoked w /\ deleted w' = deleted w /\
  oracle w' = oracle w /\ brk w' = brk w.

(** ** Operations of an arena and the states they reach *)

Inductive op : Type :=
| AllocateAlign (size : Z)
| AllocateNoAlign (size : Z)
| PushFinalizer (func data : Z)
| PushFinalizerUnique (dtor p : Z)
| Allocate (sizeofT dtor : Z) (ctor : Z -> option exn)
| Clear.

(** One public operation on an arena, whatever it returns or throws;
    [None] when the call never returns. *)
Definition step (o : op) (z : zone.t) (w : world) : option (zone.t * world) :=
  match o with
  | AllocateAlign size =>
      match zone.allocate_align size z w with
      | Some (_, z', w') => Some (z', w')
      | None => None
      end
  | AllocateNoAlign size =>
      match zone.allocate_no_align size z w with
      | Some (_, z', w') => Some (z', w')
      | None => None
      end
  | PushFinalizer func data =>
      let '(_, z', w') := zone.push_finalizer func data z w in Some (z', w')
  | PushFinalizerUnique dtor p =>
      let '(_, z', w') := zone.push_finalizer_unique dtor p z w in Some (z', w')
  | Allocate sizeofT dtor ctor =>
      match zone.allocate sizeofT dtor ctor z w with
      | Some (_, z', w') => Some (z', w')
      | None => None
      end
  | Clear => zone.clear z w
  end.

(** The states of an arena constructed with chunk size [cs], whose first
    chunk is at [c0], after any number of operations, each allowed by [P]
    in the state it is applied to. *)
Inductive reachable (P : op -> zone.t -> world -> Prop) (cs c0 : Z)
  : zone.t -> world -> Prop :=
| reach_ctor w0 z w :
    heap_ok w0 -> zone.ctor cs w0 = zone.Built z w ->
    c_addr (zone.m_head z) = c0 ->
    reachable P cs c0 z w
| reach_step o z w z' w' :
    reachable P cs c0 z w -> P o z w -> step o z w = Some (z', w') ->
    reachable P cs c0 z' w'.

(** No restriction on the operations. *)
Definition any_op : op -> zone.t -> world -> Prop := fun _ _ _ => True.

(** The operations that leave the bump pointer on a multiple of the
    alignment: all of them, except an unaligned request for a size that is
    not such a multiple, and a typed allocation for such a size that does
    not return the object. *)
Definition keeps_alignment (o : op) (z : zone.t) (w : world) : Prop :=
  match o with
  | AllocateNoAlign size => size mod MSGPACK_ZONE_ALIGN = 0
  | Allocate sizeofT dtor ctor =>
      sizeofT mod MSGPACK_ZONE_ALIGN = 0 \/
      exists x z' w', zone.allocate sizeofT dtor ctor z w = Some (Normal x, z', w')
  | _ => True
  end.

(** The finalizer an operation registers, if it registers one. *)
Definition registers (o : op) (z : zone.t) (w : world) : list finalizer :=
  match o with
  | PushFinalizer func data =>
      match zone.push_finalizer func data z w with
      | (Normal _, _, _) => [Finalizer func data]
      | _ => []
      end
  | PushFinalizerUnique dtor p =>
      match zone.push_finalizer_unique dtor p z w with
      | (Normal _, _, _) => [Finalizer dtor p]
      | _ => []
      end
  | Allocate sizeofT dtor ctor =>
      match zone.allocate sizeofT dtor ctor z w with
      | Some (Normal x, _, _) => [Finalizer dtor x]
      | _ => []
      end
  | _ => []
  end.

(** A sequence of operations on an arena, with the finalizers that it
    registers, in order. *)
Inductive runs : zone.t -> world -> list finalizer -> zone.t -> world -> Prop :=
| runs_done z w : runs z w [] z w
| runs_step o z w z1 w1 regs z' w' :
    step o z w = Some (z1, w1) -> runs z1 w1 regs z' w' ->
    runs z w (registers o z w ++ regs) z' w'.

(** The structure every operation maintains: the registry holds [l]; the
    chunks are distinct live blocks; the terminal chunk is the block of
    [sizeof(chunk) + cs] bytes obtained at construction. *)
Record zone_ok (w : world) (z : zone.t) (cs c0 : Z) (l : list finalizer)
  : Prop := {
  zo_heap : heap_ok w;
  zo_size : zone.m_chunk_size z = cs;
  zo_reg : registered w (zone.m_finalizer_array z) l;
  zo_nodup : NoDup (chain (zone.m_head z));
  zo_live : forall a, a ∈ chain (zone.m_head z) -> is_Some (blocks w !! a);
  zo_first : c_addr (terminal (zone.m_head z)) = c0;
  zo_first_size : blocks w !! c0 = Some (size_t (sizeof_chunk + cs));
  zo_apart : finalizer_array.m_array (zone.m_finalizer_array z)
             ∉ chain (zone.m_head z);
}.

(** ** A concrete arena

    [zone z(64)] on a machine that never runs out of memory, as first
    allocation of the program: the chunk header is at 16, its 64 bytes of
    storage start at 24. *)
Definition demo_world : world := snd (malloc 72 (boot [])).

Definition demo_zone : zone.t :=
  {| zone.m_chunk_size := 64;
     zone.m_chunk_list :=
       {| chunk_list.m_free := 64; chunk_list.m_ptr := 24;
          chunk_list.m_head := Last 16 |};
     zone.m_finalizer_array := finalizer_array.init |}.

(** A constructor that completes, and one that throws. *)
Definition completes : Z -> option exn := fun _ => None.
Definition throws (code : Z) : Z -> option exn := fun _ => Some (thrown code).

(** The same arena on a machine whose allocator, after granting the first
    chunk, answers the following requests as [o] says. *)
Definition demo_world_then (o : list bool) : world :=
  snd (malloc 72 (boot (true :: o))).

(** ** The invariant of the bump allocator

    [m_ptr] points into the storage of the head chunk (one past its end
    when the chunk is full) and [m_free] is the number of bytes from
    [m_ptr] to the end of that storage. *)
Definition bump_ok (w : world) (z : zone.t) : Prop :=
  exists n,
    blocks w !! c_addr (zone.m_head z) = Some n /\
    sizeof_chunk <= n <= PTRDIFF_MAX /\
    c_addr (zone.m_head z) + sizeof_chunk <= zone.m_ptr z
      <= c_addr (zone.m_head z) + n /\
    zone.m_free z = c_addr (zone.m_head z) + n - zone.m_ptr z.

(** A size that, rounded up to the alignment, fits a chunk the allocator
    can grant. *)
Definition fits (size : Z) : Prop :=
  0 <= size <= PTRDIFF_MAX - sizeof_chunk - (MSGPACK_ZONE_ALIGN - 1).

Definition sizes_fit (o : op) : Prop :=
  match o with
  | AllocateAlign size | AllocateNoAlign size | Allocate size _ _ => fits size
  | _ => True
  end.

(** A typed allocation whose request for storage returns the null pointer. *)
Definition storage_refused (o : op) (z : zone.t) (w : world) : Prop :=
  match o with
  | Allocate sizeofT _ _ =>
      exists z1 w1, zone.allocate_align sizeofT z w = Some (0, z1, w1)
  | _ => False
  end.

Ltac zsimpl :=
  unfold zone.undo_allocate, zone.with_chunk_list, zone.with_finalizer_array,
    zone.m_ptr, zone.m_free, zone.m_head in *;
  cbn [zone.m_chunk_size zone.m_chunk_list zone.m_finalizer_array
       chunk_list.m_free chunk_list.m_ptr chunk_list.m_head c_addr] in *.

(** The operations on sizes that fit, a typed allocation whose request for
    storage returns the null pointer excepted. *)
Definition sound_op (o : op) (z : zone.t) (w : world) : Prop :=
  sizes_fit o /\ ~ storage_refused o z w.

(** * The rest of the class and the vocabulary of further properties *)

(** ** [zone::operator new] and [zone::operator delete] *)

(** [static void* operator new(std::size_t size) throw(std::bad_alloc)] *)
Definition operator_new (size : Z) (w : world) : result Z * world :=
  let (p, w1) := malloc size w in
  if p =? 0 then (Raise bad_alloc, w1) else (Normal p, w1).

(** [static void operator delete(void *p) throw()] *)
Definition operator_delete (p : Z) (w : world) : world := free p w.

(** [static void* operator new(std::size_t size, void* mem) throw()] *)
Definition placement_new (size mem : Z) : Z := mem.

(** What the expression [new zone(chunk_size)] can do. *)
Inductive newed : Type :=
| New (p : Z) (z : zone.t) (w : world)   (* the zone lives at address p *)
| NewThrows (e : exn) (w : world)
| NewAborted (w : world).                (* std::terminate *)

(** [new zone(chunk_size)]: storage from [zone::operator new], then the
    constructor, which is [noexcept]. *)
Definition new_zone (chunk_size : Z) (w : world) : newed :=
  match operator_new sizeof_zone w with
  | (Raise e, w1) => NewThrows e w1
  | (Normal p, w1) =>
      match zone.ctor chunk_size w1 with
      | zone.Built z w2 => New p z w2
      | zone.Terminated w2 => NewAborted w2
      end
  end.

(** [delete z] for a non-null [z]: the destructor, then
    [zone::operator delete]. *)
Definition delete_zone (p : Z) (z : zone.t) (w : world) : option world :=
  match zone.dtor z w with
  | Some w1 => Some (operator_delete p w1)
  | None => None
  end.

(** ** Sequences of calls *)

(** Addresses are integers, and the arithmetic of the bump pointer is
    exact.  The pointers of the code agree with it as long as they stay
    inside the address space; the statements below that speak of addresses
    ask for that, through [bump_ok] (the bump pointer lies in the block of
    the head chunk) and a bound on the end of that block. *)

(** [allocate_no_align(n)] for each [n] of a list, in order, with the
    addresses returned. *)
Fixpoint allocate_each (sizes : list Z) (z : zone.t) (w : world)
  : option (list Z * zone.t * world) :=
  match sizes with
  | [] => Some ([], z, w)
  | n :: ns =>
      match zone.allocate_no_align n z w with
      | None => None
      | Some (x, z1, w1) =>
          match allocate_each ns z1 w1 with
          | None => None
          | Some (xs, z2, w2) => Some (x :: xs, z2, w2)
          end
      end
  end.

(** The addresses [p], [p + n1], [p + n1 + n2], ... *)
Fixpoint offsets (p : Z) (sizes : list Z) : list Z :=
  match sizes with
  | [] => []
  | n :: ns => p :: offsets (p + n) ns
  end.

Definition total (sizes : list Z) : Z := foldr Z.add 0 sizes.

(** [push] for each finalizer of a list, in order, up to the first that
    throws. *)
Fixpoint push_each (fs : list finalizer) (fa : finalizer_array.t) (w : world)
  : result unit * finalizer_array.t * world :=
  match fs with
  | [] => (Normal tt, fa, w)
  | f :: fs' =>
      match finalizer_array.push f fa w with
      | (Normal _, fa1, w1) => push_each fs' fa1 w1
      | (Raise e, fa1, w1) => (Raise e, fa1, w1)
      end
  end.

(** The number of calls of [::realloc] in a log. *)
Fixpoint reallocs (log : list syscall) : nat :=
  match log with
  | [] => O
  | Realloc _ _ _ :: rest => S (reallocs rest)
  | _ :: rest => reallocs rest
  end.

(** The arena owns exactly the blocks that appeared since the system was
    in state [w0]: every older block is as it was, and a block that is live
    now and was not then is a chunk of the list or the registry's array. *)
Definition owned (w0 w : world) (z : zone.t) : Prop :=
  brk w0 <= brk w /\
  (forall a, a < brk w0 -> blocks w !! a = blocks w0 !! a) /\
  (forall a, brk w0 <= a -> is_Some (blocks w !! a) ->
             a ∈ chain (zone.m_head z) \/
             a = finalizer_array.m_array (zone.m_finalizer_array z)) /\
  (forall a, a ∈ chain (zone.m_head z) -> brk w0 <= a) /\
  (finalizer_array.m_array (zone.m_finalizer_array z) = 0 \/
   brk w0 <= finalizer_array.m_array (zone.m_finalizer_array z)).

(** ** Regions of memory handed out *)

(** The live blocks [m] of a heap whose break is [b] are apart: no block
    has a negative size, every block ends at or below the break, and two
    different blocks share no byte. *)
Definition sep (m : gmap Z Z) (b : Z) : Prop :=
  (forall a s, m !! a = Some s -> 0 <= s /\ a + s <= b) /\
  (forall a1 a2 s1 s2, m !! a1 = Some s1 -> m !! a2 = Some s2 -> a1 <> a2 ->
                       a1 + s1 <= a2 \/ a2 + s2 <= a1).

Definition sep_ok (w : world) : Prop := sep (blocks w) (brk w).

(** A region is an address with a number of bytes; two regions are apart
    when they share no byte. *)
Definition apart (r1 r2 : Z * Z) : Prop :=
  r1.1 + r1.2 <= r2.1 \/ r2.1 + r2.2 <= r1.1.

Fixpoint all_apart (rs : list (Z * Z)) : Prop :=
  match rs with
  | [] => True
  | r :: rs' => Forall (apart r) rs' /\ all_apart rs'
  end.

(** A region lies in the storage of a live chunk of the list: behind the
    chunk's link field and before the block's end. *)
Definition inside (hd : chunk) (m : gmap Z Z) (r : Z * Z) : Prop :=
  exists c bs,
    c ∈ chain hd /\ m !! c = Some bs /\
    c + sizeof_chunk <= r.1 /\ 0 <= r.2 /\ r.1 + r.2 <= c + bs.

(** The same, and if the chunk is the head chunk the region ends at or
    below the bump pointer. *)
Definition placed (hd : chunk) (ptr : Z) (m : gmap Z Z) (r : Z * Z) : Prop :=
  exists c bs,
    c ∈ chain hd /\ m !! c = Some bs /\
    c + sizeof_chunk <= r.1 /\ 0 <= r.2 /\ r.1 + r.2 <= c + bs /\
    (c = c_addr hd -> r.1 + r.2 <= ptr).

Definition regions_ok (hd : chunk) (ptr : Z) (m : gmap Z Z)
    (rs : list (Z * Z)) : Prop :=
  all_apart rs /\ Forall (placed hd ptr m) rs.

(** The region an operation hands to its caller: the address returned,
    when it is not null, with the number of bytes asked for. *)
Definition hands_out (o : op) (z : zone.t) (w : world) : list (Z * Z) :=
  match o with
  | AllocateAlign size =>
      match zone.allocate_align size z w with
      | Some (x, _, _) => if x =? 0 then [] else [(x, size)]
      | None => []
      end
  | AllocateNoAlign size =>
      match zone.allocate_no_align size z w with
      | Some (x, _, _) => if x =? 0 then [] else [(x, size)]
      | None => []
      end
  | Allocate sizeofT dtor ctor =>
      match zone.allocate sizeofT dtor ctor z w with
      | Some (Normal x, _, _) => [(x, sizeofT)]
      | _ => []
      end
  | _ => []
  end.

(** [served cs c0 z w rs]: the arena [z] in system state [w] was
    constructed with chunk size [cs] and first chunk [c0] and then used by
    sound operations, and [rs] are the regions handed out since the
    construction or the last [clear], latest first. *)
Inductive served (cs c0 : Z) : zone.t -> world -> list (Z * Z) -> Prop :=
| served_ctor w0 z w :
    heap_ok w0 -> sep_ok w0 ->
    zone.ctor cs w0 = zone.Built z w ->
    c_addr (zone.m_head z) = c0 ->
    served cs c0 z w []
| served_step o z w z' w' rs :
    served cs c0 z w rs ->
    sound_op o z w ->
    step o z w = Some (z', w') ->
    served cs c0 z' w'
      (match o with Clear => [] | _ => hands_out o z w ++ rs end).

(** The capacity of a registry that has grown [c] times, and what it says
    about the number [n] of finalizers it holds: it has never grown and is
    empty, or its capacity is [2 ^ (c + 1)] slots, which is 4 or less than
    twice the number held. *)
Definition grown (cap : Z) (c : nat) (n : Z) : Prop :=
  (cap = 0 /\ c = O /\ n = 0) \/
  (cap = 2 ^ (Z.of_nat c + 1) /\ (1 <= c)%nat /\ n <= cap /\
   (c = 1%nat \/ cap < 2 * n)).

(** ** System calls of an operation *)

Definition one_malloc (calls : list syscall) : Prop :=
  calls = [] \/ exists size p, calls = [Malloc size p].

Definition one_realloc (calls : list syscall) : Prop :=
  calls = [] \/ exists a size q, calls = [Realloc a size q].

(** The calls of the system allocator that an operation on the arena [z]
    may make. *)
Definition calls_of (o : op) (z : zone.t) (calls : list syscall) : Prop :=
  match o with
  | AllocateAlign _ | AllocateNoAlign _ => one_malloc calls
  | PushFinalizer _ _ | PushFinalizerUnique _ _ => one_realloc calls
  | Allocate _ _ _ =>
      exists ms rs, calls = ms ++ rs /\ one_malloc ms /\ one_realloc rs
  | Clear => calls = Free <$> front (zone.m_head z)
  end.

(** Membership in the lists of chunk addresses. *)
Ltac elems :=
  rewrite ?elem_of_app, ?elem_of_cons, ?elem_of_nil in *;
  first [tauto | intuition (subst; try lia; try done)].

(** ** Uses of an arena that hand no object over *)

(** Every operation but [push_finalizer(unique_ptr<T>)]: the operations
    whose storage is the arena's own.  The storage of an object owned by a
    [unique_ptr] is the caller's; it is not among the blocks of the heap
    followed here, and [deleted] records the objects that were deleted. *)
Definition no_handover (o : op) : Prop :=
  match o with
  | PushFinalizerUnique _ _ => False
  | _ => True
  end.

(** [uses P z w z' w']: a sequence of operations that satisfy [P], each of
    which returns, leads from the arena [z] in system state [w] to [z'] in
    [w']. *)
Inductive uses (P : op -> Prop) : zone.t -> world -> zone.t -> world -> Prop :=
| uses_done z w : uses P z w z w
| uses_step o z w z1 w1 z' w' :
    P o ->
    step o z w = Some (z1, w1) ->
    uses P z1 w1 z' w' ->
    uses P z w z' w'.
(** * Lemmas *)

(** ** The environment *)

Lemma invoke_all_invoked fs : forall w, invoked (invoke_all fs w) = invoked w ++ fs.
Proof.
  induction fs as [|f fs IH]; intros w; simpl.
  - by rewrite app_nil_r.
  - rewrite IH. simpl. by rewrite <- app_assoc.
Qed.

Lemma invoke_all_frame fs : forall w,
  blocks (invoke_all fs w) = blocks w /\ brk (invoke_all fs w) = brk w /\
  fmem (invoke_all fs w) = fmem w /\ oracle (invoke_all fs w) = oracle w /\
  syslog (invoke_all fs w) = syslog w /\ deleted (invoke_all fs w) = deleted w.
Proof.
  induction fs as [|f fs IH]; intros w; simpl; [done|].
  destruct (IH (invoke f w)) as (-> & -> & -> & -> & -> & ->). done.
Qed.

Lemma size_t_range x : 0 <= size_t x < size_mod.
Proof. unfold size_t, size_mod. apply Z.mod_pos_bound. lia. Qed.

Lemma size_t_small x : 0 <= x < size_mod -> size_t x = x.
Proof. intros H. unfold size_t. by apply Z.mod_small. Qed.

Lemma boot_ok o : heap_ok (boot o).
Proof. by split. Qed.

Lemma next_brk_aligned b size : b mod 16 = 0 -> (b + 16 * (size / 16 + 1)) mod 16 = 0.
Proof.
  intros Hb. rewrite Z.add_mod, Hb, Z.mul_comm, Z.mod_mul by lia. done.
Qed.

Lemma malloc_ok size w p w' :
  heap_ok w -> 0 <= size -> malloc size w = (p, w') ->
  heap_ok w' /\ fmem w' = fmem w /\ invoked w' = invoked w /\
  deleted w' = deleted w /\ oracle w' = tl (oracle w) /\
  syslog w' = syslog w ++ [Malloc size p] /\
  ((p = 0 /\ grants size w = false /\ blocks w' = blocks w /\ brk w' = brk w) \/
   (p = brk w /\ grants size w = true /\ blocks w' = <[p := size]> (blocks w) /\
    brk w < brk w')).
Proof.
  intros [Hp Ha Hb] Hs. unfold malloc.
  assert (0 <= size / 16) by (apply Z.div_pos; lia).
  destruct (grants size w) eqn:G; intros [= <- <-]; sys_unfold.
  - split_and!; try done.
    + split; simpl; [lia | by apply next_brk_aligned |].
      intros a s Hl. destruct (decide (a = brk w)) as [->|Hne]; [lia|].
      rewrite lookup_insert_ne in Hl by done. apply Hb in Hl. lia.
    + right. split_and!; try done. lia.
  - split_and!; try done. left. done.
Qed.

Lemma free_ok p w :
  heap_ok w -> heap_ok (free p w).
Proof.
  intros [Hp Ha Hb]. unfold free. destruct (p =? 0); sys_unfold.
  - by split.
  - split; simpl; try done. intros a s H.
    destruct (decide (p = a)) as [->|Hne].
    + by rewrite lookup_delete_eq in H.
    + rewrite lookup_delete_ne in H by done. by eapply Hb.
Qed.

Lemma free_frame p w :
  fmem (free p w) = fmem w /\ invoked (free p w) = invoked w /\
  deleted (free p w) = deleted w /\ oracle (free p w) = oracle w /\
  brk (free p w) = brk w /\ syslog (free p w) = syslog w ++ [Free p].
Proof. unfold free. destruct (p =? 0); sys_unfold; done. Qed.

Lemma realloc_ok p size w q w' :
  heap_ok w -> 0 <= size -> realloc p size w = (q, w') ->
  heap_ok w' /\ invoked w' = invoked w /\ deleted w' = deleted w /\
  oracle w' = tl (oracle w) /\
  syslog w' = syslog w ++ [Realloc p size q] /\
  ((q = 0 /\ grants size w = false /\ blocks w' = blocks w /\ brk w' = brk w /\
    fmem w' = fmem w) \/
   (q = brk w /\ grants size w = true /\
    blocks w' = <[q := size]> (delete p (blocks w)) /\ brk w < brk w' /\
    fmem w' = moved (fmem w) p q size)).
Proof.
  intros [Hp Ha Hb] Hs. unfold realloc.
  assert (0 <= size / 16) by (apply Z.div_pos; lia).
  destruct (grants size w) eqn:G; intros [= <- <-]; sys_unfold.
  - split_and!; try done.
    + split; simpl; [lia | by apply next_brk_aligned |].
      intros a s Hl. destruct (decide (a = brk w)) as [->|Hne]; [lia|].
      rewrite lookup_insert_ne in Hl by done.
      destruct (decide (p = a)) as [->|Hne'].
      * by rewrite lookup_delete_eq in Hl.
      * rewrite lookup_delete_ne in Hl by done. apply Hb in Hl. lia.
    + right. split_and!; try done. lia.
  - split_and!; try done. left. done.
Qed.

(** ** The finalizer registry *)

Lemma slot_S arr n : slot arr (S n) - sizeof_finalizer = slot arr n.
Proof. unfold slot, sizeof_finalizer, sizeof_ptr. lia. Qed.

Lemma slot_inj arr i j : slot arr i = slot arr j -> i = j.
Proof. unfold slot, sizeof_finalizer, sizeof_ptr. lia. Qed.

Lemma stored_S w arr n :
  stored w arr (S n) = fmem w (slot arr n) :: stored w arr n.
Proof. done. Qed.

Lemma stored_frame w w' arr n : fmem w' = fmem w -> stored w' arr n = stored w arr n.
Proof. intros H. induction n as [|n IH]; simpl; [done|]. by rewrite H, IH. Qed.

Lemma call_loop_stored n : forall fuel arr w,
  (n <= fuel)%nat ->
  finalizer_array.call_loop fuel arr (slot arr n) w
  = Some (invoke_all (stored w arr n) w).
Proof.
  induction n as [|n IH]; intros fuel arr w Hn.
  - assert (slot arr 0 = arr) as -> by (unfold slot; lia).
    destruct fuel; simpl; by rewrite Z.eqb_refl.
  - destruct fuel as [|fuel]; [lia|]. simpl.
    destruct (slot arr (S n) =? arr) eqn:E.
    { apply Z.eqb_eq in E. unfold slot, sizeof_finalizer, sizeof_ptr in E. lia. }
    rewrite slot_S, IH by lia.
    by rewrite (stored_frame w).
Qed.

Lemma stored_rev w arr l :
  (forall i f, l !! i = Some f -> fmem w (slot arr i) = f) ->
  stored w arr (length l) = rev l.
Proof.
  induction l as [|x l IH] using rev_ind; intros H; [done|].
  rewrite length_app, Nat.add_comm, rev_unit. simpl. f_equal.
  - apply H. rewrite lookup_app_r by lia. by rewrite Nat.sub_diag.
  - apply IH. intros i f Hi. apply H. rewrite lookup_app_l; [done|].
    by eapply lookup_lt_Some.
Qed.

Lemma stored_registered w fa l cap :
  reg_ok w fa l cap -> stored w (finalizer_array.m_array fa) (length l) = rev l.
Proof. intros H. apply stored_rev, (reg_mem _ _ _ _ H). Qed.

Lemma call_registered w fa l :
  registered w fa l -> finalizer_array.call fa w = Some (invoke_all (rev l) w).
Proof.
  intros [cap H]. unfold finalizer_array.call.
  rewrite (reg_tail _ _ _ _ H), call_loop_stored.
  - by rewrite (stored_registered _ _ _ _ H).
  - unfold slot, sizeof_finalizer, sizeof_ptr. lia.
Qed.

Lemma reg_ok_frame w w' fa l cap :
  reg_ok w fa l cap -> fmem w' = fmem w ->
  blocks w' !! finalizer_array.m_array fa = blocks w !! finalizer_array.m_array fa ->
  reg_ok w' fa l cap.
Proof.
  intros [] Hm Hb. split; try done.
  - intros i f Hi. rewrite Hm. auto.
  - destruct (finalizer_array.m_array fa =? 0); [done|]. by rewrite Hb.
Qed.

Lemma registered_frame w w' fa l :
  registered w fa l -> fmem w' = fmem w ->
  blocks w' !! finalizer_array.m_array fa = blocks w !! finalizer_array.m_array fa ->
  registered w' fa l.
Proof. intros [cap H] ? ?. exists cap. by eapply reg_ok_frame. Qed.

Lemma reg_ok_init w : reg_ok w finalizer_array.init [] 0.
Proof. by split. Qed.

(** [clear] calls the registered finalizers, newest first, and leaves an
    empty registry of the same capacity. *)
Lemma clear_registered w fa l :
  registered w fa l ->
  exists fa', finalizer_array.clear fa w = Some (fa', invoke_all (rev l) w) /\
    finalizer_array.m_tail fa' = finalizer_array.m_array fa /\
    finalizer_array.m_array fa' = finalizer_array.m_array fa /\
    finalizer_array.m_end fa' = finalizer_array.m_end fa /\
    registered (invoke_all (rev l) w) fa' [].
Proof.
  intros Hr. unfold finalizer_array.clear. rewrite (call_registered _ _ _ Hr).
  eexists. split_and!; try done.
  destruct Hr as [cap H]. exists cap.
  destruct (invoke_all_frame (rev l) w) as (Hb & _ & Hm & _).
  destruct H. split; simpl; try done.
  - unfold slot. simpl. lia.
  - lia.
  - by rewrite Hb.
Qed.

Lemma dtor_registered w fa l :
  registered w fa l ->
  finalizer_array.dtor fa w
  = Some (free (finalizer_array.m_array fa) (invoke_all (rev l) w)).
Proof.
  intros Hr. unfold finalizer_array.dtor. by rewrite (call_registered _ _ _ Hr).
Qed.

Lemma grants_bound size w : grants size w = true -> size <= PTRDIFF_MAX.
Proof. unfold grants. intros H. apply andb_true_iff in H as [H _]. lia. Qed.

(** [push] on a registry holding [l]: either the entry is appended (the
    storage may have moved and grown), or [std::bad_alloc] leaves the
    registry, the memory and the heap as they were. *)
Lemma push_registered w fa l cap f r fa' w' :
  heap_ok w -> reg_ok w fa l cap ->
  finalizer_array.push f fa w = (r, fa', w') ->
  heap_ok w' /\ invoked w' = invoked w /\ deleted w' = deleted w /\
  brk w <= brk w' /\
  (forall a s, a <> finalizer_array.m_array fa ->
               blocks w !! a = Some s -> blocks w' !! a = Some s) /\
  ((r = Normal tt /\ registered w' fa' (l ++ [f]) /\
    (finalizer_array.m_array fa' = finalizer_array.m_array fa \/
     finalizer_array.m_array fa' = brk w) /\
    finalizer_array.pop_last fa' =
      {| finalizer_array.m_tail := slot (finalizer_array.m_array fa') (length l);
         finalizer_array.m_end := finalizer_array.m_end fa';
         finalizer_array.m_array := finalizer_array.m_array fa' |} /\
    reg_ok w' (finalizer_array.pop_last fa') l
      (if finalizer_array.m_tail fa =? finalizer_array.m_end fa
       then next_capacity cap else cap)) \/
   (r = Raise bad_alloc /\ fa' = fa /\ fmem w' = fmem w /\
    blocks w' = blocks w /\ brk w' = brk w /\
    finalizer_array.m_tail fa = finalizer_array.m_end fa)).
Proof.
  intros Hw H. unfold finalizer_array.push.
  pose proof (reg_tail _ _ _ _ H) as Ht. pose proof (reg_end _ _ _ _ H) as He.
  pose proof (reg_room _ _ _ _ H) as Hr. pose proof (reg_bound _ _ _ _ H) as Hb.
  pose proof (reg_mem _ _ _ _ H) as Hm. pose proof (reg_live _ _ _ _ H) as Hl.
  destruct (finalizer_array.m_tail fa =? finalizer_array.m_end fa) eqn:E.
  - (* the registry is full *)
    apply Z.eqb_eq in E.
    assert (Z.of_nat (length l) = cap) as Hcap by (plat; lia).
    unfold finalizer_array.push_expand.
    assert ((finalizer_array.m_end fa - finalizer_array.m_array fa) / sizeof_finalizer
            = cap) as ->.
    { rewrite He. replace (_ + _ * cap - _) with (cap * sizeof_finalizer) by lia.
      by apply Z.div_mul. }
    assert ((if cap =? 0
             then if sizeof_finalizer <? 72 / 2 then 72 / sizeof_finalizer else 8
             else size_t (cap * 2)) = next_capacity cap) as ->.
    { unfold next_capacity. destruct (cap =? 0); [done|].
      rewrite size_t_small by (plat; lia). lia. }
    assert (0 <= next_capacity cap /\ cap < next_capacity cap /\
            sizeof_finalizer * next_capacity cap < size_mod) as (Hn0 & Hn1 & Hn2).
    { unfold next_capacity. destruct (cap =? 0) eqn:E0; plat; lia. }
    rewrite (size_t_small (_ * _)) by (plat; lia).
    destruct (realloc _ _ w) as [tmp w1] eqn:R.
    apply realloc_ok in R; [|done|plat; lia].
    destruct R as (Hw1 & Hi & Hd & _ & _ & [(-> & G & Hbl & Hbrk & Hfm)
                                           |(-> & G & Hbl & Hbrk & Hfm)]).
    + simpl. intros [= <- <- <-]. split_and!; try done; try lia.
      * intros a s _ Ha. by rewrite Hbl.
      * right. done.
    + pose proof (brk_pos _ Hw) as Hpos.
      destruct (brk w =? 0) eqn:E0; [lia|].
      intros [= <- <- <-]. simpl.
      assert (forall i g, l !! i = Some g ->
                (if slot (brk w) i =? brk w + sizeof_finalizer * cap
                 then f else fmem w1 (slot (brk w) i)) = g) as Hold.
      { intros i g Hi'. assert (i < length l)%nat by (by eapply lookup_lt_Some).
        destruct (slot (brk w) i =? _) eqn:E1; [plat; lia|].
        rewrite Hfm. unfold moved.
        assert ((brk w <=? slot (brk w) i) &&
                (slot (brk w) i <? brk w + sizeof_finalizer * next_capacity cap)
                = true) as ->.
        { apply andb_true_iff. plat. lia. }
        replace (_ + (slot (brk w) i - brk w))
          with (slot (finalizer_array.m_array fa) i) by (plat; lia).
        by apply Hm. }
      split_and!; try done.
      * split; simpl; try (by apply Hw1).
      * lia.
      * intros a s Hne Ha. rewrite Hbl.
        pose proof (blocks_below _ Hw _ _ Ha).
        rewrite lookup_insert_ne by lia. by rewrite lookup_delete_ne.
      * left. split_and!; try done.
        -- exists (next_capacity cap). split; simpl.
           ++ rewrite length_app. simpl. plat. lia.
           ++ done.
           ++ rewrite length_app. simpl. lia.
           ++ by apply grants_bound in G.
           ++ intros i g Hi'. destruct (decide (i < length l)%nat) as [Hlt|Hge].
              ** rewrite lookup_app_l in Hi' by done. by apply Hold.
              ** apply lookup_lt_Some in Hi' as Hlen.
                 rewrite length_app in Hlen. simpl in Hlen.
                 assert (i = length l) as -> by lia.
                 rewrite lookup_app_r, Nat.sub_diag in Hi' by lia.
                 injection Hi' as <-.
                 destruct (slot (brk w) (length l) =? _) eqn:E1; [done|].
                 plat. lia.
           ++ rewrite E0, Hbl. by rewrite lookup_insert_eq.
        -- by right.
        -- unfold finalizer_array.pop_last. simpl. f_equal. plat. lia.
        -- split; simpl; try done.
           ++ plat. lia.
           ++ lia.
           ++ by apply grants_bound in G.
           ++ rewrite E0, Hbl. by rewrite lookup_insert_eq.
  - (* room is left *)
    apply Z.eqb_neq in E. intros [= <- <- <-]. sys_unfold.
    assert (forall i g, l !! i = Some g ->
              (if slot (finalizer_array.m_array fa) i =? finalizer_array.m_tail fa
               then f else fmem w (slot (finalizer_array.m_array fa) i)) = g) as Hold.
    { intros i g Hi'. assert (i < length l)%nat by (by eapply lookup_lt_Some).
      destruct (slot _ i =? _) eqn:E1; [plat; lia|]. by apply Hm. }
    split_and!; try done; try lia.
    { by destruct Hw. }
    left. split_and!; try done.
    + exists cap. split; simpl; try done.
      * rewrite length_app. simpl. plat. lia.
      * rewrite length_app. simpl. plat. lia.
      * intros i g Hi'. destruct (decide (i < length l)%nat) as [Hlt|Hge].
        -- rewrite lookup_app_l in Hi' by done. by apply Hold.
        -- apply lookup_lt_Some in Hi' as Hlen.
           rewrite length_app in Hlen. simpl in Hlen.
           assert (i = length l) as -> by lia.
           rewrite lookup_app_r, Nat.sub_diag in Hi' by lia.
           injection Hi' as <-.
           destruct (slot _ (length l) =? _) eqn:E1; [done|]. plat. lia.
    + by left.
    + unfold finalizer_array.pop_last. simpl. f_equal. plat. lia.
    + split; simpl; try done. plat. lia.
Qed.

(** ** The chunk list *)

Lemma chain_front c : chain c = front c ++ [c_addr (terminal c)].
Proof. induction c as [a|a n IH]; simpl; [done|]. by rewrite IH. Qed.

Lemma free_blocks p w a :
  blocks (free p w) !! a
  = if decide (a = p /\ p <> 0) then None else blocks w !! a.
Proof.
  unfold free. destruct (p =? 0) eqn:E; sys_unfold.
  - apply Z.eqb_eq in E. case_decide; [lia|done].
  - apply Z.eqb_neq in E. case_decide as D.
    + destruct D as [-> _]. by rewrite lookup_delete_eq.
    + rewrite lookup_delete_ne; [done|]. intros ->. by apply D.
Qed.

Lemma same_but_heap_trans w1 w2 w3 :
  same_but_heap w1 w2 -> same_but_heap w2 w3 -> same_but_heap w1 w3.
Proof.
  intros (? & ? & ? & ? & ?) (? & ? & ? & ? & ?).
  unfold same_but_heap. split_and!; congruence.
Qed.

Lemma free_same p w : same_but_heap w (free p w).
Proof. unfold same_but_heap, free. destruct (p =? 0); sys_unfold; done. Qed.

Lemma free_syslog p w : syslog (free p w) = syslog w ++ [Free p].
Proof. unfold free. destruct (p =? 0); sys_unfold; done. Qed.

(** The loop of [chunk_list::clear]: it stops at the terminal chunk, having
    freed exactly the chunks before it, in order. *)
Lemma free_but_last_spec c : forall w,
  exists w', chunk_list.free_but_last c w = (terminal c, w') /\
    (heap_ok w -> heap_ok w') /\ same_but_heap w w' /\
    syslog w' = syslog w ++ (Free <$> front c) /\
    (forall a, blocks w' !! a
               = if decide (a ∈ front c /\ a <> 0) then None else blocks w !! a).
Proof.
  induction c as [a|a n IH]; intros w; simpl.
  - exists w. split_and!; try done. by rewrite app_nil_r.
  - destruct (IH (free a w)) as (w' & -> & Hok & Hs & Hl & Hb).
    exists w'. split_and!; try done.
    + intros Hw. by apply Hok, free_ok.
    + eapply same_but_heap_trans; [apply free_same | done].
    + rewrite Hl, free_syslog, <- app_assoc. done.
    + intros x. rewrite Hb, free_blocks.
      repeat case_decide; try done; exfalso.
      * match goal with H : ¬ _ |- _ => apply H end. split; [|tauto].
        apply elem_of_cons. tauto.
      * match goal with H : ¬ (x ∈ a :: _ /\ _) |- _ => apply H end.
        split; [|lia]. apply elem_of_cons. left. tauto.
      * match goal with H : x ∈ a :: _ /\ _ |- _ => destruct H as [Hin Hx] end.
        apply elem_of_cons in Hin as [->|Hin]; tauto.
Qed.

(** The loop of [~chunk_list()]: every chunk is freed, newest first. *)
Lemma free_all_spec c : forall w,
  (heap_ok w -> heap_ok (chunk_list.free_all c w)) /\
  same_but_heap w (chunk_list.free_all c w) /\
  syslog (chunk_list.free_all c w) = syslog w ++ (Free <$> chain c) /\
  (forall a, blocks (chunk_list.free_all c w) !! a
             = if decide (a ∈ chain c /\ a <> 0) then None else blocks w !! a).
Proof.
  induction c as [a|a n IH]; intros w;
    cbn [chunk_list.free_all chain].
  - split_and!.
    + apply free_ok.
    + apply free_same.
    + apply free_syslog.
    + intros x. rewrite free_blocks. repeat case_decide; try done; exfalso.
      * match goal with H : ¬ _ |- _ => apply H end. split; [|lia].
        apply list_elem_of_singleton. tauto.
      * match goal with H : x ∈ [a] /\ _ |- _ => destruct H as [Hin Hx] end.
        apply list_elem_of_singleton in Hin as ->. tauto.
  - destruct (IH (free a w)) as (Hok & Hs & Hl & Hb).
    split_and!.
    + intros Hw. by apply Hok, free_ok.
    + eapply same_but_heap_trans; [apply free_same | done].
    + rewrite Hl, free_syslog, <- app_assoc. done.
    + intros x. rewrite Hb, free_blocks.
      repeat case_decide; try done; exfalso.
      * match goal with H : ¬ _ |- _ => apply H end. split; [|tauto].
        apply elem_of_cons. tauto.
      * match goal with H : ¬ (x ∈ a :: _ /\ _) |- _ => apply H end.
        split; [|lia]. apply elem_of_cons. left. tauto.
      * match goal with H : x ∈ a :: _ /\ _ |- _ => destruct H as [Hin Hx] end.
        apply elem_of_cons in Hin as [->|Hin]; tauto.
Qed.

(** ** The arena: structure kept by every operation *)

Lemma terminal_in_chain c : c_addr (terminal c) ∈ chain c.
Proof. rewrite chain_front. apply elem_of_app. right. by apply list_elem_of_singleton. Qed.

Lemma ctor_spec cs w0 :
  heap_ok w0 ->
  (grants (size_t (sizeof_chunk + cs)) w0 = false /\
   exists w, zone.ctor cs w0 = zone.Terminated w /\ blocks w = blocks w0 /\
             syslog w = syslog w0 ++ [Malloc (size_t (sizeof_chunk + cs)) 0]) \/
  (grants (size_t (sizeof_chunk + cs)) w0 = true /\
   exists w, zone.ctor cs w0 =
      zone.Built {| zone.m_chunk_size := cs;
                    zone.m_chunk_list :=
                      {| chunk_list.m_free := cs;
                         chunk_list.m_ptr := brk w0 + sizeof_chunk;
                         chunk_list.m_head := Last (brk w0) |};
                    zone.m_finalizer_array := finalizer_array.init |} w /\
      heap_ok w /\
      blocks w = <[brk w0 := size_t (sizeof_chunk + cs)]> (blocks w0) /\
      fmem w = fmem w0 /\ invoked w = invoked w0 /\ deleted w = deleted w0 /\
      syslog w = syslog w0 ++ [Malloc (size_t (sizeof_chunk + cs)) (brk w0)]).
Proof.
  intros Hw. unfold zone.ctor, chunk_list.ctor.
  destruct (malloc _ w0) as [c w] eqn:M.
  apply malloc_ok in M; [|done|apply size_t_range].
  destruct M as (Hw' & Hm & Hi & Hd & _ & Hl & [(-> & G & Hb & _)|(-> & G & Hb & _)]).
  - left. split; [done|]. exists w. simpl. done.
  - right. split; [done|]. exists w.
    pose proof (brk_pos _ Hw). destruct (brk w0 =? 0) eqn:E; [lia|]. done.
Qed.

Lemma ctor_ok cs w0 z w :
  heap_ok w0 -> zone.ctor cs w0 = zone.Built z w ->
  zone_ok w z cs (c_addr (zone.m_head z)) [] /\
  zone.m_ptr z = c_addr (zone.m_head z) + sizeof_chunk /\ zone.m_free z = cs /\
  zone.m_head z = Last (brk w0) /\ invoked w = invoked w0.
Proof.
  intros Hw Hc.
  destruct (ctor_spec cs w0 Hw) as [(_ & w1 & Hc' & _)|(G & w1 & Hc' & Hw1 & Hb & Hm & Hi & _)];
    rewrite Hc in Hc'; [done|]. injection Hc' as -> ->.
  split_and!; try done. split; simpl; try done.
  - exists 0. apply reg_ok_init.
  - apply NoDup_singleton.
  - intros a Ha. apply list_elem_of_singleton in Ha as ->.
    rewrite Hb, lookup_insert_eq. by eexists.
  - by rewrite Hb, lookup_insert_eq.
  - intros Ha. apply list_elem_of_singleton in Ha.
    pose proof (brk_pos _ Hw). lia.
Qed.

(** [zone_ok] does not look at the bump pointer and the free counter. *)
Lemma zone_ok_bump w z z' cs c0 l :
  zone_ok w z cs c0 l ->
  zone.m_chunk_size z' = zone.m_chunk_size z ->
  zone.m_head z' = zone.m_head z ->
  zone.m_finalizer_array z' = zone.m_finalizer_array z ->
  zone_ok w z' cs c0 l.
Proof. intros [] H1 H2 H3. split; rewrite ?H1, ?H2, ?H3; done. Qed.

Lemma allocate_expand_cases size z w x z' w' :
  heap_ok w ->
  zone.allocate_expand size z w = Some (x, z', w') ->
  exists sz,
    zone.grow zone.grow_fuel (zone.m_chunk_size z) size = Some sz /\
    heap_ok w' /\ fmem w' = fmem w /\ invoked w' = invoked w /\
    deleted w' = deleted w /\
    ((x = 0 /\ z' = z /\ blocks w' = blocks w /\
      grants (size_t (sizeof_chunk + sz)) w = false /\
      syslog w' = syslog w ++ [Malloc (size_t (sizeof_chunk + sz)) 0]) \/
     (x = brk w + sizeof_chunk /\
      grants (size_t (sizeof_chunk + sz)) w = true /\
      z' = zone.with_chunk_list
             {| chunk_list.m_head := Link (brk w) (zone.m_head z);
                chunk_list.m_free := size_t (sz - size);
                chunk_list.m_ptr := brk w + sizeof_chunk + size |} z /\
      blocks w' = <[brk w := size_t (sizeof_chunk + sz)]> (blocks w) /\
      brk w < brk w' /\
      syslog w' = syslog w ++ [Malloc (size_t (sizeof_chunk + sz)) (brk w)])).
Proof.
  intros Hw. unfold zone.allocate_expand.
  destruct (zone.grow _ _ _) as [sz|]; [|done].
  destruct (malloc _ w) as [c w1] eqn:M.
  apply malloc_ok in M; [|done|apply size_t_range].
  destruct M as (Hw' & Hm & Hi & Hd & _ & Hl & [(-> & G & Hb & _)|(-> & G & Hb & Hk)]).
  - simpl. intros [= <- <- <-]. exists sz. split_and!; try done. by left.
  - pose proof (brk_pos _ Hw). destruct (brk w =? 0) eqn:E; [lia|].
    intros [= <- <- <-]. exists sz. split_and!; try done. by right.
Qed.

Lemma allocate_no_align_ok size z w x z' w' cs c0 l :
  zone_ok w z cs c0 l ->
  zone.allocate_no_align size z w = Some (x, z', w') ->
  zone_ok w' z' cs c0 l /\ invoked w' = invoked w /\ deleted w' = deleted w /\
  zone.m_finalizer_array z' = zone.m_finalizer_array z.
Proof.
  intros Hz. unfold zone.allocate_no_align.
  destruct (zone.m_free z <? size).
  - intros Hx. pose proof (zo_heap _ _ _ _ _ Hz) as Hw.
    destruct (allocate_expand_cases _ _ _ _ _ _ Hw Hx)
      as (sz & _ & Hw' & Hm & Hi & Hd &
          [(-> & -> & Hb & _)|(-> & _ & -> & Hb & Hk & _)]).
    + split_and!; try done. destruct Hz. split; try done.
      * eapply registered_frame; [done|done|by rewrite Hb].
      * intros a Ha. rewrite Hb. auto.
      * by rewrite Hb.
    + split_and!; try done. destruct Hz.
      assert (forall a, a ∈ chain (zone.m_head z) -> a <> brk w) as Hfresh.
      { intros a Ha ->. destruct (zo_live0 _ Ha) as [s Hs].
        apply (blocks_below _ Hw) in Hs. lia. }
      split; simpl; try done.
      * eapply registered_frame; [done|done|].
        rewrite Hb. apply lookup_insert_ne.
        destruct zo_reg0 as [cap Hr]. pose proof (reg_live _ _ _ _ Hr) as Hlv.
        pose proof (brk_pos _ Hw).
        destruct (_ =? 0) eqn:E; [apply Z.eqb_eq in E; lia|].
        apply (blocks_below _ Hw) in Hlv. lia.
      * apply NoDup_cons. split; [|done]. intros Ha. by eapply Hfresh.
      * intros a Ha. rewrite Hb. apply elem_of_cons in Ha as [->|Ha].
        -- rewrite lookup_insert_eq. by eexists.
        -- rewrite lookup_insert_ne; [auto|]. intros <-. by eapply Hfresh.
      * rewrite Hb, lookup_insert_ne; [done|]. intros Heq.
        eapply (Hfresh c0); [|done]. rewrite <- zo_first0. apply terminal_in_chain.
      * intros Ha. apply elem_of_cons in Ha as [Ha|Ha]; [|done].
        destruct zo_reg0 as [cap Hr]. pose proof (reg_live _ _ _ _ Hr) as Hlv.
        pose proof (brk_pos _ Hw).
        destruct (_ =? 0) eqn:E; [apply Z.eqb_eq in E; lia|].
        apply (blocks_below _ Hw) in Hlv. lia.
  - intros [= <- <- <-]. split_and!; try done.
    by eapply zone_ok_bump.
Qed.

Lemma chain_below w z cs c0 l a :
  zone_ok w z cs c0 l -> a ∈ chain (zone.m_head z) -> 0 < a < brk w.
Proof.
  intros Hz Ha. destruct (zo_live _ _ _ _ _ Hz _ Ha) as [s Hs].
  by apply (blocks_below _ (zo_heap _ _ _ _ _ Hz)) in Hs.
Qed.

(** A registration on an arena: the chunks are not touched. *)
Lemma push_zone_ok f z w r fa' w' cs c0 l :
  zone_ok w z cs c0 l ->
  finalizer_array.push f (zone.m_finalizer_array z) w = (r, fa', w') ->
  invoked w' = invoked w /\ deleted w' = deleted w /\
  ((r = Normal tt /\
    zone_ok w' (zone.with_finalizer_array fa' z) cs c0 (l ++ [f]) /\
    zone_ok w' (zone.with_finalizer_array (finalizer_array.pop_last fa') z) cs c0 l) \/
   (r = Raise bad_alloc /\ fa' = zone.m_finalizer_array z /\
    zone_ok w' z cs c0 l /\ fmem w' = fmem w /\ blocks w' = blocks w)).
Proof.
  intros Hz Hp. pose proof Hz as [Hw Hcs [cap Hr] Hnd Hlv Hf Hfs Hap].
  destruct (push_registered _ _ _ _ _ _ _ _ Hw Hr Hp)
    as (Hw' & Hi & Hd & Hk & Hfr &
        [(-> & Hr' & Harr & _ & Hpop)|(-> & -> & Hm & Hb & Hk' & _)]).
  - split_and!; try done. left.
    assert (finalizer_array.m_array fa' ∉ chain (zone.m_head z)) as Hap'.
    { destruct Harr as [->| ->]; [done|]. intros Ha.
      pose proof (chain_below _ _ _ _ _ _ Hz Ha). lia. }
    assert (forall a, a ∈ chain (zone.m_head z) -> is_Some (blocks w' !! a)) as Hlv'.
    { intros a Ha. destruct (Hlv _ Ha) as [s Hs]. exists s. apply Hfr; [|done].
      intros ->. done. }
    assert (blocks w' !! c0 = Some (size_t (sizeof_chunk + cs))) as Hfs'.
    { apply Hfr; [|done]. intros Heq. apply Hap. rewrite <- Heq, <- Hf.
      apply terminal_in_chain. }
    split; [done|]. split; split; simpl; try done. by eexists.
  - split_and!; try done. right. split_and!; try done.
    split; try done.
    + exists cap. eapply reg_ok_frame; [done|done|by rewrite Hb].
    + intros a Ha. rewrite Hb. auto.
    + by rewrite Hb.
Qed.

(** [zone::clear] on an arena holding [l]. *)
Lemma clear_ok z w cs c0 l :
  zone_ok w z cs c0 l ->
  exists z' w',
    zone.clear z w = Some (z', w') /\ zone_ok w' z' cs c0 [] /\
    invoked w' = invoked w ++ rev l /\ deleted w' = deleted w /\
    syslog w' = syslog w ++ (Free <$> front (zone.m_head z)) /\
    (forall a, a ∈ front (zone.m_head z) -> blocks w' !! a = None) /\
    (forall a, a ∉ front (zone.m_head z) -> blocks w' !! a = blocks w !! a) /\
    zone.m_head z' = Last c0 /\ zone.m_ptr z' = c0 + sizeof_chunk /\
    zone.m_free z' = cs /\ zone.m_chunk_size z' = cs /\
    finalizer_array.m_array (zone.m_finalizer_array z')
    = finalizer_array.m_array (zone.m_finalizer_array z) /\
    finalizer_array.m_end (zone.m_finalizer_array z')
    = finalizer_array.m_end (zone.m_finalizer_array z) /\
    finalizer_array.m_tail (zone.m_finalizer_array z')
    = finalizer_array.m_array (zone.m_finalizer_array z).
Proof.
  intros Hz. pose proof Hz as [Hw Hcs Hr Hnd Hlv Hf Hfs Hap].
  unfold zone.clear.
  destruct (clear_registered _ _ _ Hr) as (fa' & -> & Ht & Ha & He & Hr').
  destruct (invoke_all_frame (rev l) w) as (Hb1 & Hk1 & Hm1 & Ho1 & Hl1 & Hd1).
  unfold chunk_list.clear.
  destruct (free_but_last_spec (zone.m_head z) (invoke_all (rev l) w))
    as (w2 & Hfb & Hok & (Hm2 & Hi2 & Hd2 & Ho2 & Hk2) & Hl2 & Hb2).
  fold (zone.m_head z). rewrite Hfb, Hf.
  assert (forall a, a ∈ front (zone.m_head z) -> a ∈ chain (zone.m_head z)) as Hfc.
  { intros a Hin. rewrite chain_front. apply elem_of_app. by left. }
  assert (c0 ∉ front (zone.m_head z)) as Hc0.
  { rewrite chain_front, Hf in Hnd. apply NoDup_app in Hnd as (_ & Hnd & _).
    intros Hin. apply (Hnd _ Hin). by apply list_elem_of_singleton. }
  assert (forall a, a ∉ front (zone.m_head z) -> blocks w2 !! a = blocks w !! a) as Hout.
  { intros a Hn. rewrite Hb2, Hb1. case_decide; [tauto|done]. }
  do 2 eexists. split; [done|]. split_and!; simpl; try done.
  - split; simpl; try done.
    + apply Hok. split; rewrite ?Hk1, ?Hb1; apply Hw.
    + eapply registered_frame; [done|done|].
      rewrite Ha, Hb2. case_decide as D; [|done].
      destruct D as [D _]. exfalso. apply Hap. by apply Hfc.
    + apply NoDup_singleton.
    + intros a Hin. apply list_elem_of_singleton in Hin as ->.
      rewrite Hout by done. rewrite Hfs. by eexists.
    + by rewrite Hout.
    + rewrite Ha. intros Hin. apply list_elem_of_singleton in Hin.
      apply Hap. rewrite Hin, <- Hf. apply terminal_in_chain.
  - by rewrite Hi2, invoke_all_invoked.
  - by rewrite Hd2.
  - by rewrite Hl2, Hl1.
  - intros a Hin. rewrite Hb2. case_decide as D; [done|].
    exfalso. apply D. split; [done|].
    pose proof (chain_below _ _ _ _ _ _ Hz (Hfc _ Hin)). lia.
Qed.

(** The three stages of a typed allocation. *)
Lemma allocate_stages sT d ctor z w r z' w' :
  zone.allocate sT d ctor z w = Some (r, z', w') ->
  exists x z1 w1 rp fa2,
    zone.allocate_align sT z w = Some (x, z1, w1) /\
    finalizer_array.push (Finalizer d x) (zone.m_finalizer_array z1) w1
    = (rp, fa2, w') /\
    match rp with
    | Raise e =>
        r = Raise e /\
        z' = zone.undo_allocate sT (zone.with_finalizer_array fa2 z1)
    | Normal _ =>
        match ctor x with
        | None => r = Normal x /\ z' = zone.with_finalizer_array fa2 z1
        | Some e =>
            r = Raise e /\
            z' = zone.undo_allocate sT
                   (zone.with_finalizer_array (finalizer_array.pop_last fa2) z1)
        end
    end.
Proof.
  unfold zone.allocate.
  destruct (zone.allocate_align sT z w) as [[[x z1] w1]|]; [|done].
  destruct (finalizer_array.push _ _ w1) as [[rp fa2] w2] eqn:P.
  destruct rp as [[]|e].
  - destruct (ctor x) as [e|] eqn:C; intros [= <- <- <-];
      exists x, z1, w1, (Normal tt), fa2; rewrite ?C; done.
  - intros [= <- <- <-]. exists x, z1, w1, (Raise e), fa2. done.
Qed.

(** A typed allocation keeps the structure: the registry gains the
    finalizer of the new object when (and only when) the call returns. *)
Lemma allocate_ok sT d ctor z w r z' w' cs c0 l :
  zone_ok w z cs c0 l ->
  zone.allocate sT d ctor z w = Some (r, z', w') ->
  invoked w' = invoked w /\ deleted w' = deleted w /\
  ((exists x, r = Normal x /\ ctor x = None /\
              zone_ok w' z' cs c0 (l ++ [Finalizer d x])) \/
   (exists e, r = Raise e /\ zone_ok w' z' cs c0 l)).
Proof.
  intros Hz Ha.
  destruct (allocate_stages _ _ _ _ _ _ _ _ Ha)
    as (x & z1 & w1 & rp & fa2 & Hal & Hp & Hr).
  destruct (allocate_no_align_ok _ _ _ _ _ _ _ _ _ Hz Hal) as (Hz1 & Hi1 & Hd1 & _).
  destruct (push_zone_ok _ _ _ _ _ _ _ _ _ Hz1 Hp)
    as (Hi2 & Hd2 & [(-> & Hz2 & Hz2')|(-> & -> & Hz2 & _)]).
  - split_and!; try congruence.
    destruct (ctor x) as [e|] eqn:C; destruct Hr as [-> ->].
    + right. exists e. split; [done|]. by eapply zone_ok_bump.
    + left. exists x. done.
  - destruct Hr as [-> ->]. split_and!; try congruence.
    right. exists bad_alloc. split; [done|].
    eapply zone_ok_bump; [exact Hz2|done..].
Qed.

(** Every operation keeps the structure of the arena. *)
Lemma step_ok o z w z' w' cs c0 l :
  zone_ok w z cs c0 l -> step o z w = Some (z', w') ->
  exists l', zone_ok w' z' cs c0 l'.
Proof.
  intros Hz. destruct o as [size|size|func data|dtor p|sT d ctor|]; simpl.
  - destruct (zone.allocate_align size z w) as [[[x z1] w1]|] eqn:E; [|done].
    intros [= <- <-]. exists l.
    by destruct (allocate_no_align_ok _ _ _ _ _ _ _ _ _ Hz E).
  - destruct (zone.allocate_no_align size z w) as [[[x z1] w1]|] eqn:E; [|done].
    intros [= <- <-]. exists l.
    by destruct (allocate_no_align_ok _ _ _ _ _ _ _ _ _ Hz E).
  - unfold zone.push_finalizer.
    destruct (finalizer_array.push _ _ w) as [[r fa] w1] eqn:E.
    intros [= <- <-].
    destruct (push_zone_ok _ _ _ _ _ _ _ _ _ Hz E)
      as (_ & _ & [(_ & Hz1 & _)|(_ & -> & Hz1 & _)]).
    + by eexists.
    + exists l. by eapply zone_ok_bump.
  - unfold zone.push_finalizer_unique.
    destruct (finalizer_array.push _ _ w) as [[r fa] w1] eqn:E.
    destruct (push_zone_ok _ _ _ _ _ _ _ _ _ Hz E)
      as (_ & _ & [(-> & Hz1 & _)|(-> & -> & Hz1 & _)]); intros [= <- <-].
    + by eexists.
    + exists l. unfold zone.unique_ptr_dtor.
      assert (zone_ok w1 (zone.with_finalizer_array (zone.m_finalizer_array z) z)
                cs c0 l) as Hz2 by (by eapply zone_ok_bump).
      destruct (p =? 0); [done|].
      destruct Hz2 as [Hw ? [cap Hr] ? ? ? ? ?]. split; try done.
      * by destruct Hw.
      * exists cap. by eapply reg_ok_frame.
  - destruct (zone.allocate sT d ctor z w) as [[[r z1] w1]|] eqn:E; [|done].
    intros [= <- <-].
    destruct (allocate_ok _ _ _ _ _ _ _ _ _ _ _ Hz E)
      as (_ & _ & [(x & _ & _ & Hz1)|(e & _ & Hz1)]); by eexists.
  - intros Hc. destruct (clear_ok _ _ _ _ _ Hz) as (z1 & w1 & Hc' & Hz1 & _).
    rewrite Hc in Hc'. injection Hc' as <- <-. by eexists.
Qed.

Lemma reachable_ok P cs c0 z w :
  reachable P cs c0 z w -> exists l, zone_ok w z cs c0 l.
Proof.
  induction 1 as [w0 z w Hw Hc Hh|o z w z' w' _ [l IH] _ Hs].
  - exists []. destruct (ctor_ok _ _ _ _ Hw Hc) as (Hz & _). by rewrite <- Hh.
  - by eapply step_ok.
Qed.

(** The implicit [~zone()] on an arena holding [l]: the finalizers run,
    newest first, then the registry storage and every chunk are freed. *)
Lemma dtor_ok z w cs c0 l :
  zone_ok w z cs c0 l ->
  exists w',
    zone.dtor z w = Some w' /\ heap_ok w' /\
    invoked w' = invoked w ++ rev l /\ deleted w' = deleted w /\
    syslog w' = syslog w
                ++ Free (finalizer_array.m_array (zone.m_finalizer_array z))
                   :: (Free <$> chain (zone.m_head z)) /\
    (forall a, a ∈ chain (zone.m_head z) -> blocks w' !! a = None) /\
    blocks w' !! finalizer_array.m_array (zone.m_finalizer_array z) = None.
Proof.
  intros Hz. pose proof Hz as [Hw Hcs Hr Hnd Hlv Hf Hfs Hap].
  unfold zone.dtor. rewrite (dtor_registered _ _ _ Hr).
  destruct (invoke_all_frame (rev l) w) as (Hb1 & Hk1 & Hm1 & Ho1 & Hl1 & Hd1).
  set (w1 := free _ (invoke_all (rev l) w)).
  destruct (free_all_spec (zone.m_head z) w1)
    as (Hok & (Hm2 & Hi2 & Hd2 & Ho2 & Hk2) & Hl2 & Hb2).
  destruct (free_frame (finalizer_array.m_array (zone.m_finalizer_array z))
              (invoke_all (rev l) w)) as (Hm3 & Hi3 & Hd3 & Ho3 & Hk3 & Hl3).
  eexists. split; [done|]. unfold chunk_list.dtor. fold (zone.m_head z).
  split_and!.
  - apply Hok, free_ok. split; rewrite ?Hk1, ?Hb1; apply Hw.
  - rewrite Hi2. unfold w1. by rewrite Hi3, invoke_all_invoked.
  - rewrite Hd2. unfold w1. by rewrite Hd3.
  - rewrite Hl2. unfold w1. rewrite Hl3, Hl1, <- app_assoc. done.
  - intros a Ha. rewrite Hb2. case_decide as D; [done|]. exfalso. apply D.
    split; [done|]. pose proof (chain_below _ _ _ _ _ _ Hz Ha). lia.
  - rewrite Hb2. case_decide; [done|]. unfold w1. rewrite free_blocks.
    case_decide as D; [done|]. rewrite Hb1.
    destruct Hr as [cap Hr]. pose proof (reg_live _ _ _ _ Hr) as Hlive.
    destruct (_ =? 0) eqn:E.
    + apply Z.eqb_eq in E. rewrite E.
      destruct (blocks w !! 0) as [s|] eqn:E0; [|done].
      apply (blocks_below _ Hw) in E0. lia.
    + apply Z.eqb_neq in E. exfalso. apply D. done.
Qed.

(** The discipline of the registry, operation by operation: a call either
    invokes nothing and registers at most one finalizer, or it is [clear],
    which invokes exactly the registered finalizers, newest first, and
    leaves none registered. *)
Lemma step_discipline o z w z' w' cs c0 l :
  zone_ok w z cs c0 l -> step o z w = Some (z', w') ->
  exists l', zone_ok w' z' cs c0 l' /\
    ((invoked w' = invoked w /\ (l' = l \/ exists f, l' = l ++ [f])) \/
     (o = Clear /\ invoked w' = invoked w ++ rev l /\ l' = [])).
Proof.
  intros Hz. destruct o as [size|size|func data|dtor p|sT d ctor|]; simpl.
  - destruct (zone.allocate_align size z w) as [[[x z1] w1]|] eqn:E; [|done].
    intros [= <- <-]. exists l.
    destruct (allocate_no_align_ok _ _ _ _ _ _ _ _ _ Hz E) as (? & ? & _).
    split; [done|]. left. split; [done|]. by left.
  - destruct (zone.allocate_no_align size z w) as [[[x z1] w1]|] eqn:E; [|done].
    intros [= <- <-]. exists l.
    destruct (allocate_no_align_ok _ _ _ _ _ _ _ _ _ Hz E) as (? & ? & _).
    split; [done|]. left. split; [done|]. by left.
  - unfold zone.push_finalizer.
    destruct (finalizer_array.push _ _ w) as [[r fa] w1] eqn:E.
    intros [= <- <-].
    destruct (push_zone_ok _ _ _ _ _ _ _ _ _ Hz E)
      as (Hi & _ & [(_ & Hz1 & _)|(_ & -> & Hz1 & _)]).
    + eexists. split; [done|]. left. split; [done|]. right. by eexists.
    + exists l. split; [by eapply zone_ok_bump|]. left. split; [done|]. by left.
  - intros Hs.
    assert (invoked w' = invoked w) as Hi.
    { revert Hs. unfold zone.push_finalizer_unique.
      destruct (finalizer_array.push _ _ w) as [[r fa] w1] eqn:E.
      destruct (push_zone_ok _ _ _ _ _ _ _ _ _ Hz E) as (Hi & _).
      unfold zone.unique_ptr_dtor.
      destruct r; intros [= <- <-]; [done|]. by destruct (p =? 0). }
    revert Hs. unfold zone.push_finalizer_unique.
    destruct (finalizer_array.push _ _ w) as [[r fa] w1] eqn:E.
    destruct (push_zone_ok _ _ _ _ _ _ _ _ _ Hz E)
      as (_ & _ & [(-> & Hz1 & _)|(-> & -> & Hz1 & _)]); intros [= <- <-].
    + eexists. split; [done|]. left. split; [done|]. right. by eexists.
    + exists l. split; [|left; split; [done|by left]].
      unfold zone.unique_ptr_dtor.
      assert (zone_ok w1 (zone.with_finalizer_array (zone.m_finalizer_array z) z)
                cs c0 l) as Hz2 by (by eapply zone_ok_bump).
      destruct (p =? 0); [done|].
      destruct Hz2 as [Hw ? [cap Hr] ? ? ? ? ?]. split; try done.
      * by destruct Hw.
      * exists cap. by eapply reg_ok_frame.
  - destruct (zone.allocate sT d ctor z w) as [[[r z1] w1]|] eqn:E; [|done].
    intros [= <- <-].
    destruct (allocate_ok _ _ _ _ _ _ _ _ _ _ _ Hz E)
      as (Hi & _ & [(x & _ & _ & Hz1)|(e & _ & Hz1)]).
    + eexists. split; [done|]. left. split; [done|]. right. by eexists.
    + exists l. split; [done|]. left. split; [done|]. by left.
  - intros Hc.
    destruct (clear_ok _ _ _ _ _ Hz) as (z1 & w1 & Hc' & Hz1 & Hi & _).
    rewrite Hc in Hc'. injection Hc' as <- <-.
    exists []. split; [done|]. right. done.
Qed.

(** ** The alignment mask *)

Lemma aligned_size_eq s :
  zone.aligned_size s = 4 * (size_t (s + 3) / 4).
Proof.
  unfold zone.aligned_size. plat.
  change (4 - 1) with 3.
  pose proof (size_t_range (s + 3)) as Hr. unfold size_t in *. plat.
  set (x := (s + 3) mod 2 ^ 64) in *.
  change (Z.lnot 3 mod 2 ^ 64) with (Z.land (Z.lnot (Z.ones 2)) (Z.ones 64)).
  rewrite Z.land_assoc, (Z.land_comm x), <- Z.land_assoc, Z.land_ones by lia.
  rewrite (Z.mod_small x) by lia.
  rewrite Z.land_comm, <- Z.ldiff_land, Z.ldiff_ones_r by lia.
  rewrite Z.shiftr_div_pow2, Z.shiftl_mul_pow2 by lia.
  change (2 ^ 2) with 4. lia.
Qed.

Lemma aligned_size_multiple s : zone.aligned_size s mod 4 = 0.
Proof. rewrite aligned_size_eq, Z.mul_comm. by apply Z.mod_mul. Qed.

Lemma aligned_size_id s :
  0 <= s < size_mod - 3 -> s mod 4 = 0 -> zone.aligned_size s = s.
Proof.
  intros Hs Hm. rewrite aligned_size_eq, size_t_small by (plat; lia).
  apply Z.mod_divide in Hm as [k ->]; [|lia].
  replace (k * 4 + 3) with (3 + k * 4) by lia.
  rewrite Z.div_add by lia. change (3 / 4) with 0. lia.
Qed.

Lemma aligned_size_range s : 0 <= zone.aligned_size s < size_mod.
Proof.
  rewrite aligned_size_eq. pose proof (size_t_range (s + 3)) as H.
  assert (0 <= size_t (s + 3) / 4) by (apply Z.div_pos; lia).
  pose proof (Z.mul_div_le (size_t (s + 3)) 4). lia.
Qed.

(** ** Alignment *)

Lemma allocate_no_align_aligned size z w x z' w' :
  heap_ok w -> zone.m_ptr z mod 4 = 0 -> size mod 4 = 0 ->
  zone.allocate_no_align size z w = Some (x, z', w') ->
  x mod 4 = 0 /\ zone.m_ptr z' mod 4 = 0.
Proof.
  intros Hw Hp Hs. unfold zone.allocate_no_align.
  destruct (zone.m_free z <? size).
  - intros Hex.
    destruct (allocate_expand_cases _ _ _ _ _ _ Hw Hex)
      as (sz & _ & _ & _ & _ & _ & [(-> & -> & _)|(-> & _ & -> & _)]).
    + done.
    + pose proof (brk_aligned _ Hw) as Hb. unfold zone.m_ptr. simpl. plat.
      split; Z.div_mod_to_equations; lia.
  - intros [= <- <- <-]. split; [done|]. unfold zone.m_ptr in *. simpl.
    Z.div_mod_to_equations. lia.
Qed.

(** The bump pointer of an arena stays on a multiple of the alignment, and
    its first chunk is at a multiple of 16. *)
Lemma reachable_aligned cs c0 z w :
  reachable keeps_alignment cs c0 z w ->
  zone.m_ptr z mod 4 = 0 /\ c0 mod 16 = 0.
Proof.
  induction 1 as [w0 z w Hw Hc Hh|o z w z' w' Hr [IH1 IH2] Hk Hs].
  - destruct (ctor_ok _ _ _ _ Hw Hc) as (_ & -> & _ & Hhd & _).
    rewrite Hhd in Hh. simpl in Hh. subst c0. rewrite Hhd. simpl.
    pose proof (brk_aligned _ Hw). plat. split; Z.div_mod_to_equations; lia.
  - split; [|done].
    destruct (reachable_ok _ _ _ _ _ Hr) as [l Hz].
    pose proof (zo_heap _ _ _ _ _ Hz) as Hw.
    destruct o as [size|size|func data|dtor p|sT d ctor|]; cbn [step keeps_alignment] in Hs, Hk.
    + destruct (zone.allocate_align size z w) as [[[x z1] w1]|] eqn:E; [|done].
      injection Hs as <- <-.
      by destruct (allocate_no_align_aligned _ _ _ _ _ _ Hw IH1
                     (aligned_size_multiple size) E).
    + destruct (zone.allocate_no_align size z w) as [[[x z1] w1]|] eqn:E; [|done].
      injection Hs as <- <-.
      by destruct (allocate_no_align_aligned _ _ _ _ _ _ Hw IH1 Hk E).
    + unfold zone.push_finalizer in Hs.
      destruct (finalizer_array.push _ _ w) as [[r fa] w1].
      by injection Hs as <- <-.
    + unfold zone.push_finalizer_unique in Hs.
      destruct (finalizer_array.push _ _ w) as [[[[]|e] fa] w1];
        by injection Hs as <- <-.
    + destruct (zone.allocate sT d ctor z w) as [[[r z1] w1]|] eqn:E; [|done].
      injection Hs as <- <-.
      destruct (allocate_stages _ _ _ _ _ _ _ _ E)
        as (x & z2 & w2 & rp & fa2 & Hal & _ & Hres).
      destruct (allocate_no_align_aligned _ _ _ _ _ _ Hw IH1
                  (aligned_size_multiple sT) Hal) as [_ Hp2].
      assert (r = Normal x /\ z1 = zone.with_finalizer_array fa2 z2 \/
              exists fa3, (exists e, r = Raise e) /\
                z1 = zone.undo_allocate sT (zone.with_finalizer_array fa3 z2))
        as [[_ ->]|(fa3 & [e ->] & ->)].
      { destruct rp as [[]|e].
        - destruct (ctor x); destruct Hres as [-> ->]; eauto.
        - destruct Hres as [-> ->]. eauto. }
      * done.
      * destruct Hk as [Hk|(y & ? & ? & Hy)]; [|done].
        clear Hres. unfold zone.m_ptr in *. simpl. unfold zone.m_ptr. simpl.
        plat. Z.div_mod_to_equations. lia.
    + destruct (clear_ok _ _ _ _ _ Hz) as (z1 & w1 & Hc & _ & _ & _ & _ & _ & _ & _ & Hp & _).
      rewrite Hs in Hc. injection Hc as <- <-. rewrite Hp. plat.
      Z.div_mod_to_equations. lia.
Qed.

(** ** The doubling loop of [allocate_expand] *)

(** With a chunk size of at least one byte and a request of at most 2^63
    bytes the loop leaves with the first [sz * 2^k] that reaches the
    request, whatever fuel at least [k] it is given: no doubling wraps. *)
Lemma grow_doubles size n : forall sz,
  0 < sz -> size <= 2 ^ 63 -> size <= sz * 2 ^ Z.of_nat n ->
  exists k, 0 <= k <= Z.of_nat n /\
    zone.grow n sz size = Some (sz * 2 ^ k) /\ size <= sz * 2 ^ k /\
    (forall j, 0 <= j < k -> sz * 2 ^ j < size).
Proof.
  induction n as [|n IH]; intros sz Hsz Hsize Hn.
  - exists 0. change (2 ^ Z.of_nat 0) with 1 in Hn. change (2 ^ 0) with 1.
    rewrite Z.mul_1_r in *. cbn [zone.grow].
    destruct (sz <? size) eqn:E; [apply Z.ltb_lt in E; lia|].
    split_and!; try done; lia.
  - cbn [zone.grow]. destruct (sz <? size) eqn:E.
    + apply Z.ltb_lt in E.
      rewrite size_t_small by (plat; lia).
      destruct (IH (sz * 2)) as (k & Hk & Hg & Hle & Hmin); [lia|done| |].
      { rewrite Nat2Z.inj_succ, Z.pow_succ_r in Hn by lia. lia. }
      exists (Z.succ k). rewrite Z.pow_succ_r by lia.
      replace (sz * (2 * 2 ^ k)) with (sz * 2 * 2 ^ k) by lia.
      split_and!; try done; try lia.
      intros j Hj. destruct (decide (j = 0)) as [->|Hne].
      * rewrite Z.mul_1_r. lia.
      * specialize (Hmin (Z.pred j)).
        replace j with (Z.succ (Z.pred j)) by lia.
        rewrite Z.pow_succ_r by lia.
        replace (sz * (2 * 2 ^ Z.pred j)) with (sz * 2 * 2 ^ Z.pred j) by lia.
        apply Hmin. lia.
    + apply Z.ltb_ge in E. exists 0. change (2 ^ 0) with 1.
      rewrite Z.mul_1_r. split_and!; try done; lia.
Qed.

(** With a chunk size of zero the loop never leaves. *)
Lemma grow_zero_never_ends size n : 0 < size -> zone.grow n 0 size = None.
Proof.
  intros Hs. induction n as [|n IH]; simpl.
  - destruct (0 <? size) eqn:E; [done|lia].
  - destruct (0 <? size) eqn:E; [|lia]. exact IH.
Qed.

(** The loop, value by value: it fails to leave within [n] rounds exactly
    when each of the first [n] doublings is short of the request. *)
Lemma grow_None size n : forall sz,
  0 <= sz < size_mod ->
  (zone.grow n sz size = None <->
   forall k, (k <= n)%nat -> size_t (sz * 2 ^ Z.of_nat k) < size).
Proof.
  induction n as [|n IH]; intros sz Hsz; cbn [zone.grow].
  - destruct (sz <? size) eqn:E.
    + apply Z.ltb_lt in E. split; [|done]. intros _ k Hk.
      assert (k = 0%nat) as -> by lia. simpl. rewrite Z.mul_1_r, size_t_small; lia.
    + apply Z.ltb_ge in E. split; [done|]. intros H. specialize (H 0%nat).
      simpl in H. rewrite Z.mul_1_r, size_t_small in H; lia.
  - destruct (sz <? size) eqn:E.
    + apply Z.ltb_lt in E. rewrite IH by apply size_t_range.
      assert (forall k, size_t (size_t (sz * 2) * 2 ^ Z.of_nat k)
                        = size_t (sz * 2 ^ Z.of_nat (S k))) as Hstep.
      { intros k. unfold size_t. rewrite Z.mul_mod_idemp_l by (plat; lia).
        f_equal. rewrite Nat2Z.inj_succ, Z.pow_succ_r by lia. lia. }
      split.
      * intros H k Hk. destruct k as [|k].
        -- simpl. rewrite Z.mul_1_r, size_t_small; lia.
        -- rewrite <- Hstep. apply H. lia.
      * intros H k Hk. rewrite Hstep. apply H. lia.
    + apply Z.ltb_ge in E. split; [done|]. intros H. specialize (H 0%nat).
      simpl in H. rewrite Z.mul_1_r, size_t_small in H; lia.
Qed.

(** [grow_fuel] rounds decide the loop: when it has not left by then, it
    never does. *)
Lemma grow_fuel_enough sz size :
  0 <= sz < size_mod ->
  zone.grow zone.grow_fuel sz size = None ->
  forall n, zone.grow n sz size = None.
Proof.
  intros Hsz H n. apply grow_None; [done|]. intros k Hk.
  pose proof (proj1 (grow_None size zone.grow_fuel sz Hsz) H) as Hall.
  destruct (decide (k <= zone.grow_fuel)%nat) as [Hle|Hgt]; [by apply Hall|].
  unfold zone.grow_fuel in *.
  assert (size_t (sz * 2 ^ Z.of_nat k) = 0) as ->.
  { unfold size_t, size_mod.
    replace (Z.of_nat k) with (64 + (Z.of_nat k - 64)) by lia.
    rewrite Z.pow_add_r by lia.
    replace (sz * (2 ^ 64 * 2 ^ (Z.of_nat k - 64)))
      with (sz * 2 ^ (Z.of_nat k - 64) * 2 ^ 64) by lia.
    by apply Z.mod_mul. }
  specialize (Hall 64%nat). 
  assert (size_t (sz * 2 ^ Z.of_nat 64) = 0) as Hz.
  { unfold size_t, size_mod. change (Z.of_nat 64) with 64. by apply Z.mod_mul. }
  rewrite Hz in Hall. apply Hall. lia.
Qed.

(** ** The bump allocator *)

Lemma aligned_size_fits s :
  fits s -> s <= zone.aligned_size s <= PTRDIFF_MAX - sizeof_chunk.
Proof.
  unfold fits. intros Hs. rewrite aligned_size_eq.
  rewrite size_t_small by (plat; lia). plat.
  Z.div_mod_to_equations. lia.
Qed.

Lemma ctor_bump_ok cs w0 z w :
  heap_ok w0 -> 0 <= cs <= PTRDIFF_MAX - sizeof_chunk ->
  zone.ctor cs w0 = zone.Built z w -> bump_ok w z.
Proof.
  intros Hw Hcs Hc.
  destruct (ctor_spec cs w0 Hw) as [(_ & w1 & Hc' & _)|(G & w1 & Hc' & _ & Hb & _)];
    rewrite Hc in Hc'; [done|]. injection Hc' as -> ->.
  exists (sizeof_chunk + cs). unfold zone.m_ptr, zone.m_free. simpl.
  rewrite Hb, lookup_insert_eq, size_t_small by (plat; lia).
  split_and!; try done; plat; lia.
Qed.

Lemma allocate_no_align_bump_ok size z w x z' w' cs c0 l :
  zone_ok w z cs c0 l -> bump_ok w z ->
  0 <= cs <= PTRDIFF_MAX - sizeof_chunk ->
  0 <= size <= PTRDIFF_MAX - sizeof_chunk ->
  zone.allocate_no_align size z w = Some (x, z', w') ->
  bump_ok w' z' /\
  (x = 0 /\ z' = z \/
   zone.m_ptr z' = x + size /\
   c_addr (zone.m_head z') + sizeof_chunk <= x /\
   zone.m_free z' + size <= PTRDIFF_MAX).
Proof.
  intros Hz (n & Hn & Hnb & Hp & Hf) Hcs Hsize.
  pose proof (zo_heap _ _ _ _ _ Hz) as Hw.
  unfold zone.allocate_no_align. destruct (zone.m_free z <? size) eqn:E.
  - apply Z.ltb_lt in E. intros Hex.
    destruct (allocate_expand_cases _ _ _ _ _ _ Hw Hex)
      as (sz & Hg & _ & _ & _ & _ &
          [(-> & -> & Hb & _)|(-> & G & -> & Hb & _)]).
    + split; [|by left]. exists n. by rewrite Hb.
    + rewrite (zo_size _ _ _ _ _ Hz) in Hg.
      assert (0 < cs) as Hpos.
      { destruct (decide (cs = 0)) as [->|]; [|lia].
        rewrite grow_zero_never_ends in Hg; [done|lia]. }
      destruct (grow_doubles size zone.grow_fuel cs) as (k & Hk & Hg' & Hle & Hmin).
      { lia. } { plat. lia. }
      { unfold zone.grow_fuel. change (2 ^ Z.of_nat 65) with (2 ^ 65). plat.
        assert (1 * 2 ^ 65 <= cs * 2 ^ 65) by (apply Z.mul_le_mono_nonneg_r; lia).
        lia. }
      rewrite Hg in Hg'. injection Hg' as ->.
      assert (cs * 2 ^ k < 2 * size \/ k = 0) as Hsz.
      { destruct (decide (k = 0)) as [->|Hne]; [by right|left].
        specialize (Hmin (Z.pred k)).
        replace k with (Z.succ (Z.pred k)) at 1 by lia.
        rewrite Z.pow_succ_r by lia.
        assert (cs * 2 ^ Z.pred k < size) by (apply Hmin; lia). lia. }
      assert (0 <= sizeof_chunk + cs * 2 ^ k < size_mod) as Hnowrap.
      { destruct Hsz as [Hsz| ->]; [plat; lia|]. change (2 ^ 0) with 1. plat. lia. }
      rewrite (size_t_small _ Hnowrap) in *.
      apply grants_bound in G.
      zsimpl.
      rewrite (size_t_small (cs * 2 ^ k - size)) by (plat; lia).
      split; [|right; plat; lia].
      exists (sizeof_chunk + cs * 2 ^ k). zsimpl.
      rewrite Hb, lookup_insert_eq. split_and!; try done; plat; lia.
  - apply Z.ltb_ge in E. intros [= <- <- <-].
    zsimpl.
    rewrite size_t_small by (plat; lia).
    split; [|right; plat; lia].
    exists n. zsimpl. split_and!; try done; lia.
Qed.

(** A registration moves neither the head chunk nor its block. *)
Lemma push_bump_ok f z w r fa' w' cs c0 l fa'' :
  zone_ok w z cs c0 l -> bump_ok w z ->
  finalizer_array.push f (zone.m_finalizer_array z) w = (r, fa', w') ->
  bump_ok w' (zone.with_finalizer_array fa'' z).
Proof.
  intros Hz (n & Hn & Hrest) Hp.
  pose proof Hz as [Hw _ [cap Hr] _ _ _ _ Hap].
  destruct (push_registered _ _ _ _ _ _ _ _ Hw Hr Hp) as (_ & _ & _ & _ & Hfr & _).
  exists n. split; [|done]. apply Hfr; [|done].
  intros Heq. apply Hap. rewrite <- Heq.
  unfold zone.m_head. simpl. destruct (chunk_list.m_head _); simpl; left.
Qed.

(** Every operation on sizes that fit keeps the invariant of the bump
    allocator, except a typed allocation whose request for storage returns
    the null pointer. *)
Lemma step_bump_ok o z w z' w' cs c0 l :
  zone_ok w z cs c0 l -> bump_ok w z ->
  0 <= cs <= PTRDIFF_MAX - sizeof_chunk ->
  sizes_fit o -> ~ storage_refused o z w ->
  step o z w = Some (z', w') ->
  bump_ok w' z'.
Proof.
  intros Hz Hb Hcs Hfit Hnot.
  destruct o as [size|size|func data|dtor p|sT d ctor|];
    cbn [step sizes_fit storage_refused] in *.
  - pose proof (aligned_size_fits _ Hfit) as Has.
    destruct (zone.allocate_align size z w) as [[[x z1] w1]|] eqn:E; [|done].
    intros [= <- <-].
    eapply allocate_no_align_bump_ok; [exact Hz|exact Hb|done| |exact E].
    unfold fits in Hfit. lia.
  - destruct (zone.allocate_no_align size z w) as [[[x z1] w1]|] eqn:E; [|done].
    intros [= <- <-].
    eapply allocate_no_align_bump_ok; [exact Hz|exact Hb|done| |exact E].
    unfold fits in Hfit. plat. lia.
  - unfold zone.push_finalizer.
    destruct (finalizer_array.push _ _ w) as [[r fa] w1] eqn:E.
    intros [= <- <-]. by eapply push_bump_ok.
  - unfold zone.push_finalizer_unique.
    destruct (finalizer_array.push _ _ w) as [[r fa] w1] eqn:E.
    assert (bump_ok w1 (zone.with_finalizer_array fa z)) as Hb1
      by (by eapply push_bump_ok).
    destruct r as [[]|e]; intros [= <- <-]; [done|].
    unfold zone.unique_ptr_dtor. by destruct (p =? 0).
  - pose proof (aligned_size_fits _ Hfit) as Has.
    destruct (zone.allocate sT d ctor z w) as [[[r z1] w1]|] eqn:E; [|done].
    intros [= <- <-].
    destruct (allocate_stages _ _ _ _ _ _ _ _ E)
      as (x & z2 & w2 & rp & fa2 & Hal & Hp & Hres).
    destruct (allocate_no_align_ok _ _ _ _ _ _ _ _ _ Hz Hal) as (Hz2 & _).
    assert (0 <= zone.aligned_size sT <= PTRDIFF_MAX - sizeof_chunk) as Has'
      by (unfold fits in Hfit; lia).
    destruct (allocate_no_align_bump_ok _ _ _ _ _ _ _ _ _ Hz Hb Hcs Has' Hal)
      as (Hb2 & [(-> & ->)|(Hptr & Hlo & Hfr)]).
    { exfalso. apply Hnot. by exists z, w2. }
    assert (forall fa, bump_ok w1 (zone.with_finalizer_array fa z2)) as Hb3
      by (intros fa; by eapply push_bump_ok).
    assert (forall fa,
               bump_ok w1 (zone.undo_allocate sT (zone.with_finalizer_array fa z2)))
      as Hundo.
    { intros fa. destruct (Hb3 fa) as (n & Hn & Hnb & Hpp & Hff).
      exists n. zsimpl. unfold fits in Hfit.
      rewrite size_t_small by (plat; lia).
      split_and!; try done; lia. }
    destruct rp as [[]|e].
    + destruct (ctor x); destruct Hres as [-> ->]; [apply Hundo|apply Hb3].
    + destruct Hres as [-> ->]. apply Hundo.
  - intros Hc.
    destruct (clear_ok _ _ _ _ _ Hz)
      as (z1 & w1 & Hc' & Hz1 & _ & _ & _ & _ & _ & Hh & Hp & Hf & _).
    rewrite Hc in Hc'. injection Hc' as <- <-.
    exists (sizeof_chunk + cs). rewrite Hh, Hp, Hf. simpl.
    rewrite (zo_first_size _ _ _ _ _ Hz1), size_t_small by (plat; lia).
    split_and!; try done; plat; lia.
Qed.

(** ** Accounting of the finalizers *)

(** One operation: what it invokes and what it leaves registered is, up to
    order, what was registered before and what it registers. *)
Lemma step_accounting o z w z' w' cs c0 l :
  zone_ok w z cs c0 l -> step o z w = Some (z', w') ->
  exists l' called,
    zone_ok w' z' cs c0 l' /\ invoked w' = invoked w ++ called /\
    called ++ l' ≡ₚ l ++ registers o z w.
Proof.
  intros Hz. destruct o as [size|size|func data|dtor p|sT d ctor|];
    cbn [step registers].
  - destruct (zone.allocate_align size z w) as [[[x z1] w1]|] eqn:E; [|done].
    intros [= <- <-]. exists l, [].
    destruct (allocate_no_align_ok _ _ _ _ _ _ _ _ _ Hz E) as (? & -> & _).
    by rewrite !app_nil_r.
  - destruct (zone.allocate_no_align size z w) as [[[x z1] w1]|] eqn:E; [|done].
    intros [= <- <-]. exists l, [].
    destruct (allocate_no_align_ok _ _ _ _ _ _ _ _ _ Hz E) as (? & -> & _).
    by rewrite !app_nil_r.
  - unfold zone.push_finalizer.
    destruct (finalizer_array.push _ _ w) as [[r fa] w1] eqn:E.
    intros [= <- <-].
    destruct (push_zone_ok _ _ _ _ _ _ _ _ _ Hz E)
      as (-> & _ & [(-> & Hz1 & _)|(-> & -> & Hz1 & _)]).
    + eexists _, []. by rewrite app_nil_r.
    + exists l, []. rewrite !app_nil_r. split; [by eapply zone_ok_bump|done].
  - unfold zone.push_finalizer_unique.
    destruct (finalizer_array.push _ _ w) as [[r fa] w1] eqn:E.
    destruct (push_zone_ok _ _ _ _ _ _ _ _ _ Hz E)
      as (Hi & _ & [(-> & Hz1 & _)|(-> & -> & Hz1 & _)]); intros [= <- <-].
    + eexists _, []. rewrite app_nil_r. split_and!; [exact Hz1| |done].
      exact Hi.
    + exists l, []. rewrite !app_nil_r.
      assert (zone_ok w1 (zone.with_finalizer_array (zone.m_finalizer_array z) z)
                cs c0 l) as Hz2 by (by eapply zone_ok_bump).
      unfold zone.unique_ptr_dtor. destruct (p =? 0); [done|].
      split_and!; [|exact Hi|done].
      destruct Hz2 as [Hw ? [cap Hr] ? ? ? ? ?]. split; try done.
      * by destruct Hw.
      * exists cap. by eapply reg_ok_frame.
  - destruct (zone.allocate sT d ctor z w) as [[[r z1] w1]|] eqn:E; [|done].
    intros [= <- <-].
    destruct (allocate_ok _ _ _ _ _ _ _ _ _ _ _ Hz E)
      as (-> & _ & [(x & -> & _ & Hz1)|(e & -> & Hz1)]).
    + eexists _, []. by rewrite app_nil_r.
    + exists l, []. by rewrite !app_nil_r.
  - intros Hc.
    destruct (clear_ok _ _ _ _ _ Hz) as (z1 & w1 & Hc' & Hz1 & Hi & _).
    rewrite Hc in Hc'. injection Hc' as <- <-.
    exists [], (rev l). rewrite !app_nil_r. split_and!; try done.
    symmetry. apply Permutation_rev.
Qed.

(** Any sequence of operations: every finalizer registered before or during
    it has been invoked once or is still registered, and nothing else was
    invoked. *)
Lemma runs_accounting z w regs z' w' :
  runs z w regs z' w' ->
  forall cs c0 l,
    zone_ok w z cs c0 l ->
    exists l' called,
      zone_ok w' z' cs c0 l' /\ invoked w' = invoked w ++ called /\
      called ++ l' ≡ₚ l ++ regs.
Proof.
  induction 1 as [z w|o z w z1 w1 regs z' w' Hs _ IH]; intros cs c0 l Hz.
  - exists l, []. by rewrite !app_nil_r.
  - destruct (step_accounting _ _ _ _ _ _ _ _ Hz Hs) as (l1 & c1 & Hz1 & Hi1 & Hp1).
    destruct (IH _ _ _ Hz1) as (l2 & c2 & Hz2 & Hi2 & Hp2).
    exists l2, (c1 ++ c2). split_and!; try done.
    + by rewrite Hi2, Hi1, app_assoc.
    + rewrite <- app_assoc, Hp2, !app_assoc, Hp1. done.
Qed.

(** The invariant of the bump allocator holds in every state that these
    operations reach. *)
Lemma reachable_bump_ok cs c0 z w :
  0 <= cs <= PTRDIFF_MAX - sizeof_chunk ->
  reachable sound_op cs c0 z w -> bump_ok w z.
Proof.
  intros Hcs. induction 1 as [w0 z w Hw Hc Hh|o z w z' w' Hr IH [Hfit Hnot] Hs].
  - by eapply ctor_bump_ok.
  - destruct (reachable_ok _ _ _ _ _ Hr) as [l Hz].
    by eapply step_bump_ok.
Qed.

(** ** [swap] and a worked scenario *)

(** [x.swap(y)] on an arena [x] holding [l]: the states are exchanged, and
    the destructor of the temporary has invoked the finalizers of [x] and
    freed its chunks. *)
Lemma swap_runs_destructor x y w cs c0 l :
  zone_ok w x cs c0 l ->
  exists w',
    zone.swap x y w = Some (y, x, w') /\
    invoked w' = invoked w ++ rev l /\
    (forall a, a ∈ chain (zone.m_head x) -> blocks w' !! a = None).
Proof.
  intros Hz. unfold zone.swap.
  destruct (dtor_ok _ _ _ _ _ Hz) as (w' & -> & _ & Hi & _ & _ & Hch & _).
  by exists w'.
Qed.

(** An arena with chunk size 64: 40 bytes are allocated (24 are left); 40
    more do not fit and are served from a new chunk; after [clear()], 60
    bytes are served from the first chunk without a call to the system
    allocator. *)
Example scenario_64_40_40_clear_60 :
  exists z1 w1 z2 w2 z3 w3 z4 w4,
    zone.allocate_no_align 40 demo_zone demo_world = Some (24, z1, w1) /\
    zone.m_free z1 = 24 /\
    zone.allocate_no_align 40 z1 w1 = Some (104, z2, w2) /\
    zone.m_head z2 = Link 96 (Last 16) /\ zone.m_free z2 = 24 /\
    zone.clear z2 w2 = Some (z3, w3) /\
    zone.m_head z3 = Last 16 /\ zone.m_free z3 = 64 /\
    zone.allocate_no_align 60 z3 w3 = Some (24, z4, w4) /\
    syslog w4 = [Malloc 72 16; Malloc 72 96; Free 96].
Proof. do 8 eexists. split_and!; reflexivity. Qed.


(** A type of one byte whose constructor throws: [allocate_align] reserved
    4 bytes, [undo_allocate(sizeof(T))] gives back 1; the bump pointer ends
    at 27 and 61 bytes are free, not 24 and 64 as before the call. *)
Example padding_is_not_given_back :
  exists z' w',
    zone.allocate 1 101 (throws 7) demo_zone demo_world
    = Some (Raise (thrown 7), z', w') /\
    zone.m_ptr demo_zone = 24 /\ zone.m_free demo_zone = 64 /\
    zone.m_ptr z' = 27 /\ zone.m_free z' = 61.
Proof. do 2 eexists. split_and!; reflexivity. Qed.

(** A typed allocation whose growth chunk is refused, the registry having
    room: [allocate_align] returns the null pointer, which is neither
    tested nor reported; a finalizer for the null pointer is registered and
    the call returns it as the address of the object; [clear()] later calls
    the destructor on it. *)
Example null_storage_is_not_reported :
  exists z w z' w' z'' w'',
    zone.allocate_no_align 60 demo_zone (demo_world_then [false])
    = Some (24, z, w) /\
    zone.allocate_align 16 z w = Some (0, z, snd (malloc 72 w)) /\
    zone.allocate 16 101 completes z w = Some (Normal 0, z', w') /\
    registered w' (zone.m_finalizer_array z') [Finalizer 101 0] /\
    zone.clear z' w' = Some (z'', w'') /\
    invoked w'' = [Finalizer 101 0].
Proof.
  do 6 eexists. split; [reflexivity|]. split; [reflexivity|].
  split; [reflexivity|]. split; [|split; reflexivity].
  exists 4. split; try reflexivity.
  - vm_compute. discriminate.
  - vm_compute. discriminate.
  - intros [|i] f; [|by destruct i]. by intros [= <-].
Qed.
(** * Properties of the arena *)

Lemma demo_ctor : zone.ctor 64 (boot []) = zone.Built demo_zone demo_world.
Proof. reflexivity. Qed.

Lemma demo_ok : zone_ok demo_world demo_zone 64 16 [].
Proof. exact (proj1 (ctor_ok 64 (boot []) _ _ (boot_ok []) demo_ctor)). Qed.

(** C1.  On an arena holding the finalizers [l], after the typed allocations
    of A, B and C have returned the objects [a], [b] and [c], [clear()]
    returns and has invoked the destructor of C, then B's, then A's, each
    once, followed by the older finalizers, newest first; so does destroying
    the arena instead.  After the [clear()] the registry is empty: a second
    [clear()] or the destruction of the arena invokes nothing, and whatever
    any later sequence of operations invokes is a finalizer that this
    sequence itself has registered. *)
Theorem C1_finalizers_once_in_reverse_order
    w z cs c0 l sA dA kA sB dB kB sC dC kC a b c z1 w1 z2 w2 z3 w3 :
  zone_ok w z cs c0 l ->
  zone.allocate sA dA kA z w = Some (Normal a, z1, w1) ->
  zone.allocate sB dB kB z1 w1 = Some (Normal b, z2, w2) ->
  zone.allocate sC dC kC z2 w2 = Some (Normal c, z3, w3) ->
  (exists z4 w4,
      zone.clear z3 w3 = Some (z4, w4) /\
      invoked w4
      = invoked w ++ [Finalizer dC c; Finalizer dB b; Finalizer dA a] ++ rev l /\
      zone_ok w4 z4 cs c0 [] /\
      (exists z5 w5, zone.clear z4 w4 = Some (z5, w5) /\ invoked w5 = invoked w4) /\
      (exists w5, zone.dtor z4 w4 = Some w5 /\ invoked w5 = invoked w4) /\
      (forall regs z5 w5,
          runs z4 w4 regs z5 w5 ->
          exists l5 called,
            invoked w5 = invoked w4 ++ called /\ called ++ l5 ≡ₚ regs)) /\
  (exists w4,
      zone.dtor z3 w3 = Some w4 /\
      invoked w4
      = invoked w ++ [Finalizer dC c; Finalizer dB b; Finalizer dA a] ++ rev l).
Proof.
  intros Hz HA HB HC.
  destruct (allocate_ok _ _ _ _ _ _ _ _ _ _ _ Hz HA)
    as (Hi1 & _ & [(? & [= <-] & _ & Hz1)|(? & [=] & _)]).
  destruct (allocate_ok _ _ _ _ _ _ _ _ _ _ _ Hz1 HB)
    as (Hi2 & _ & [(? & [= <-] & _ & Hz2)|(? & [=] & _)]).
  destruct (allocate_ok _ _ _ _ _ _ _ _ _ _ _ Hz2 HC)
    as (Hi3 & _ & [(? & [= <-] & _ & Hz3)|(? & [=] & _)]).
  assert (rev (((l ++ [Finalizer dA a]) ++ [Finalizer dB b]) ++ [Finalizer dC c])
          = [Finalizer dC c; Finalizer dB b; Finalizer dA a] ++ rev l) as Hrev.
  { by rewrite !rev_app_distr. }
  split.
  - destruct (clear_ok _ _ _ _ _ Hz3) as (z4 & w4 & Hc & Hz4 & Hi4 & _).
    exists z4, w4. split_and!; try done.
    + by rewrite Hi4, Hi3, Hi2, Hi1, Hrev.
    + destruct (clear_ok _ _ _ _ _ Hz4) as (z5 & w5 & Hc5 & _ & Hi5 & _).
      exists z5, w5. split; [done|]. by rewrite Hi5, app_nil_r.
    + destruct (dtor_ok _ _ _ _ _ Hz4) as (w5 & Hd5 & _ & Hi5 & _).
      exists w5. split; [done|]. by rewrite Hi5, app_nil_r.
    + intros regs z5 w5 Hrun.
      destruct (runs_accounting _ _ _ _ _ Hrun _ _ _ Hz4)
        as (l5 & called & _ & Hi5 & Hperm).
      by exists l5, called.
  - destruct (dtor_ok _ _ _ _ _ Hz3) as (w4 & Hd & _ & Hi4 & _).
    exists w4. split; [done|]. by rewrite Hi4, Hi3, Hi2, Hi1, Hrev.
Qed.

Lemma C1_witness :
  exists a b c z1 w1 z2 w2 z3 w3,
    zone.allocate 8 101 completes demo_zone demo_world = Some (Normal a, z1, w1) /\
    zone.allocate 8 102 completes z1 w1 = Some (Normal b, z2, w2) /\
    zone.allocate 8 103 completes z2 w2 = Some (Normal c, z3, w3) /\
    exists z4 w4,
      zone.clear z3 w3 = Some (z4, w4) /\
      invoked w4 = [Finalizer 103 c; Finalizer 102 b; Finalizer 101 a].
Proof.
  do 9 eexists.
  split; [reflexivity|]. split; [reflexivity|]. split; [reflexivity|].
  edestruct (C1_finalizers_once_in_reverse_order
               demo_world demo_zone 64 16 [] 8 101 completes 8 102 completes
               8 103 completes)
    as [(z4 & w4 & Hc & Hi & _) _];
    [exact demo_ok | reflexivity | reflexivity | reflexivity |].
  exists z4, w4. split; [exact Hc | exact Hi].
Defined.

Lemma added_chunk_is_head w z cs c0 l sT x z1 w1 z' w2 :
  zone_ok w z cs c0 l ->
  zone.allocate_align sT z w = Some (x, z1, w1) ->
  x <> 0 ->
  zone_ok w2 z' cs c0 l ->
  zone.m_head z' = zone.m_head z1 ->
  (zone.m_free z <? zone.aligned_size sT) = true ->
  x = brk w + sizeof_chunk /\
  zone.m_head z' = Link (brk w) (zone.m_head z) /\
  blocks w !! brk w = None /\
  is_Some (blocks w2 !! brk w).
Proof.
  intros Hz Hal Hx Hz' Hhd E. pose proof (zo_heap _ _ _ _ _ Hz) as Hw.
  revert Hal. unfold zone.allocate_align, zone.allocate_no_align. rewrite E.
  intros Hex.
  destruct (allocate_expand_cases _ _ _ _ _ _ Hw Hex)
    as (sz & _ & _ & _ & _ & _ & [(-> & _)|(-> & _ & -> & _)]); [done|].
  assert (zone.m_head z' = Link (brk w) (zone.m_head z)) as Hhd' by (by rewrite Hhd).
  split_and!; try done.
  - destruct (blocks w !! brk w) as [s|] eqn:Hb; [|done].
    apply (blocks_below _ Hw) in Hb. lia.
  - apply (zo_live _ _ _ _ _ Hz'). rewrite Hhd'. cbn [chain]. apply elem_of_cons.
    by left.
Qed.

(** C2, a counterexample.  [zone z(64)], of which 60 bytes are in use, and
    a type of 16 bytes whose constructor throws: the request does not fit
    the 4 bytes left, a chunk of 64 bytes is added for it, and after the
    failure the bump pointer and the free counter are those of the new
    chunk (storage at 104, 64 bytes free), not the values before the call
    (84 and 4): a request of 4 bytes, served at 84 before the call, is
    served at 104 after it. *)
Lemma C2_counterexample :
  exists z w z' w' z1 w1 z1' w1',
    zone.allocate_no_align 60 demo_zone demo_world = Some (24, z, w) /\
    zone.allocate 16 101 (throws 7) z w = Some (Raise (thrown 7), z', w') /\
    zone.m_ptr z = 84 /\ zone.m_free z = 4 /\
    zone.m_ptr z' = 104 /\ zone.m_free z' = 64 /\
    zone.m_head z' = Link 96 (Last 16) /\
    zone.allocate_no_align 4 z w = Some (84, z1, w1) /\
    zone.allocate_no_align 4 z' w' = Some (104, z1', w1').
Proof. do 8 eexists. split_and!; reflexivity. Qed.

(** C2, as amended.  When the storage of the object was reserved at [x],
    its finalizer was registered and the constructor then throws [e]: the
    call propagates [e]; nothing was invoked; the registry holds the
    finalizers it held before the call and a following [clear()] invokes
    exactly those, newest first.  When moreover [sizeof(T)] is a multiple
    of the alignment, the bump pointer is back at [x] and the free counter
    is raised by the reserved size; and when the storage came from the head
    chunk, the chunk list is what it was before the call.  The head of the
    chunk list is the one the reservation left: when the reservation added
    a chunk, that chunk, whose storage begins at [x], stays linked as the
    head, in front of the chunks linked before the call, and its block
    stays allocated. *)
Theorem C2_constructor_failure_rolls_back
    w z cs c0 l sT d ctor x z1 w1 fa2 w2 e :
  zone_ok w z cs c0 l ->
  zone.allocate_align sT z w = Some (x, z1, w1) ->
  x <> 0 ->
  finalizer_array.push (Finalizer d x) (zone.m_finalizer_array z1) w1
  = (Normal tt, fa2, w2) ->
  ctor x = Some e ->
  exists z',
    zone.allocate sT d ctor z w = Some (Raise e, z', w2) /\
    invoked w2 = invoked w /\
    zone_ok w2 z' cs c0 l /\
    (exists z'' w'',
        zone.clear z' w2 = Some (z'', w'') /\
        invoked w'' = invoked w ++ rev l) /\
    ((0 <= sT < size_mod - 3) -> sT mod MSGPACK_ZONE_ALIGN = 0 ->
     zone.m_ptr z' = x /\
     zone.m_free z' = size_t (zone.m_free z1 + sT) /\
     ((zone.m_free z <? sT) = false -> (0 <= zone.m_free z < size_mod) ->
      zone.m_chunk_list z' = zone.m_chunk_list z)) /\
    zone.m_head z' = zone.m_head z1 /\
    ((zone.m_free z <? zone.aligned_size sT) = false ->
     zone.m_head z' = zone.m_head z) /\
    ((zone.m_free z <? zone.aligned_size sT) = true ->
     x = brk w + sizeof_chunk /\
     zone.m_head z' = Link (brk w) (zone.m_head z) /\
     blocks w !! brk w = None /\
     is_Some (blocks w2 !! brk w)).
Proof.
  intros Hz Hal Hx Hp Hc.
  destruct (allocate_no_align_ok _ _ _ _ _ _ _ _ _ Hz Hal) as (Hz1 & Hi1 & _ & _).
  destruct (push_zone_ok _ _ _ _ _ _ _ _ _ Hz1 Hp)
    as (Hi2 & _ & [(_ & _ & Hz2)|([=] & _)]).
  eexists. split.
  { unfold zone.allocate. by rewrite Hal, Hp, Hc. }
  assert (zone_ok w2
            (zone.undo_allocate sT
               (zone.with_finalizer_array (finalizer_array.pop_last fa2) z1))
            cs c0 l) as Hz' by (by eapply zone_ok_bump).
  split_and!; try done.
  - congruence.
  - destruct (clear_ok _ _ _ _ _ Hz') as (z'' & w'' & Hcl & _ & Hi & _).
    exists z'', w''. split; [done|]. rewrite Hi. congruence.
  - intros HsT Hmod. pose proof (aligned_size_id _ HsT Hmod) as Has.
    revert Hal. unfold zone.allocate_align, zone.allocate_no_align. rewrite Has.
    destruct (zone.m_free z <? sT) eqn:E.
    + intros Hex. pose proof (zo_heap _ _ _ _ _ Hz) as Hw.
      destruct (allocate_expand_cases _ _ _ _ _ _ Hw Hex)
        as (sz & _ & _ & _ & _ & _ & [(-> & _)|(-> & _ & -> & _)]); [done|].
      unfold zone.undo_allocate, zone.m_ptr, zone.m_free. simpl.
      split_and!; [clear; lia|done|done].
    + intros [= <- <- <-].
      unfold zone.undo_allocate, zone.m_ptr, zone.m_free. simpl.
      split_and!; [clear; lia|done|]. intros _ Hf. apply Z.ltb_ge in E.
      unfold zone.m_free, zone.m_head in *.
      destruct (zone.m_chunk_list z) as [fr pt hd]. simpl in *.
      rewrite (size_t_small (fr - sT)) by lia.
      replace (fr - sT + sT) with fr by lia.
      rewrite size_t_small by lia.
      by replace (pt + sT - sT) with pt by lia.
  - revert Hal. unfold zone.allocate_align, zone.allocate_no_align.
    intros Hal E. rewrite E in Hal. by injection Hal as <- <- <-.
  - intros E. eapply added_chunk_is_head; eauto.
Qed.

Lemma C2_witness :
  exists z' w',
    zone.allocate 8 101 (throws 7) demo_zone demo_world
    = Some (Raise (thrown 7), z', w') /\
    invoked w' = [] /\
    zone.m_chunk_list z' = zone.m_chunk_list demo_zone.
Proof.
  edestruct (C2_constructor_failure_rolls_back
               demo_world demo_zone 64 16 [] 8 101 (throws 7))
    as (z' & Ha & Hi & _ & _ & Hr & _);
    [exact demo_ok | reflexivity | discriminate | reflexivity | reflexivity |].
  eexists z', _. split; [exact Ha|]. split; [exact Hi|].
  apply Hr; [unfold size_mod; lia | reflexivity | reflexivity
            | change (0 <= 64 < 2 ^ 64); lia].
Defined.

Lemma demo_ctor_then o :
  zone.ctor 64 (boot (true :: o)) = zone.Built demo_zone (demo_world_then o).
Proof. reflexivity. Qed.

Lemma demo_ok_then o : zone_ok (demo_world_then o) demo_zone 64 16 [].
Proof.
  exact (proj1 (ctor_ok 64 (boot (true :: o)) _ _ (boot_ok _) (demo_ctor_then o))).
Qed.

(** C3, a counterexample.  [zone z(64)] with 60 bytes in use; the typed
    allocation of a 16-byte object needs a new chunk, which the allocator
    grants, and room in the registry, which it refuses.  [std::bad_alloc]
    reaches the caller, but the chunk list is not what it was before the
    call: the new chunk stays linked as the head, its block stays
    allocated, and a request of 4 bytes, served at 84 before the call, is
    served at 104 after it. *)
Lemma C3_counterexample :
  exists z w z' w' z1 w1 z1' w1',
    zone.allocate_no_align 60 demo_zone (demo_world_then [true; false])
    = Some (24, z, w) /\
    zone.allocate 16 101 completes z w = Some (Raise bad_alloc, z', w') /\
    zone.m_head z = Last 16 /\ zone.m_ptr z = 84 /\ zone.m_free z = 4 /\
    zone.m_head z' = Link 96 (Last 16) /\ zone.m_ptr z' = 104 /\
    zone.m_free z' = 64 /\
    zone.m_chunk_list z' <> zone.m_chunk_list z /\
    blocks w !! 96 = None /\ blocks w' !! 96 = Some 72 /\
    zone.allocate_no_align 4 z w = Some (84, z1, w1) /\
    zone.allocate_no_align 4 z' w' = Some (104, z1', w1').
Proof. do 8 eexists. split_and!; try reflexivity. discriminate. Qed.

(** C3, as amended.  A raw allocation for which the allocator refuses the
    growth chunk returns the null pointer from that very call, after this
    one request to the allocator, and leaves the arena and the heap as they
    were.  A typed allocation whose storage was reserved at [x] and for
    which the allocator refuses the growth of the registry propagates
    [std::bad_alloc] from that call; no finalizer was added (the registry
    and the memory it occupies are as before), nothing was invoked; when
    [sizeof(T)] is a multiple of the alignment the bump pointer is back at
    [x] and the free counter is raised by the reserved size, and the arena
    is what it was before the call when the storage came from the head
    chunk.  The head of the chunk list is the one the reservation left:
    when the reservation added a chunk, that chunk, whose storage begins
    at [x], stays linked as the head, in front of the chunks linked before
    the call, and its block stays allocated. *)
Theorem C3_allocation_failure_is_surfaced :
  (forall size z w sz,
      (zone.m_free z <? size) = true ->
      zone.grow zone.grow_fuel (zone.m_chunk_size z) size = Some sz ->
      grants (size_t (sizeof_chunk + sz)) w = false ->
      exists w',
        zone.allocate_no_align size z w = Some (0, z, w') /\
        blocks w' = blocks w /\ brk w' = brk w /\ fmem w' = fmem w /\
        invoked w' = invoked w /\ deleted w' = deleted w /\
        syslog w' = syslog w ++ [Malloc (size_t (sizeof_chunk + sz)) 0]) /\
  (forall w z cs c0 l sT d ctor x z1 w1 e fa2 w2,
      zone_ok w z cs c0 l ->
      zone.allocate_align sT z w = Some (x, z1, w1) ->
      x <> 0 ->
      finalizer_array.push (Finalizer d x) (zone.m_finalizer_array z1) w1
      = (Raise e, fa2, w2) ->
      exists z',
        zone.allocate sT d ctor z w = Some (Raise bad_alloc, z', w2) /\
        e = bad_alloc /\
        zone.m_finalizer_array z' = zone.m_finalizer_array z /\
        zone_ok w2 z' cs c0 l /\
        fmem w2 = fmem w /\ blocks w2 = blocks w1 /\ invoked w2 = invoked w /\
        ((0 <= sT < size_mod - 3) -> sT mod MSGPACK_ZONE_ALIGN = 0 ->
         zone.m_ptr z' = x /\
         ((zone.m_free z <? sT) = false -> (0 <= zone.m_free z < size_mod) ->
          z' = z)) /\
        zone.m_free z' = size_t (zone.m_free z1 + sT) /\
        zone.m_head z' = zone.m_head z1 /\
        ((zone.m_free z <? zone.aligned_size sT) = false ->
         zone.m_head z' = zone.m_head z) /\
        ((zone.m_free z <? zone.aligned_size sT) = true ->
         x = brk w + sizeof_chunk /\
         zone.m_head z' = Link (brk w) (zone.m_head z) /\
         blocks w !! brk w = None /\
         is_Some (blocks w2 !! brk w))).
Proof.
  split.
  - intros size z w sz Hf Hg G.
    unfold zone.allocate_no_align, zone.allocate_expand, malloc.
    rewrite Hf, Hg, G. simpl. eexists. split_and!; done.
  - intros w z cs c0 l sT d ctor x z1 w1 e fa2 w2 Hz Hal Hx Hp.
    destruct (allocate_no_align_ok _ _ _ _ _ _ _ _ _ Hz Hal)
      as (Hz1 & Hi1 & _ & Hfa1).
    destruct (push_zone_ok _ _ _ _ _ _ _ _ _ Hz1 Hp)
      as (Hi2 & _ & [([=] & _)|([= ->] & -> & Hz2 & Hm2 & Hb2)]).
    eexists. split.
    { unfold zone.allocate. by rewrite Hal, Hp. }
    assert (fmem w1 = fmem w) as Hm1.
    { revert Hal. unfold zone.allocate_align, zone.allocate_no_align.
      destruct (_ <? _); [|by intros [= <- <- <-]].
      intros Hex.
      destruct (allocate_expand_cases _ _ _ _ _ _ (zo_heap _ _ _ _ _ Hz) Hex)
        as (sz & _ & _ & Hm & _). done. }
    split_and!; try done.
    + by eapply zone_ok_bump.
    + congruence.
    + congruence.
    + intros HsT Hmod. pose proof (aligned_size_id _ HsT Hmod) as Has.
      revert Hal Hfa1. unfold zone.allocate_align, zone.allocate_no_align.
      rewrite Has. destruct (zone.m_free z <? sT) eqn:E.
      * intros Hex _. pose proof (zo_heap _ _ _ _ _ Hz) as Hw.
        destruct (allocate_expand_cases _ _ _ _ _ _ Hw Hex)
          as (sz & _ & _ & _ & _ & _ & [(-> & _)|(-> & _ & -> & _)]); [done|].
        unfold zone.undo_allocate, zone.m_ptr. simpl. split; [clear; lia|done].
      * intros [= <- <- <-] _.
        unfold zone.undo_allocate, zone.m_ptr. simpl.
        split; [clear; lia|]. intros _ Hf. apply Z.ltb_ge in E.
        unfold zone.m_free, zone.m_head in *.
        destruct z as [zs [fr pt hd] fa]. simpl in *.
        unfold zone.with_chunk_list, zone.with_finalizer_array. simpl.
        rewrite (size_t_small (fr - sT)) by lia.
        replace (fr - sT + sT) with fr by lia.
        rewrite size_t_small by lia.
        by replace (pt + sT - sT) with pt by lia.
    + revert Hal. unfold zone.allocate_align, zone.allocate_no_align.
      intros Hal E. rewrite E in Hal. by injection Hal as <- <- <-.
    + intros E. eapply added_chunk_is_head; eauto. by eapply zone_ok_bump.
Qed.

Lemma C3_witness :
  (exists w',
      zone.allocate_no_align 100 demo_zone (demo_world_then [false])
      = Some (0, demo_zone, w') /\
      blocks w' = blocks (demo_world_then [false])) /\
  (exists w',
      zone.allocate 8 101 completes demo_zone (demo_world_then [false])
      = Some (Raise bad_alloc, demo_zone, w')).
Proof.
  destruct C3_allocation_failure_is_surfaced as [Hraw Htyped]. split.
  - destruct (Hraw 100 demo_zone (demo_world_then [false]) 128)
      as (w' & Ha & Hb & _); [reflexivity..|].
    exists w'. split; [exact Ha | exact Hb].
  - edestruct (Htyped (demo_world_then [false]) demo_zone 64 16 [] 8 101 completes)
      as (z' & Ha & _ & _ & _ & _ & _ & _ & Hr & _);
      [exact (demo_ok_then [false]) | reflexivity | discriminate | reflexivity |].
    eexists. rewrite Ha. do 3 f_equal.
    apply Hr; [unfold size_mod; lia | reflexivity | reflexivity
              | change (0 <= 64 < 2 ^ 64); lia].
Defined.

(** C4, a counterexample.  On [zone z(64)], after [allocate_no_align(1)],
    [allocate_align(4)] returns the address 25, which is not a multiple of
    [MSGPACK_ZONE_ALIGN]: the size is rounded, the bump pointer is not. *)
Lemma C4_counterexample :
  exists z w z' w',
    zone.allocate_no_align 1 demo_zone demo_world = Some (24, z, w) /\
    zone.allocate_align 4 z w = Some (25, z', w') /\
    25 mod MSGPACK_ZONE_ALIGN = 1.
Proof. do 4 eexists. split_and!; reflexivity. Qed.

(** C4, as amended.  On an arena whose history, from its construction on,
    consists of aligned raw allocations, registrations of finalizers,
    [clear()], typed allocations that returned their object or were for a
    size that is a multiple of the alignment, and unaligned raw allocations
    of sizes that are such multiples, [allocate_align(size)] returns, for
    every [size], an address that is a multiple of [MSGPACK_ZONE_ALIGN]. *)
Theorem C4_allocate_align_is_aligned cs c0 z w size x z' w' :
  reachable keeps_alignment cs c0 z w ->
  zone.allocate_align size z w = Some (x, z', w') ->
  x mod MSGPACK_ZONE_ALIGN = 0.
Proof.
  intros Hr Hal.
  destruct (reachable_aligned _ _ _ _ Hr) as [Hp _].
  destruct (reachable_ok _ _ _ _ _ Hr) as [l Hz].
  by destruct (allocate_no_align_aligned _ _ _ _ _ _ (zo_heap _ _ _ _ _ Hz) Hp
                 (aligned_size_multiple size) Hal).
Qed.

Lemma C4_witness :
  exists z w z' w',
    zone.allocate_align 5 demo_zone demo_world = Some (24, z, w) /\
    zone.allocate_align 3 z w = Some (32, z', w') /\
    32 mod MSGPACK_ZONE_ALIGN = 0.
Proof.
  do 4 eexists. split; [reflexivity|]. split; [reflexivity|].
  eapply (C4_allocate_align_is_aligned 64 16 _ _ 3).
  - eapply (reach_step _ _ _ (AllocateAlign 5) demo_zone demo_world);
      [|exact I|reflexivity].
    eapply reach_ctor; [apply (boot_ok []) | exact demo_ctor | reflexivity].
  - reflexivity.
Defined.

(** C5, a counterexample.  On [zone z(64)] a request of 100 bytes exceeds
    the 64 free bytes; when the system allocator refuses the new block the
    call returns the null pointer and nothing is linked: the arena and the
    heap are as before.  (And where the loop that doubles the size has
    nothing to stop it, the request is never answered: on an arena whose
    chunk size is zero, and for a request above 2^63 bytes, for which the
    doubled size wraps around to zero.) *)
Lemma C5_counterexample :
  (exists w',
      zone.allocate_no_align 100 demo_zone (demo_world_then [false])
      = Some (0, demo_zone, w') /\
      blocks w' = blocks (demo_world_then [false])) /\
  (exists z w,
      zone.ctor 0 (boot []) = zone.Built z w /\
      zone.allocate_no_align 1 z w = None /\
      forall fuel, zone.grow fuel (zone.m_chunk_size z) 1 = None) /\
  (zone.allocate_no_align (2 ^ 63 + 1) demo_zone demo_world = None /\
   forall fuel, zone.grow fuel (zone.m_chunk_size demo_zone) (2 ^ 63 + 1) = None).
Proof.
  split_and!.
  - eexists. split; reflexivity.
  - do 2 eexists. split; [reflexivity|]. split; [reflexivity|].
    intros fuel. by apply grow_zero_never_ends.
  - reflexivity.
  - apply grow_fuel_enough; [by vm_compute|reflexivity].
Qed.

(** C5, as amended.  On an arena whose chunk size [cs] is at least one
    byte, for a request that exceeds the free bytes of the head chunk (and,
    like [cs], fits a block the allocator can grant): the size [sz] of the
    new chunk is [cs] doubled [k] times, where [k] is the least number of
    doublings that reaches the request.  When the system allocator grants
    the block of [sizeof(chunk) + sz] bytes, it becomes the head, its only
    link is the old head, the request is served from the start of its
    storage, its free counter is [sz - size], and the blocks of the older
    chunks and everything else in memory are what they were.  When the
    allocator refuses, the call returns the null pointer and the arena is
    unchanged. *)
Theorem C5_growth_doubles_chunk_size w z cs c0 l size :
  zone_ok w z cs c0 l ->
  0 < cs <= PTRDIFF_MAX - sizeof_chunk ->
  0 <= size <= PTRDIFF_MAX - sizeof_chunk ->
  zone.m_free z < size ->
  exists k sz,
    0 <= k /\ sz = cs * 2 ^ k /\ size <= sz /\
    (forall j, 0 <= j < k -> cs * 2 ^ j < size) /\
    if grants (sizeof_chunk + sz) w then
      exists w',
        zone.allocate_no_align size z w
        = Some (brk w + sizeof_chunk,
                zone.with_chunk_list
                  {| chunk_list.m_head := Link (brk w) (zone.m_head z);
                     chunk_list.m_free := sz - size;
                     chunk_list.m_ptr := brk w + sizeof_chunk + size |} z,
                w') /\
        blocks w !! brk w = None /\
        blocks w' = <[brk w := sizeof_chunk + sz]> (blocks w) /\
        (forall a, a ∈ chain (zone.m_head z) -> blocks w' !! a = blocks w !! a) /\
        fmem w' = fmem w /\ invoked w' = invoked w /\
        syslog w' = syslog w ++ [Malloc (sizeof_chunk + sz) (brk w)]
    else
      exists w',
        zone.allocate_no_align size z w = Some (0, z, w') /\
        blocks w' = blocks w /\
        syslog w' = syslog w ++ [Malloc (sizeof_chunk + sz) 0].
Proof.
  intros Hz Hcs Hsize Hfree.
  pose proof (zo_heap _ _ _ _ _ Hz) as Hw.
  pose proof (zo_size _ _ _ _ _ Hz) as Hzs.
  destruct (grow_doubles size zone.grow_fuel cs) as (k & Hk & Hg & Hle & Hmin).
  { lia. } { plat. lia. }
  { unfold zone.grow_fuel. change (2 ^ Z.of_nat 65) with (2 ^ 65).
    plat. assert (1 * 2 ^ 65 <= cs * 2 ^ 65) by (apply Z.mul_le_mono_nonneg_r; lia).
    lia. }
  exists k, (cs * 2 ^ k).
  assert (cs * 2 ^ k < 2 * size \/ k = 0) as Hsz.
  { destruct (decide (k = 0)) as [->|Hne]; [by right|left].
    specialize (Hmin (Z.pred k)).
    replace k with (Z.succ (Z.pred k)) at 1 by lia.
    rewrite Z.pow_succ_r by lia.
    assert (cs * 2 ^ Z.pred k < size) by (apply Hmin; lia). lia. }
  assert (0 <= sizeof_chunk + cs * 2 ^ k < size_mod) as Hnowrap.
  { destruct Hsz as [Hsz| ->]; [plat; lia|].
    change (2 ^ 0) with 1. plat. lia. }
  split_and!; try done; try lia.
  unfold zone.allocate_no_align, zone.allocate_expand.
  apply Z.ltb_lt in Hfree. rewrite Hfree, Hzs, Hg.
  rewrite (size_t_small _ Hnowrap).
  rewrite (size_t_small (cs * 2 ^ k - size)) by (plat; lia).
  unfold malloc. destruct (grants _ w) eqn:G.
  - pose proof (brk_pos _ Hw).
    destruct (brk w =? 0) eqn:E0; [lia|].
    eexists. split; [done|]. simpl.
    assert (blocks w !! brk w = None) as Hfresh.
    { destruct (blocks w !! brk w) as [s|] eqn:Es; [|done].
      apply (blocks_below _ Hw) in Es. lia. }
    split_and!; try done.
    intros a Ha. apply lookup_insert_ne. intros <-.
    destruct (zo_live _ _ _ _ _ Hz _ Ha) as [s Hs]. congruence.
  - simpl. eexists. split_and!; done.
Qed.

Lemma C5_witness :
  exists w',
    zone.allocate_no_align 100 demo_zone demo_world
    = Some (104,
            zone.with_chunk_list
              {| chunk_list.m_head := Link 96 (Last 16);
                 chunk_list.m_free := 28;
                 chunk_list.m_ptr := 204 |} demo_zone,
            w') /\
    blocks w' = <[96 := 136]> (blocks demo_world).
Proof.
  destruct (C5_growth_doubles_chunk_size demo_world demo_zone 64 16 [] 100)
    as (k & sz & Hk & Hsz & Hle & Hmin & H);
    [exact demo_ok | plat; lia | plat; lia | reflexivity |].
  assert (k = 1) as ->.
  { destruct (decide (k = 0)) as [->|Hne]; [simpl in Hsz; lia|].
    destruct (decide (k = 1)) as [->|Hne1]; [done|].
    specialize (Hmin 1). simpl in Hmin. lia. }
  simpl in Hsz. subst sz.
  change (grants (sizeof_chunk + 128) demo_world) with true in H.
  destruct H as (w' & Ha & _ & Hb & _).
  exists w'. split; [exact Ha | exact Hb].
Defined.

(** C6.  On every arena, in every state reached from its construction:
    [clear()] returns; it has freed, newest first, exactly the chunks that
    have a successor, which are no longer live blocks; the chunk without
    successor is the one obtained at construction, it is still the live
    block of [sizeof(chunk) + cs] bytes, it is the head and the only chunk,
    the bump pointer is at the start of its storage and the free counter is
    the configured chunk size [cs].  Consequently every request of at most
    [cs] bytes is then served from the start of that storage without a call
    to the system allocator. *)
Theorem C6_clear_keeps_the_first_chunk cs c0 z w :
  reachable any_op cs c0 z w ->
  exists z' w',
    zone.clear z w = Some (z', w') /\
    chain (zone.m_head z) = front (zone.m_head z) ++ [c0] /\
    syslog w' = syslog w ++ (Free <$> front (zone.m_head z)) /\
    (forall a, a ∈ front (zone.m_head z) ->
               is_Some (blocks w !! a) /\ blocks w' !! a = None) /\
    blocks w' !! c0 = Some (size_t (sizeof_chunk + cs)) /\
    zone.m_head z' = Last c0 /\
    zone.m_ptr z' = c0 + sizeof_chunk /\
    zone.m_free z' = cs /\
    zone.m_chunk_size z' = cs /\
    forall size, size <= cs ->
      exists z'',
        zone.allocate_no_align size z' w' = Some (c0 + sizeof_chunk, z'', w') /\
        zone.m_head z'' = Last c0.
Proof.
  intros Hr. destruct (reachable_ok _ _ _ _ _ Hr) as [l Hz].
  destruct (clear_ok _ _ _ _ _ Hz)
    as (z' & w' & Hc & Hz' & _ & _ & Hl & Hgone & Hkept & Hh & Hp & Hf & Hs & _).
  exists z', w'. split_and!; try done.
  - by rewrite chain_front, (zo_first _ _ _ _ _ Hz).
  - intros a Ha. split; [|by apply Hgone].
    apply (zo_live _ _ _ _ _ Hz). rewrite chain_front. apply elem_of_app. by left.
  - apply (zo_first_size _ _ _ _ _ Hz').
  - intros size Hsize. unfold zone.allocate_no_align.
    rewrite Hf. destruct (cs <? size) eqn:E; [lia|].
    eexists. rewrite Hp. split; [done|]. simpl. done.
Qed.

Lemma C6_witness :
  exists z w z' w',
    zone.allocate_no_align 100 demo_zone demo_world = Some (104, z, w) /\
    zone.clear z w = Some (z', w') /\
    syslog w' = syslog w ++ [Free 96] /\
    zone.m_head z' = Last 16 /\ zone.m_ptr z' = 24 /\ zone.m_free z' = 64.
Proof.
  do 2 eexists.
  edestruct (C6_clear_keeps_the_first_chunk 64 16)
    as (z' & w' & Hc & _ & Hl & _ & _ & Hh & Hp & Hf & _).
  { eapply (reach_step _ _ _ (AllocateNoAlign 100) demo_zone demo_world);
      [|exact I|reflexivity].
    eapply reach_ctor; [apply (boot_ok []) | exact demo_ctor | reflexivity]. }
  exists z', w'. split; [reflexivity|]. split; [exact Hc|].
  split; [exact Hl|]. split; [exact Hh|]. split; [exact Hp | exact Hf].
Defined.

(** C7.  [zone x(64)], on which [push_finalizer(1000, 2000)] was called,
    and [zone y(32)]: [x.swap(y)] leaves the state of [y] in [x] and the
    state of [x] in [y], but the temporary of [std::swap], a copy of [x],
    is destroyed on the way: the finalizer registered on [x] has been
    invoked by the swap, and the chunk and the registry storage that [y]
    now points to have been freed, while its registry still shows one
    registered entry (which a later [clear()] of [y] reads from that freed
    storage and invokes a second time). *)
Theorem C7_swap_destroys_the_temporary :
  exists x0 w0 x wx y wy w' y' w'',
    zone.ctor 64 (boot []) = zone.Built x0 w0 /\
    zone.push_finalizer 1000 2000 x0 w0 = (Normal tt, x, wx) /\
    zone.ctor 32 wx = zone.Built y wy /\
    invoked wy = [] /\
    zone.swap x y wy = Some (y, x, w') /\
    invoked w' = [Finalizer 1000 2000] /\
    syslog w' = syslog wy ++ [Free 96; Free 16] /\
    finalizer_array.m_array (zone.m_finalizer_array x) = 96 /\
    finalizer_array.m_tail (zone.m_finalizer_array x) = 112 /\
    zone.m_head x = Last 16 /\
    blocks wy !! 96 = Some 64 /\ blocks wy !! 16 = Some 72 /\
    blocks w' !! 96 = None /\ blocks w' !! 16 = None /\
    zone.clear x w' = Some (y', w'') /\
    invoked w'' = [Finalizer 1000 2000; Finalizer 1000 2000].
Proof. do 9 eexists. split_and!; reflexivity. Qed.

(** C8, a counterexample.  [zone::create(64)] on a machine with memory
    calls the system allocator twice: once for [sizeof(zone) + 64] bytes, in
    which the arena is constructed, and once more, from the constructor of
    the chunk list, for the first chunk; the storage of that chunk (from
    152 on) lies outside the first block (120 bytes from 16 on). *)
Lemma C8_counterexample :
  exists z w,
    zone.create 64 (boot []) = zone.Handle 16 z w /\
    syslog w = [Malloc 120 16; Malloc 72 144] /\
    blocks w !! 16 = Some 120 /\ blocks w !! 144 = Some 72 /\
    zone.m_head z = Last 144 /\ zone.m_ptr z = 152.
Proof. do 2 eexists. split_and!; reflexivity. Qed.

(** C8, as amended.  [create(chunk_size)] asks the system allocator for
    [sizeof(zone) + chunk_size] bytes.  When this is refused it returns the
    null pointer and nothing else happened.  When it is granted, the arena
    is constructed in that block, and its constructor asks the system
    allocator for a second block, of [sizeof(chunk) + chunk_size] bytes,
    for the first chunk; when this is granted too, [create] returns the
    first block as the handle of an arena with an empty registry and
    [chunk_size] free bytes in that chunk.  [destroy] on an arena holding
    the finalizers [l] invokes them, newest first, frees the registry
    storage, then every chunk, newest first, then the block of the arena
    itself; none of these blocks is live afterwards. *)
Theorem C8_create_and_destroy :
  (forall cs w,
      heap_ok w ->
      grants (size_t (sizeof_zone + cs)) w = false ->
      exists w',
        zone.create cs w = zone.Null w' /\ blocks w' = blocks w /\
        syslog w' = syslog w ++ [Malloc (size_t (sizeof_zone + cs)) 0]) /\
  (forall cs w,
      heap_ok w ->
      grants (size_t (sizeof_zone + cs)) w = true ->
      grants (size_t (sizeof_chunk + cs))
        (snd (malloc (size_t (sizeof_zone + cs)) w)) = true ->
      exists c w',
        zone.create cs w
        = zone.Handle (brk w)
            {| zone.m_chunk_size := cs;
               zone.m_chunk_list :=
                 {| chunk_list.m_free := cs;
                    chunk_list.m_ptr := c + sizeof_chunk;
                    chunk_list.m_head := Last c |};
               zone.m_finalizer_array := finalizer_array.init |} w' /\
        brk w < c /\
        syslog w' = syslog w ++ [Malloc (size_t (sizeof_zone + cs)) (brk w);
                                 Malloc (size_t (sizeof_chunk + cs)) c] /\
        blocks w' = <[c := size_t (sizeof_chunk + cs)]>
                      (<[brk w := size_t (sizeof_zone + cs)]> (blocks w)) /\
        invoked w' = invoked w) /\
  (forall p z w cs c0 l,
      zone_ok w z cs c0 l ->
      exists w',
        zone.destroy p z w = Some w' /\
        invoked w' = invoked w ++ rev l /\
        syslog w' = syslog w
                    ++ Free (finalizer_array.m_array (zone.m_finalizer_array z))
                       :: (Free <$> chain (zone.m_head z)) ++ [Free p] /\
        (forall a, a ∈ chain (zone.m_head z) -> blocks w' !! a = None) /\
        blocks w' !! finalizer_array.m_array (zone.m_finalizer_array z) = None /\
        blocks w' !! p = None).
Proof.
  split_and!.
  - intros cs w Hw G. unfold zone.create, malloc. rewrite G. simpl.
    eexists. split_and!; done.
  - intros cs w Hw G1 G2. unfold zone.create.
    destruct (malloc _ w) as [p w1] eqn:M. simpl in G2.
    pose proof M as M'.
    apply malloc_ok in M'; [|done|apply size_t_range].
    destruct M' as (Hw1 & _ & Hi1 & _ & _ & Hl1 & [(_ & G & _)|(-> & _ & Hb1 & Hk1)]);
      [congruence|].
    pose proof (brk_pos _ Hw). destruct (brk w =? 0) eqn:E0; [lia|].
    destruct (ctor_spec cs w1 Hw1)
      as [(G & _)|(_ & w2 & -> & _ & Hb2 & _ & Hi2 & _ & Hl2)]; [congruence|].
    exists (brk w1), w2. split_and!; try done.
    + by rewrite Hl2, Hl1, <- app_assoc.
    + by rewrite Hb2, Hb1.
    + congruence.
  - intros p z w cs c0 l Hz. unfold zone.destroy.
    destruct (dtor_ok _ _ _ _ _ Hz) as (w1 & -> & Hw1 & Hi & _ & Hl & Hch & Harr).
    destruct (free_frame p w1) as (_ & Hi2 & _ & _ & _ & Hl2).
    eexists. split; [done|]. split_and!.
    + by rewrite Hi2.
    + rewrite Hl2, Hl, <- app_assoc. done.
    + intros a Ha. rewrite free_blocks. case_decide; [done|]. by apply Hch.
    + rewrite free_blocks. by case_decide.
    + rewrite free_blocks. case_decide as D; [done|].
      destruct (decide (p = 0)) as [->|Hne]; [|exfalso; by apply D].
      destruct (blocks w1 !! 0) as [s|] eqn:E; [|done].
      apply (blocks_below _ Hw1) in E. lia.
Qed.

Lemma C8_witness :
  (exists w', zone.create 64 (boot [false]) = zone.Null w') /\
  (exists c z w', zone.create 64 (boot []) = zone.Handle 16 z w' /\
                  zone.m_head z = Last c /\ 16 < c) /\
  (exists w', zone.destroy 1600 demo_zone demo_world = Some w' /\
              blocks w' !! 16 = None).
Proof.
  destruct C8_create_and_destroy as (Hnull & Hmake & Hdestroy). split_and!.
  - destruct (Hnull 64 (boot [false])) as (w' & Hc & _);
      [apply boot_ok | reflexivity |].
    exists w'. exact Hc.
  - destruct (Hmake 64 (boot [])) as (c & w' & Hc & Hlt & _);
      [apply boot_ok | reflexivity | reflexivity |].
    exists c. do 2 eexists. split; [exact Hc|]. split; [reflexivity | exact Hlt].
  - destruct (Hdestroy 1600 demo_zone demo_world 64 16 [] demo_ok)
      as (w' & Hd & _ & _ & Hch & _).
    exists w'. split; [exact Hd|]. apply Hch. simpl.
    by apply list_elem_of_singleton.
Defined.

(** C9.  [zone z(8)] on a machine that, after the first chunk, is out of
    memory, and the typed allocation of a 16-byte object.  The request does
    not fit the 8 free bytes, the allocator refuses the new chunk and
    [allocate_align] returns the null pointer; the allocator then refuses
    the storage of the registry and [push] throws; the handler gives back
    16 bytes that were never taken.  Before the call the bump pointer is at
    the start (24) of the 8 bytes of storage of the head chunk, the block
    of 16 bytes at address 16; after the call it is at 8, below that block,
    and the free counter says 24: the invariant of the bump allocator is
    broken, and the next request of 24 bytes is served at address 8,
    outside every block of the arena. *)
Theorem C9_rollback_of_storage_never_reserved :
  exists z w z' w' z'' w'',
    zone.ctor 8 (boot [true; false; false]) = zone.Built z w /\
    zone_ok w z 8 16 [] /\ bump_ok w z /\
    zone.m_head z = Last 16 /\ blocks w !! 16 = Some 16 /\
    zone.m_ptr z = 24 /\ zone.m_free z = 8 /\
    zone.allocate_align 16 z w
    = Some (0, z, snd (malloc 24 w)) /\
    zone.allocate 16 101 completes z w = Some (Raise bad_alloc, z', w') /\
    syslog w' = [Malloc 16 16; Malloc 24 0; Realloc 0 64 0] /\
    zone.m_head z' = Last 16 /\ blocks w' !! 16 = Some 16 /\
    zone.m_ptr z' = 8 /\ zone.m_free z' = 24 /\
    ~ bump_ok w' z' /\
    zone.allocate_no_align 24 z' w' = Some (8, z'', w'') /\
    syslog w'' = syslog w'.
Proof.
  do 6 eexists. split; [reflexivity|].
  split.
  { exact (proj1 (ctor_ok 8 (boot [true; false; false]) _ _ (boot_ok _) eq_refl)). }
  split.
  { eapply (ctor_bump_ok 8 (boot [true; false; false]));
      [apply boot_ok | plat; lia | reflexivity]. }
  split_and!; try reflexivity.
  intros (n & Hn & _ & Hp & _). revert Hp. vm_compute. intros [Hp _]. by apply Hp.
Qed.

(** C10.  [push_finalizer(unique_ptr<T> obj)] on an arena holding [l], with
    [obj] owning the object [p].  Nothing is invoked by the call.  When the
    registration succeeds the object is not deleted: its destruction now
    belongs to the arena, whose registry holds [l] followed by the
    finalizer of [p].  When the registration fails, [std::bad_alloc] is
    propagated, the object has been deleted exactly once, by [obj], and the
    arena is unchanged: its registry still holds [l], so that a later
    [clear()] or the destruction of the arena invokes the finalizers of [l]
    only and deletes nothing. *)
Theorem C10_unique_ptr_released_after_push w z cs c0 l dtor p r z' w' :
  zone_ok w z cs c0 l -> p <> 0 ->
  zone.push_finalizer_unique dtor p z w = (r, z', w') ->
  invoked w' = invoked w /\
  ((r = Normal tt /\ deleted w' = deleted w /\
    zone_ok w' z' cs c0 (l ++ [Finalizer dtor p])) \/
   (r = Raise bad_alloc /\ deleted w' = deleted w ++ [p] /\
    z' = z /\ zone_ok w' z' cs c0 l /\
    (exists z'' w'',
        zone.clear z' w' = Some (z'', w'') /\
        invoked w'' = invoked w ++ rev l /\ deleted w'' = deleted w ++ [p]) /\
    (exists w'',
        zone.dtor z' w' = Some w'' /\
        invoked w'' = invoked w ++ rev l /\ deleted w'' = deleted w ++ [p]))).
Proof.
  intros Hz Hp. unfold zone.push_finalizer_unique.
  destruct (finalizer_array.push _ _ w) as [[rp fa] w1] eqn:E.
  destruct (push_zone_ok _ _ _ _ _ _ _ _ _ Hz E)
    as (Hi & Hd & [(-> & Hz1 & _)|(-> & -> & Hz1 & Hm & Hb)]); intros [= <- <- <-].
  - split; [done|]. left. done.
  - unfold zone.unique_ptr_dtor. apply Z.eqb_neq in Hp. rewrite Hp.
    assert (zone.with_finalizer_array (zone.m_finalizer_array z) z = z) as ->
      by (by destruct z).
    assert (zone_ok (delete_object p w1) z cs c0 l) as Hz2.
    { destruct Hz1 as [Hw ? [cap Hr] ? ? ? ? ?]. split; try done.
      - by destruct Hw.
      - exists cap. by eapply reg_ok_frame. }
    split; [done|]. right. split_and!; try done.
    + simpl. by rewrite Hd.
    + destruct (clear_ok _ _ _ _ _ Hz2) as (z'' & w'' & Hc & _ & Hi2 & Hd2 & _).
      exists z'', w''. split_and!; try done.
      * rewrite Hi2. simpl. by rewrite Hi.
      * rewrite Hd2. simpl. by rewrite Hd.
    + destruct (dtor_ok _ _ _ _ _ Hz2) as (w'' & Hc & _ & Hi2 & Hd2 & _).
      exists w''. split_and!; try done.
      * rewrite Hi2. simpl. by rewrite Hi.
      * rewrite Hd2. simpl. by rewrite Hd.
Qed.

Lemma C10_witness :
  (exists w',
      zone.push_finalizer_unique 101 5000 demo_zone (demo_world_then [false])
      = (Raise bad_alloc, demo_zone, w') /\
      deleted w' = [5000] /\ invoked w' = []) /\
  (exists z' w',
      zone.push_finalizer_unique 101 5000 demo_zone demo_world
      = (Normal tt, z', w') /\
      deleted w' = [] /\ zone_ok w' z' 64 16 [Finalizer 101 5000]).
Proof.
  split.
  - destruct (zone.push_finalizer_unique 101 5000 demo_zone
                (demo_world_then [false])) as [[r z'] w'] eqn:E.
    destruct (C10_unique_ptr_released_after_push
                (demo_world_then [false]) demo_zone 64 16 [] 101 5000 r z' w'
                (demo_ok_then [false]) ltac:(discriminate) E)
      as (Hi & [(-> & _)|(-> & Hd & -> & _)]).
    + exfalso. revert E. vm_compute. discriminate.
    + exists w'. split; [reflexivity|]. split; [exact Hd | exact Hi].
  - destruct (zone.push_finalizer_unique 101 5000 demo_zone demo_world)
      as [[r z'] w'] eqn:E.
    destruct (C10_unique_ptr_released_after_push
                demo_world demo_zone 64 16 [] 101 5000 r z' w'
                demo_ok ltac:(discriminate) E)
      as (Hi & [(-> & Hd & Hz)|(-> & _)]).
    + exists z', w'. split; [reflexivity|]. split; [exact Hd | exact Hz].
    + exfalso. revert E. vm_compute. discriminate.
Defined.

(** * Further properties *)

(** ** Raw allocation *)

Lemma total_nonneg sizes : Forall (fun n => 0 <= n) sizes -> 0 <= total sizes.
Proof. induction 1 as [|n ns Hn _ IH]; simpl; [done|]. unfold total in *. lia. Qed.

Lemma bump_ok_range w z :
  bump_ok w z -> 0 <= zone.m_free z <= PTRDIFF_MAX - sizeof_chunk.
Proof. intros (n & _ & Hn & Hp & Hf). lia. Qed.

Lemma bump_ok_advance w z n :
  bump_ok w z -> 0 <= n <= zone.m_free z ->
  bump_ok w (zone.with_chunk_list
               {| chunk_list.m_free := zone.m_free z - n;
                  chunk_list.m_ptr := zone.m_ptr z + n;
                  chunk_list.m_head := zone.m_head z |} z).
Proof.
  intros (bs & Hbs & Hn & Hp & Hf) Hfit. exists bs. zsimpl.
  split_and!; try done; lia.
Qed.

Lemma offsets_range sizes : forall p,
  Forall (fun n => 0 <= n) sizes ->
  Forall (fun x => p <= x <= p + total sizes) (offsets p sizes).
Proof.
  induction sizes as [|n ns IH]; intros p Hpos; [done|].
  apply Forall_cons in Hpos as [Hn Hns]. pose proof (total_nonneg _ Hns) as Ht.
  assert (total (n :: ns) = n + total ns) as -> by done.
  cbn [offsets]. apply Forall_cons. split; [lia|].
  eapply Forall_impl; [apply (IH (p + n) Hns)|]. intros x Hx. cbn beta in Hx. lia.
Qed.

(** X1.  On an arena whose bump pointer and free counter describe the head
    chunk, a chunk that ends inside the address space, requests of [n1],
    [n2], ... bytes that together fit the free bytes of the head chunk are
    served one after the other from the bump pointer [p]: at [p],
    [p + n1], [p + n1 + n2], ..., each exactly its predecessor's size
    further and all of them in the free part of the head chunk; the system
    allocator is not called, and afterwards the bump pointer has advanced,
    and the free counter has dropped, by the sum of the sizes, and they
    describe the head chunk again. *)
Theorem X1_unaligned_allocations_are_contiguous sizes : forall z w,
  bump_ok w z ->
  zone.m_ptr z + zone.m_free z < size_mod ->
  Forall (fun n => 0 <= n) sizes ->
  total sizes <= zone.m_free z ->
  allocate_each sizes z w
  = Some (offsets (zone.m_ptr z) sizes,
          zone.with_chunk_list
            {| chunk_list.m_head := zone.m_head z;
               chunk_list.m_free := zone.m_free z - total sizes;
               chunk_list.m_ptr := zone.m_ptr z + total sizes |} z,
          w) /\
  bump_ok w (zone.with_chunk_list
               {| chunk_list.m_head := zone.m_head z;
                  chunk_list.m_free := zone.m_free z - total sizes;
                  chunk_list.m_ptr := zone.m_ptr z + total sizes |} z) /\
  Forall (fun x => zone.m_ptr z <= x <= zone.m_ptr z + total sizes
                   /\ x < size_mod)
    (offsets (zone.m_ptr z) sizes).
Proof.
  induction sizes as [|n ns IH]; intros z w Hb Hsp Hpos Hfit.
  - assert (zone.with_chunk_list
              {| chunk_list.m_head := zone.m_head z;
                 chunk_list.m_free := zone.m_free z - total [];
                 chunk_list.m_ptr := zone.m_ptr z + total [] |} z = z) as ->.
    { destruct z as [cs [fr pt hd] fa]. zsimpl.
      unfold total. simpl. by rewrite Z.sub_0_r, Z.add_0_r. }
    done.
  - pose proof (bump_ok_range _ _ Hb) as Hfr.
    pose proof (offsets_range (n :: ns) (zone.m_ptr z) Hpos) as Hoff.
    apply Forall_cons in Hpos as [Hn Hns].
    pose proof (total_nonneg _ Hns) as Ht.
    assert (total (n :: ns) = n + total ns) as Hsum by done.
    split_and!.
    + cbn [allocate_each offsets]. unfold zone.allocate_no_align.
      destruct (zone.m_free z <? n) eqn:E; [apply Z.ltb_lt in E; lia|].
      rewrite size_t_small by (plat; lia).
      destruct (IH (zone.with_chunk_list
                      {| chunk_list.m_free := zone.m_free z - n;
                         chunk_list.m_ptr := zone.m_ptr z + n;
                         chunk_list.m_head := zone.m_head z |} z) w)
        as (-> & _); [apply bump_ok_advance; [done|lia]|zsimpl; lia|done|zsimpl; lia|].
      do 2 f_equal. zsimpl. rewrite Hsum. do 2 f_equal; f_equal; lia.
    + apply bump_ok_advance; [done|lia].
    + eapply Forall_impl; [apply Hoff|]. intros x Hx. cbn beta in Hx. lia.
Qed.

Lemma X1_witness :
  exists z,
    allocate_each [8; 0; 3] demo_zone demo_world = Some ([24; 32; 32], z, demo_world) /\
    zone.m_ptr z = 35 /\ zone.m_free z = 53.
Proof.
  assert (bump_ok demo_world demo_zone) as Hb.
  { apply (ctor_bump_ok 64 (boot [])); [apply boot_ok|plat; lia|apply demo_ctor]. }
  destruct (X1_unaligned_allocations_are_contiguous [8; 0; 3] demo_zone demo_world)
    as (Ha & _ & _).
  - exact Hb.
  - change (24 + 64 < 2 ^ 64). lia.
  - repeat constructor; lia.
  - change (11 <= 64). lia.
  - eexists. split; [exact Ha|]. split; reflexivity.
Defined.

Lemma aligned_size_wraps s :
  size_mod - MSGPACK_ZONE_ALIGN < s < size_mod -> zone.aligned_size s = 0.
Proof.
  intros H. rewrite aligned_size_eq. plat. unfold size_t, size_mod.
  replace ((s + 3) mod 2 ^ 64) with (s + 3 - 2 ^ 64).
  - Z.div_mod_to_equations. lia.
  - apply Z.mod_unique with 1; lia.
Qed.

(** X2.  The size that [allocate_align] asks for is the request rounded up
    to the next multiple of [MSGPACK_ZONE_ALIGN] as long as that multiple
    is a [size_t]; for the three largest values of [size_t] the sum wraps
    around and the size asked for is zero. *)
Theorem X2_aligned_size_rounds_up_or_wraps s :
  0 <= s < size_mod ->
  zone.aligned_size s mod MSGPACK_ZONE_ALIGN = 0 /\
  (s <= size_mod - MSGPACK_ZONE_ALIGN ->
   s <= zone.aligned_size s < s + MSGPACK_ZONE_ALIGN) /\
  (size_mod - MSGPACK_ZONE_ALIGN < s -> zone.aligned_size s = 0).
Proof.
  intros Hs. split; [apply aligned_size_multiple|].
  split; intros H; [|apply aligned_size_wraps; lia].
  rewrite aligned_size_eq. plat.
  rewrite size_t_small by (plat; lia). Z.div_mod_to_equations. lia.
Qed.

Lemma X2_witness :
  zone.aligned_size 5 = 8 /\ zone.aligned_size (2 ^ 64 - 1) = 0.
Proof.
  destruct (X2_aligned_size_rounds_up_or_wraps 5) as (Hm & Hr & _);
    [unfold size_mod; lia|].
  destruct (X2_aligned_size_rounds_up_or_wraps (2 ^ 64 - 1)) as (_ & _ & Hw);
    [unfold size_mod; lia|].
  split; [reflexivity|]. apply Hw. plat. lia.
Defined.

(** X3.  An aligned request for one of the three largest sizes is answered
    like a request for nothing: the bump pointer is returned, no byte is
    reserved, the system allocator is not called and the arena is
    unchanged. *)
Theorem X3_allocate_align_of_a_wrapping_size_reserves_nothing size z w :
  size_mod - MSGPACK_ZONE_ALIGN < size < size_mod ->
  0 <= zone.m_free z < size_mod ->
  zone.allocate_align size z w = Some (zone.m_ptr z, z, w).
Proof.
  intros Hs Hf.
  unfold zone.allocate_align, zone.allocate_no_align.
  rewrite aligned_size_wraps by done.
  destruct (zone.m_free z <? 0) eqn:E; [apply Z.ltb_lt in E; lia|].
  do 2 f_equal. destruct z as [cs [fr pt hd] fa]. zsimpl.
  rewrite Z.sub_0_r, Z.add_0_r, size_t_small by lia. done.
Qed.

Lemma X3_witness :
  zone.allocate_align (2 ^ 64 - 1) demo_zone demo_world
  = Some (24, demo_zone, demo_world).
Proof.
  apply (X3_allocate_align_of_a_wrapping_size_reserves_nothing
           (2 ^ 64 - 1) demo_zone demo_world).
  - plat. lia.
  - change (0 <= 64 < 2 ^ 64). lia.
Defined.

(** X4.  Whenever raw allocation needs a new chunk (fewer free bytes than
    requested), the call returns if and only if some doubling of the chunk
    size, taken modulo the word size, reaches the request; otherwise the
    doubling loop of [allocate_expand] runs for ever. *)
Theorem X4_allocation_returns_iff_some_doubling_reaches_the_request size z w :
  0 <= zone.m_chunk_size z < size_mod ->
  zone.m_free z < size ->
  zone.allocate_no_align size z w = None
  <-> forall k : nat, size_t (zone.m_chunk_size z * 2 ^ Z.of_nat k) < size.
Proof.
  intros Hcs Hfree. unfold zone.allocate_no_align.
  destruct (zone.m_free z <? size) eqn:E; [|apply Z.ltb_ge in E; lia].
  unfold zone.allocate_expand.
  destruct (zone.grow zone.grow_fuel (zone.m_chunk_size z) size) as [sz|] eqn:Hg.
  - split.
    + destruct (malloc _ w) as [c w1]. by destruct (c =? 0).
    + intros Hall. exfalso.
      assert (zone.grow zone.grow_fuel (zone.m_chunk_size z) size = None) as Hn.
      { apply grow_None; [done|]. intros k _. apply Hall. }
      congruence.
  - split; [|done]. intros _ k.
    pose proof (grow_fuel_enough _ _ Hcs Hg k) as Hk.
    apply (proj1 (grow_None size k _ Hcs) Hk k). lia.
Qed.

Lemma X4_witness :
  exists z w,
    zone.ctor (2 ^ 62) (boot []) = zone.Built z w /\
    zone.allocate_no_align (2 ^ 63 + 1) z w = None.
Proof.
  destruct (zone.ctor (2 ^ 62) (boot [])) as [z w|w] eqn:Hc;
    [|vm_compute in Hc; discriminate Hc].
  exists z, w. split; [done|].
  assert (zone.m_chunk_size z = 2 ^ 62 /\ zone.m_free z = 2 ^ 62) as [Hcs Hfree].
  { vm_compute in Hc. by injection Hc as <- <-. }
  apply X4_allocation_returns_iff_some_doubling_reaches_the_request.
  - rewrite Hcs. unfold size_mod. lia.
  - rewrite Hfree. lia.
  - intros k. rewrite Hcs. destruct k as [|[|k]].
    + change (2 ^ 62 < 2 ^ 63 + 1). lia.
    + change (2 ^ 63 < 2 ^ 63 + 1). lia.
    + rewrite !Nat2Z.inj_succ, !Z.pow_succ_r by lia.
      replace (2 ^ 62 * (2 * (2 * 2 ^ Z.of_nat k))) with (2 ^ Z.of_nat k * 2 ^ 64)
        by lia.
      unfold size_t, size_mod. rewrite Z.mod_mul by lia. lia.
Defined.

(** ** Finalizers *)

(** X5.  [push_finalizer] either registers the finalizer behind the ones
    already registered or throws [bad_alloc] and leaves the arena as it
    was: same members, same live blocks, same registry contents.  It can
    only throw when the registry is full, it never calls a finalizer and it
    never touches the chunk list. *)
Theorem X5_push_finalizer_registers_or_changes_nothing
    func data z w r z' w' cs c0 l :
  zone_ok w z cs c0 l ->
  zone.push_finalizer func data z w = (r, z', w') ->
  invoked w' = invoked w /\
  zone.m_chunk_list z' = zone.m_chunk_list z /\
  zone.m_chunk_size z' = zone.m_chunk_size z /\
  ((r = Normal tt /\ zone_ok w' z' cs c0 (l ++ [Finalizer func data])) \/
   (r = Raise bad_alloc /\ z' = z /\ blocks w' = blocks w /\
    fmem w' = fmem w /\ zone_ok w' z' cs c0 l /\
    finalizer_array.m_tail (zone.m_finalizer_array z)
    = finalizer_array.m_end (zone.m_finalizer_array z))).
Proof.
  intros Hok Hp. unfold zone.push_finalizer in Hp.
  destruct (finalizer_array.push _ _ w) as [[r1 fa1] w1] eqn:Hpush.
  injection Hp as <- <- <-.
  destruct Hok as [Hheap Hsz [cap Hreg] Hnd Hlive Hfirst Hfs Hap].
  assert (zone_ok w z cs c0 l) as Hok by (split; eauto; by exists cap).
  destruct (push_zone_ok _ _ _ _ _ _ _ _ _ Hok Hpush) as (Hinv & _ & Hcase).
  destruct (push_registered _ _ _ _ _ _ _ _ Hheap Hreg Hpush)
    as (_ & _ & _ & _ & _ & Hcase2).
  split_and!; [done|done|done|].
  destruct Hcase as [(-> & Hok' & _)|(-> & -> & Hok' & Hf & Hb)].
  - left. done.
  - right. destruct Hcase2 as [(? & _)|(_ & _ & _ & _ & _ & Hfull)]; [done|].
    replace (zone.with_finalizer_array (zone.m_finalizer_array z) z) with z
      by by destruct z.
    done.
Qed.

Lemma X5_witness :
  exists z' w',
    zone.push_finalizer 7 100 demo_zone demo_world = (Normal tt, z', w') /\
    zone_ok w' z' 64 16 [Finalizer 7 100].
Proof.
  destruct (zone.push_finalizer 7 100 demo_zone demo_world) as [[r z'] w'] eqn:Hp.
  destruct (X5_push_finalizer_registers_or_changes_nothing
              7 100 demo_zone demo_world r z' w' 64 16 [] demo_ok Hp)
    as (_ & _ & _ & [(-> & Hok)|(-> & _)]).
  - by exists z', w'.
  - vm_compute in Hp. discriminate Hp.
Defined.

(** ** Clearing and destroying *)

(** X6.  A second [clear] directly after a [clear] finds nothing to do: it
    calls no finalizer, frees no chunk and leaves the arena and the system
    exactly as the first one left them. *)
Theorem X6_clear_is_idempotent z w z' w' :
  zone.clear z w = Some (z', w') ->
  zone.clear z' w' = Some (z', w').
Proof.
  unfold zone.clear, finalizer_array.clear, chunk_list.clear.
  destruct (finalizer_array.call _ w) as [w1|]; [|done].
  destruct (chunk_list.free_but_last _ w1) as [c w2].
  intros [= <- <-]. cbn -[Z.add sizeof_chunk].
  unfold finalizer_array.call. cbn -[Z.add Z.sub sizeof_chunk].
  rewrite Z.sub_diag. cbn -[Z.add sizeof_chunk]. by rewrite Z.eqb_refl.
Qed.

Lemma X6_witness :
  exists z' w',
    zone.clear demo_zone demo_world = Some (z', w') /\
    zone.clear z' w' = Some (z', w').
Proof.
  destruct (zone.clear demo_zone demo_world) as [[z' w']|] eqn:Hc.
  - exists z', w'. split; [done|]. by apply (X6_clear_is_idempotent demo_zone demo_world).
  - vm_compute in Hc. discriminate Hc.
Defined.

Lemma dtor_blocks w z cs c0 l :
  zone_ok w z cs c0 l ->
  exists w',
    zone.dtor z w = Some w' /\
    same_but_heap (invoke_all (rev l) w) w' /\
    forall a,
      blocks w' !! a
      = if decide (a ∈ chain (zone.m_head z) \/
                   (a = finalizer_array.m_array (zone.m_finalizer_array z) /\
                    a <> 0))
        then None else blocks w !! a.
Proof.
  intros Hok. pose proof Hok as [Hheap Hsz [cap Hreg] Hnd Hlive Hfirst Hfs Hap].
  unfold zone.dtor. rewrite (dtor_registered _ _ l) by by exists cap.
  eexists. split; [done|].
  unfold chunk_list.dtor.
  destruct (free_all_spec (zone.m_head z)
              (free (finalizer_array.m_array (zone.m_finalizer_array z))
                 (invoke_all (rev l) w))) as (_ & Hsame & _ & Hb).
  split.
  - eapply same_but_heap_trans; [apply free_same|]. apply Hsame.
  - intros a. change (chunk_list.m_head (zone.m_chunk_list z)) with (zone.m_head z).
    rewrite Hb, free_blocks.
    destruct (invoke_all_frame (rev l) w) as (-> & _).
    pose proof (chain_below _ _ _ _ _ a Hok) as Hbelow.
    repeat case_decide; try done; exfalso; intuition (subst; lia).
Qed.

Lemma clear_same z w z' w' l :
  registered w (zone.m_finalizer_array z) l ->
  zone.clear z w = Some (z', w') ->
  same_but_heap (invoke_all (rev l) w) w'.
Proof.
  intros Hreg. unfold zone.clear, chunk_list.clear.
  destruct (clear_registered _ _ _ Hreg) as (fa' & -> & _).
  destruct (free_but_last_spec (chunk_list.m_head (zone.m_chunk_list z))
              (invoke_all (rev l) w)) as (w2 & -> & _ & Hsame & _).
  by intros [= <- <-].
Qed.

(** X7.  Clearing an arena before destroying it changes nothing in what is
    left behind: the same blocks are live, the same finalizers have run in
    the same order, and the rest of the system state is the same as after
    destroying it directly. *)
Theorem X7_clear_before_destruction_is_redundant z w cs c0 l :
  zone_ok w z cs c0 l ->
  exists z1 w1 w2 w3,
    zone.clear z w = Some (z1, w1) /\
    zone.dtor z1 w1 = Some w2 /\
    zone.dtor z w = Some w3 /\
    blocks w2 = blocks w3 /\ invoked w2 = invoked w3 /\
    fmem w2 = fmem w3 /\ deleted w2 = deleted w3 /\
    oracle w2 = oracle w3 /\ brk w2 = brk w3.
Proof.
  intros Hok.
  destruct (clear_ok _ _ _ _ _ Hok)
    as (z1 & w1 & Hc & Hok1 & Hinv1 & Hdel1 & _ & Hgone & Hkept & Hhd & _ & _ & _
        & Harr & _).
  pose proof (clear_same _ _ _ _ _ (zo_reg _ _ _ _ _ Hok) Hc) as Hs1.
  destruct (dtor_blocks _ _ _ _ _ Hok1) as (w2 & Hd2 & Hs2 & Hb2).
  destruct (dtor_blocks _ _ _ _ _ Hok) as (w3 & Hd3 & Hs3 & Hb3).
  exists z1, w1, w2, w3. split_and!; try done.
  - apply map_eq. intros a. rewrite Hb2, Hb3, Hhd, Harr.
    rewrite (chain_front (zone.m_head z)), (zo_first _ _ _ _ _ Hok).
    cbn [chain].
    destruct (decide (a ∈ front (zone.m_head z))) as [Hin|Hout].
    + rewrite (Hgone a Hin). repeat case_decide; try done; exfalso; elems.
    + rewrite (Hkept a Hout). repeat case_decide; try done; exfalso; elems.
  - destruct Hs2 as (_ & -> & _), Hs3 as (_ & -> & _).
    rewrite !invoke_all_invoked, Hinv1. simpl. by rewrite app_nil_r.
  - destruct Hs2 as (E2 & _), Hs3 as (E3 & _), Hs1 as (E1 & _).
    destruct (invoke_all_frame (rev []) w1) as (_ & _ & F1 & _).
    congruence.
  - destruct Hs2 as (_ & _ & E2 & _), Hs3 as (_ & _ & E3 & _),
      Hs1 as (_ & _ & E1 & _).
    destruct (invoke_all_frame (rev []) w1) as (_ & _ & _ & _ & _ & F1).
    congruence.
  - destruct Hs2 as (_ & _ & _ & E2 & _), Hs3 as (_ & _ & _ & E3 & _),
      Hs1 as (_ & _ & _ & E1 & _).
    destruct (invoke_all_frame (rev []) w1) as (_ & _ & _ & F1 & _).
    congruence.
  - destruct Hs2 as (_ & _ & _ & _ & E2), Hs3 as (_ & _ & _ & _ & E3),
      Hs1 as (_ & _ & _ & _ & E1).
    destruct (invoke_all_frame (rev []) w1) as (_ & F1 & _).
    congruence.
Qed.

Lemma X7_witness :
  exists z1 w1 w2 w3,
    zone.clear demo_zone demo_world = Some (z1, w1) /\
    zone.dtor z1 w1 = Some w2 /\
    zone.dtor demo_zone demo_world = Some w3 /\
    blocks w2 = blocks w3 /\ invoked w2 = invoked w3.
Proof.
  destruct (X7_clear_before_destruction_is_redundant demo_zone demo_world 64 16 []
              demo_ok) as (z1 & w1 & w2 & w3 & H1 & H2 & H3 & H4 & H5 & _).
  by exists z1, w1, w2, w3.
Defined.

(** ** Ownership of heap blocks *)

Lemma next_brk_room size w : 0 <= size -> brk w + size < next_brk size w.
Proof. intros Hs. unfold next_brk. Z.div_mod_to_equations. lia. Qed.

Lemma malloc_room size w p w' :
  grants size w = true -> malloc size w = (p, w') -> brk w' = next_brk size w.
Proof. unfold malloc. intros ->. by intros [= <- <-]. Qed.

Lemma realloc_room p size w q w' :
  grants size w = true -> realloc p size w = (q, w') -> brk w' = next_brk size w.
Proof. unfold realloc. intros ->. by intros [= <- <-]. Qed.

Lemma push_blocks f fa w r fa' w' :
  heap_ok w ->
  finalizer_array.push f fa w = (r, fa', w') ->
  brk w <= brk w' /\
  ((blocks w' = blocks w /\
    finalizer_array.m_array fa' = finalizer_array.m_array fa) \/
   (exists n, 0 <= n /\ brk w + n <= brk w' /\
              blocks w' = <[brk w := n]> (delete (finalizer_array.m_array fa) (blocks w)) /\
              finalizer_array.m_array fa' = brk w)).
Proof.
  intros Hheap. unfold finalizer_array.push.
  destruct (finalizer_array.m_tail fa =? finalizer_array.m_end fa).
  - unfold finalizer_array.push_expand.
    set (nnext := if _ =? 0 then _ else _).
    destruct (realloc _ _ w) as [tmp w1] eqn:Hr.
    destruct (realloc_ok _ _ _ _ _ Hheap (proj1 (size_t_range _)) Hr)
      as (_ & _ & _ & _ & _ & Hcase).
    destruct (tmp =? 0) eqn:E; intros [= <- <- <-].
    + apply Z.eqb_eq in E. subst tmp.
      destruct Hcase as [(_ & _ & Hb & Hbrk & _)|(Hq & _)].
      * split; [lia|]. by left.
      * destruct Hheap. lia.
    + apply Z.eqb_neq in E.
      destruct Hcase as [(? & _)|(-> & Hg & Hb & Hbrk & _)]; [done|].
      pose proof (realloc_room _ _ _ _ _ Hg Hr) as Hroom.
      pose proof (next_brk_room _ w (proj1 (size_t_range (sizeof_finalizer * nnext)))).
      cbn [finalizer_array.m_array]. destruct w1; cbn in *. split; [lia|].
      right. eexists. split_and!; [|  |done|done]; [apply size_t_range|lia].
  - intros [= <- <- <-]. destruct w; cbn. split; [lia|]. by left.
Qed.

Lemma owned_same w0 w w' z z' :
  owned w0 w z ->
  blocks w' = blocks w -> brk w <= brk w' ->
  zone.m_head z' = zone.m_head z ->
  finalizer_array.m_array (zone.m_finalizer_array z')
  = finalizer_array.m_array (zone.m_finalizer_array z) ->
  owned w0 w' z'.
Proof.
  intros (H1 & H2 & H3 & H4 & H5) Hb Hbrk Hh Ha. unfold owned.
  rewrite Hb, Hh, Ha. split_and!; try done. lia.
Qed.

Lemma owned_chunk w0 w w' z z' n :
  owned w0 w z ->
  blocks w' = <[brk w := n]> (blocks w) -> brk w <= brk w' ->
  zone.m_head z' = Link (brk w) (zone.m_head z) ->
  finalizer_array.m_array (zone.m_finalizer_array z')
  = finalizer_array.m_array (zone.m_finalizer_array z) ->
  owned w0 w' z'.
Proof.
  intros (H1 & H2 & H3 & H4 & H5) Hb Hbrk Hh Ha. unfold owned.
  rewrite Hb, Hh, Ha. cbn [chain]. split_and!; try done.
  - lia.
  - intros a Ha0. rewrite lookup_insert_ne by lia. by apply H2.
  - intros a Ha0. destruct (decide (a = brk w)) as [->|Hne].
    + intros _. left. elems.
    + rewrite lookup_insert_ne by done. intros Hs.
      destruct (H3 a Ha0 Hs); [left; elems|by right].
  - intros a [->|Hin]%elem_of_cons; [done|by apply H4].
Qed.

Lemma owned_array w0 w w' z z' n :
  heap_ok w ->
  owned w0 w z ->
  blocks w'
  = <[brk w := n]> (delete (finalizer_array.m_array (zone.m_finalizer_array z))
                      (blocks w)) ->
  brk w <= brk w' ->
  zone.m_head z' = zone.m_head z ->
  finalizer_array.m_array (zone.m_finalizer_array z') = brk w ->
  owned w0 w' z'.
Proof.
  intros Hheap (H1 & H2 & H3 & H4 & H5) Hb Hbrk Hh Ha. unfold owned.
  rewrite Hb, Hh, Ha. split_and!; try done.
  - lia.
  - intros a Ha0. rewrite lookup_insert_ne by lia.
    destruct (decide (a = finalizer_array.m_array (zone.m_finalizer_array z)))
      as [->|Hne].
    + rewrite lookup_delete_eq. destruct H5 as [H5|H5]; [|lia].
      rewrite <- H2 by done. rewrite H5.
      destruct (blocks w !! 0) as [s|] eqn:E; [|done].
      apply (blocks_below _ Hheap) in E. lia.
    + rewrite lookup_delete_ne by done. by apply H2.
  - intros a Ha0. destruct (decide (a = brk w)) as [->|Hne]; [by right|].
    rewrite lookup_insert_ne by done.
    destruct (decide (a = finalizer_array.m_array (zone.m_finalizer_array z)))
      as [->|Hne'].
    + rewrite lookup_delete_eq. by intros [? ?].
    + rewrite lookup_delete_ne by done. intros Hs.
      destruct (H3 a Ha0 Hs); [by left|done].
  - right. lia.
Qed.

Lemma owned_push w0 f z w r fa' w' cs c0 l :
  zone_ok w z cs c0 l ->
  owned w0 w z ->
  finalizer_array.push f (zone.m_finalizer_array z) w = (r, fa', w') ->
  forall z',
    zone.m_head z' = zone.m_head z ->
    finalizer_array.m_array (zone.m_finalizer_array z')
    = finalizer_array.m_array fa' ->
    owned w0 w' z'.
Proof.
  intros Hok Hown Hp z' Hh Ha.
  destruct (push_blocks _ _ _ _ _ _ (zo_heap _ _ _ _ _ Hok) Hp)
    as (Hbrk & [(Hb & Harr)|(n & _ & _ & Hb & Harr)]).
  - eapply owned_same; eauto. congruence.
  - eapply owned_array; eauto using zo_heap. congruence.
Qed.

Lemma allocate_no_align_owned w0 size z w x z' w' cs c0 l :
  zone_ok w z cs c0 l ->
  owned w0 w z ->
  zone.allocate_no_align size z w = Some (x, z', w') ->
  owned w0 w' z'.
Proof.
  intros Hok Hown. unfold zone.allocate_no_align.
  destruct (zone.m_free z <? size).
  - unfold zone.allocate_expand.
    destruct (zone.grow _ _ _) as [sz|]; [|done].
    destruct (malloc _ w) as [c w1] eqn:Hm.
    destruct (malloc_ok _ _ _ _ (zo_heap _ _ _ _ _ Hok) (proj1 (size_t_range _)) Hm)
      as (_ & _ & _ & _ & _ & _ & Hcase).
    destruct (c =? 0) eqn:E; intros [= <- <- <-].
    + apply Z.eqb_eq in E.
      destruct Hcase as [(_ & _ & Hb & Hbrk)|(-> & _)].
      * eapply owned_same; eauto. lia.
      * destruct (zo_heap _ _ _ _ _ Hok). lia.
    + apply Z.eqb_neq in E.
      destruct Hcase as [(? & _)|(-> & _ & Hb & Hbrk)]; [done|].
      eapply owned_chunk; eauto. lia.
  - intros [= <- <- <-]. eapply owned_same; eauto. lia.
Qed.

Lemma step_owned w0 o z w z' w' cs c0 l :
  zone_ok w z cs c0 l ->
  owned w0 w z ->
  step o z w = Some (z', w') ->
  owned w0 w' z'.
Proof.
  intros Hok Hown Hs. destruct o as [size|size|func data|dtor p|sT d ctor|];
    cbn [step] in Hs.
  - destruct (zone.allocate_align size z w) as [[[x z1] w1]|] eqn:Ha; [|done].
    injection Hs as <- <-. eapply allocate_no_align_owned; eauto.
  - destruct (zone.allocate_no_align size z w) as [[[x z1] w1]|] eqn:Ha; [|done].
    injection Hs as <- <-. eapply allocate_no_align_owned; eauto.
  - unfold zone.push_finalizer in Hs.
    destruct (finalizer_array.push _ _ w) as [[r fa] w1] eqn:Hp.
    injection Hs as <- <-. eapply owned_push; eauto.
  - unfold zone.push_finalizer_unique in Hs.
    destruct (finalizer_array.push _ _ w) as [[r fa] w1] eqn:Hp.
    assert (owned w0 w1 (zone.with_finalizer_array fa z)) as Hown1
      by (eapply owned_push; eauto).
    destruct r; injection Hs as <- <-;
      (eapply owned_same; [apply Hown1| | |done|done]);
      unfold zone.unique_ptr_dtor; by repeat case_match.
  - destruct (zone.allocate sT d ctor z w) as [[[r z2] w2]|] eqn:Ha; [|done].
    injection Hs as <- <-.
    destruct (allocate_stages _ _ _ _ _ _ _ _ Ha)
      as (x & z1 & w1 & rp & fa2 & Hal & Hp & Hr).
    destruct (allocate_no_align_ok _ _ _ _ _ _ _ _ _ Hok Hal) as (Hok1 & _).
    pose proof (allocate_no_align_owned _ _ _ _ _ _ _ _ _ _ Hok Hown Hal) as Hown1.
    destruct rp as [u|e].
    + destruct (ctor x) as [e|]; destruct Hr as [-> ->];
        eapply owned_push; eauto.
    + destruct Hr as [-> ->]. eapply owned_push; eauto.
  - destruct (clear_ok _ _ _ _ _ Hok)
      as (z1 & w1 & Hc & _ & _ & _ & _ & Hgone & Hkept & Hhd & _ & _ & _ & Harr & _).
    pose proof (clear_same _ _ _ _ _ (zo_reg _ _ _ _ _ Hok) Hc) as (_ & _ & _ & _ & Hb).
    destruct (invoke_all_frame (rev l) w) as (_ & Hb' & _).
    rewrite Hc in Hs. injection Hs as <- <-.
    destruct Hown as (H1 & H2 & H3 & H4 & H5). unfold owned.
    rewrite Hhd, Harr. cbn [chain].
    pose proof (chain_front (zone.m_head z)) as Hcf.
    rewrite (zo_first _ _ _ _ _ Hok) in Hcf.
    split_and!; try done.
    + lia.
    + intros a Ha. rewrite Hkept; [by apply H2|].
      intros Hin. assert (brk w0 <= a); [|lia].
      apply H4. rewrite Hcf. elems.
    + intros a Ha Hs. destruct (decide (a ∈ front (zone.m_head z))) as [Hin|Hout].
      * rewrite (Hgone a Hin) in Hs. by destruct Hs.
      * rewrite (Hkept a Hout) in Hs. destruct (H3 a Ha Hs) as [Hin|?]; [|by right].
        rewrite Hcf in Hin. elems.
    + intros a Hin. apply H4. rewrite Hcf. elems.
Qed.

Lemma runs_owned z w regs z' w' :
  runs z w regs z' w' ->
  forall w0 cs c0 l,
    zone_ok w z cs c0 l -> owned w0 w z ->
    exists l', zone_ok w' z' cs c0 l' /\ owned w0 w' z'.
Proof.
  induction 1 as [z w|o z w z1 w1 regs z' w' Hs _ IH]; intros w0 cs c0 l Hok Hown.
  - eauto.
  - destruct (step_ok _ _ _ _ _ _ _ _ Hok Hs) as (l1 & Hok1).
    eapply IH; eauto using step_owned.
Qed.

Lemma ctor_owned cs w0 z w :
  heap_ok w0 ->
  zone.ctor cs w0 = zone.Built z w ->
  owned w0 w z.
Proof.
  intros Hheap Hc.
  destruct (ctor_spec cs w0 Hheap) as [(_ & w1 & Hc1 & _)|(_ & w1 & Hc1 & Hh1 & Hb & _)];
    rewrite Hc1 in Hc; [done|]. injection Hc as <- <-.
  unfold owned. zsimpl. cbn [chain finalizer_array.init finalizer_array.m_array].
  assert (brk w0 < brk w1) as Hbrk.
  { apply (blocks_below _ Hh1 (brk w0) (size_t (sizeof_chunk + cs))).
    by rewrite Hb, lookup_insert_eq. }
  split_and!.
  - lia.
  - intros a Ha. rewrite Hb, lookup_insert_ne by lia. done.
  - intros a Ha. rewrite Hb. destruct (decide (a = brk w0)) as [->|Hne].
    + intros _. left. elems.
    + rewrite lookup_insert_ne by done. intros [s Hs].
      apply (blocks_below _ Hheap) in Hs. lia.
  - intros a ->%list_elem_of_singleton. done.
  - by left.
Qed.

Lemma dtor_owned w0 w z cs c0 l :
  heap_ok w0 ->
  zone_ok w z cs c0 l ->
  owned w0 w z ->
  exists w',
    zone.dtor z w = Some w' /\ blocks w' = blocks w0 /\
    brk w' = brk w /\ heap_ok w' /\
    invoked w' = invoked w ++ rev l.
Proof.
  intros Hheap Hok (H1 & H2 & H3 & H4 & H5).
  destruct (dtor_blocks _ _ _ _ _ Hok) as (w' & Hd & Hsame & Hb).
  destruct (dtor_ok _ _ _ _ _ Hok) as (w'' & Hd' & Hh' & Hinv & _).
  rewrite Hd in Hd'. injection Hd' as <-.
  exists w'. split_and!; try done.
  - apply map_eq. intros a. rewrite Hb.
    destruct (decide (a < brk w0)) as [Hlt|Hge].
    + rewrite decide_False; [by apply H2|].
      intros [Hin|[-> Hne]]; [apply H4 in Hin; lia|lia].
    + assert (blocks w0 !! a = None) as ->.
      { destruct (blocks w0 !! a) as [s|] eqn:E; [|done].
        apply (blocks_below _ Hheap) in E. lia. }
      case_decide as Hd'; [done|].
      destruct (blocks w !! a) as [s|] eqn:E; [|done].
      destruct (H3 a ltac:(lia) ltac:(eauto)) as [Hin| ->].
      * exfalso. apply Hd'. by left.
      * exfalso. apply Hd'. right. split; [done|]. destruct Hheap. lia.
  - destruct Hsame as (_ & _ & _ & _ & ->).
    by destruct (invoke_all_frame (rev l) w) as (_ & -> & _).
Qed.

Lemma uses_runs P z w z' w' :
  uses P z w z' w' -> exists regs, runs z w regs z' w'.
Proof.
  induction 1 as [z w|o z w z1 w1 z' w' _ Hs _ [regs IH]].
  - exists []. constructor.
  - eexists. by eapply runs_step.
Qed.

(** X8.  An arena gives back every block it took.  Take any sequence of
    raw, aligned and typed allocations, registrations of finalizers by
    [push_finalizer(func, data)] and [clear]s, each of which returns, with
    whatever answers from the system allocator; no object is handed over
    by [push_finalizer(unique_ptr<T>)].  Then the destructor completes, and
    the live heap blocks after it are exactly the ones that were live
    before the constructor ran: every chunk and the array of the registry
    have been freed, and no other block has been touched. *)
Theorem X8_destructor_returns_every_block cs w0 z1 w1 z w :
  heap_ok w0 ->
  zone.ctor cs w0 = zone.Built z1 w1 ->
  uses no_handover z1 w1 z w ->
  exists w', zone.dtor z w = Some w' /\ blocks w' = blocks w0.
Proof.
  intros Hheap Hc Huses. destruct (uses_runs _ _ _ _ _ Huses) as [regs Hruns].
  destruct (ctor_ok _ _ _ _ Hheap Hc) as (Hok1 & _).
  pose proof (ctor_owned _ _ _ _ Hheap Hc) as Hown1.
  destruct (runs_owned _ _ _ _ _ Hruns _ _ _ _ Hok1 Hown1) as (l & Hok & Hown).
  destruct (dtor_owned _ _ _ _ _ _ Hheap Hok Hown) as (w' & Hd & Hb & _).
  eauto.
Qed.

Lemma X8_witness :
  exists z w w',
    zone.ctor 64 (boot []) = zone.Built demo_zone demo_world /\
    step (AllocateNoAlign 100) demo_zone demo_world = Some (z, w) /\
    zone.m_head z = Link 96 (Last 16) /\
    zone.dtor z w = Some w' /\ blocks w' = blocks (boot []).
Proof.
  destruct (step (AllocateNoAlign 100) demo_zone demo_world) as [[z w]|] eqn:Hs;
    [|vm_compute in Hs; discriminate Hs].
  destruct (X8_destructor_returns_every_block 64 (boot []) demo_zone demo_world
              z w (boot_ok []) demo_ctor
              (uses_step _ (AllocateNoAlign 100) _ _ _ _ _ _ I Hs (uses_done _ _ _)))
    as (w' & Hd & Hb).
  exists z, w, w'. split_and!; try done.
  vm_compute in Hs. by injection Hs as <- <-.
Defined.

Lemma storage_and_arena_released w0 size p wm cs z1 w1 regs z w :
  heap_ok w0 -> 0 <= size ->
  malloc size w0 = (p, wm) -> p <> 0 ->
  zone.ctor cs wm = zone.Built z1 w1 ->
  runs z1 w1 regs z w ->
  exists wd, zone.dtor z w = Some wd /\ blocks (free p wd) = blocks w0.
Proof.
  intros Hheap Hsize Hm Hp Hc Hruns.
  destruct (malloc_ok _ _ _ _ Hheap Hsize Hm)
    as (Hhm & _ & _ & _ & _ & _ & [(? & _)|(-> & _ & Hbm & Hbrk)]); [done|].
  destruct (ctor_ok _ _ _ _ Hhm Hc) as (Hok1 & _).
  pose proof (ctor_owned _ _ _ _ Hhm Hc) as Hown1.
  destruct (runs_owned _ _ _ _ _ Hruns _ _ _ _ Hok1 Hown1) as (l & Hok & Hown).
  destruct (dtor_owned _ _ _ _ _ _ Hhm Hok Hown) as (wd & Hd & Hb & _).
  exists wd. split; [done|]. apply map_eq. intros a.
  rewrite free_blocks, Hb, Hbm. case_decide as Ha.
  - destruct Ha as [-> _]. destruct (blocks w0 !! brk w0) as [s|] eqn:E; [|done].
    apply (blocks_below _ Hheap) in E. lia.
  - rewrite lookup_insert_ne; [done|]. intros <-. by apply Ha.
Qed.

(** X9.  An arena made by [create] and ended by [destroy] gives back
    every block it took: after any such sequence of operations in between,
    [destroy] completes and leaves exactly the heap blocks that were live
    before [create], the block of the arena object itself included among
    the freed ones. *)
Theorem X9_destroy_returns_every_block cs w0 p z1 w1 z w :
  heap_ok w0 ->
  zone.create cs w0 = zone.Handle p z1 w1 ->
  uses no_handover z1 w1 z w ->
  exists w', zone.destroy p z w = Some w' /\ blocks w' = blocks w0.
Proof.
  intros Hheap Hc Huses. destruct (uses_runs _ _ _ _ _ Huses) as [regs Hruns].
  unfold zone.create in Hc.
  destruct (malloc _ w0) as [q wm] eqn:Hm.
  destruct (q =? 0) eqn:E; [done|]. apply Z.eqb_neq in E.
  destruct (zone.ctor cs wm) as [z2 w2|w2] eqn:Hct; [|done].
  injection Hc as -> -> ->.
  destruct (storage_and_arena_released _ _ _ _ _ _ _ _ _ _ Hheap
              (proj1 (size_t_range _)) Hm E Hct Hruns) as (wd & Hd & Hb).
  unfold zone.destroy. rewrite Hd. eauto.
Qed.

Lemma X9_witness :
  exists p z1 w1 z w w',
    zone.create 64 (boot []) = zone.Handle p z1 w1 /\
    step (Allocate 4 7 completes) z1 w1 = Some (z, w) /\
    zone.destroy p z w = Some w' /\ blocks w' = blocks (boot []).
Proof.
  destruct (zone.create 64 (boot [])) as [p z1 w1|?|?] eqn:Hc;
    [|vm_compute in Hc; discriminate Hc..].
  destruct (step (Allocate 4 7 completes) z1 w1) as [[z w]|] eqn:Hs;
    [|vm_compute in Hc; injection Hc as <- <- <-; vm_compute in Hs; discriminate Hs].
  destruct (X9_destroy_returns_every_block 64 (boot []) p z1 w1 z w (boot_ok [])
              Hc (uses_step _ (Allocate 4 7 completes) _ _ _ _ _ _ I Hs
                    (uses_done _ _ _)))
    as (w' & Hd & Hb).
  by exists p, z1, w1, z, w, w'.
Defined.

(** X10.  The same holds for an arena made by a [new] expression, through
    the class's own [operator new], and ended by [delete], through its
    [operator delete]: afterwards exactly the blocks that were live before
    are live. *)
Theorem X10_delete_returns_every_block cs w0 p z1 w1 z w :
  heap_ok w0 ->
  new_zone cs w0 = New p z1 w1 ->
  uses no_handover z1 w1 z w ->
  exists w', delete_zone p z w = Some w' /\ blocks w' = blocks w0.
Proof.
  intros Hheap Hc Huses. destruct (uses_runs _ _ _ _ _ Huses) as [regs Hruns].
  unfold new_zone, operator_new in Hc.
  destruct (malloc _ w0) as [q wm] eqn:Hm.
  destruct (q =? 0) eqn:E; [done|]. apply Z.eqb_neq in E.
  destruct (zone.ctor cs wm) as [z2 w2|w2] eqn:Hct; [|done].
  injection Hc as -> -> ->.
  assert (0 <= sizeof_zone) as Hsz by (unfold sizeof_zone, sizeof_ptr; lia).
  destruct (storage_and_arena_released _ _ _ _ _ _ _ _ _ _ Hheap
              Hsz Hm E Hct Hruns) as (wd & Hd & Hb).
  unfold delete_zone, operator_delete. rewrite Hd. eauto.
Qed.

Lemma X10_witness :
  exists p z1 w1 z w w',
    new_zone 64 (boot []) = New p z1 w1 /\
    step (PushFinalizer 7 100) z1 w1 = Some (z, w) /\
    delete_zone p z w = Some w' /\ blocks w' = blocks (boot []) /\
    invoked w' = [Finalizer 7 100].
Proof.
  destruct (new_zone 64 (boot [])) as [p z1 w1|?|?] eqn:Hc;
    [|vm_compute in Hc; discriminate Hc..].
  destruct (step (PushFinalizer 7 100) z1 w1) as [[z w]|] eqn:Hs;
    [|vm_compute in Hc; injection Hc as <- <- <-; vm_compute in Hs; discriminate Hs].
  destruct (X10_delete_returns_every_block 64 (boot []) p z1 w1 z w (boot_ok [])
              Hc (uses_step _ (PushFinalizer 7 100) _ _ _ _ _ _ I Hs
                    (uses_done _ _ _)))
    as (w' & Hd & Hb).
  exists p, z1, w1, z, w, w'. split_and!; try done.
  vm_compute in Hc. injection Hc as <- <- <-.
  vm_compute in Hs. injection Hs as <- <-.
  vm_compute in Hd. by injection Hd as <-.
Defined.

(** ** Regions handed out *)

Lemma sep_insert m b b' n :
  sep m b -> 0 <= n -> b + n <= b' -> sep (<[b := n]> m) b'.
Proof.
  intros [H1 H2] Hn Hb. split.
  - intros a s. destruct (decide (a = b)) as [->|Hne].
    + rewrite lookup_insert_eq. intros [= <-]. lia.
    + rewrite lookup_insert_ne by done. intros Hs. apply H1 in Hs. lia.
  - intros a1 a2 s1 s2.
    destruct (decide (a1 = b)) as [->|Hne1], (decide (a2 = b)) as [->|Hne2];
      rewrite ?lookup_insert_eq, ?lookup_insert_ne by done.
    + done.
    + intros [= <-] Hs2 _. apply H1 in Hs2. lia.
    + intros Hs1 [= <-] _. apply H1 in Hs1. lia.
    + apply H2.
Qed.

Lemma sep_subset m m' b b' :
  sep m b -> (forall a s, m' !! a = Some s -> m !! a = Some s) -> b <= b' ->
  sep m' b'.
Proof.
  intros [H1 H2] Hsub Hb. split.
  - intros a s Hs%Hsub. apply H1 in Hs. lia.
  - intros a1 a2 s1 s2 Hs1%Hsub Hs2%Hsub. by apply H2.
Qed.

Lemma sep_delete m b p : sep m b -> sep (delete p m) b.
Proof.
  intros Hs. eapply sep_subset; [done| |lia].
  intros a s. destruct (decide (a = p)) as [->|Hne].
  - by rewrite lookup_delete_eq.
  - by rewrite lookup_delete_ne.
Qed.

Lemma boot_sep o : sep_ok (boot o).
Proof. split; intros *; cbn [boot blocks]; by rewrite lookup_empty. Qed.

Lemma malloc_sep size w p w' :
  heap_ok w -> sep_ok w -> 0 <= size -> malloc size w = (p, w') -> sep_ok w'.
Proof.
  intros Hheap Hsep Hsize Hm.
  destruct (malloc_ok _ _ _ _ Hheap Hsize Hm)
    as (_ & _ & _ & _ & _ & _ & [(_ & _ & Hb & Hbrk)|(-> & Hg & Hb & Hbrk)]);
    unfold sep_ok; rewrite Hb.
  - by rewrite Hbrk.
  - apply sep_insert; [done|done|].
    rewrite (malloc_room _ _ _ _ Hg Hm).
    pose proof (next_brk_room size w Hsize). lia.
Qed.

Lemma ctor_sep cs w0 z w :
  heap_ok w0 -> sep_ok w0 -> zone.ctor cs w0 = zone.Built z w -> sep_ok w.
Proof.
  intros Hheap Hsep. unfold zone.ctor, chunk_list.ctor.
  destruct (malloc _ w0) as [c w1] eqn:Hm.
  pose proof (malloc_sep _ _ _ _ Hheap Hsep (proj1 (size_t_range _)) Hm).
  destruct (c =? 0); [done|]. by intros [= <- <-].
Qed.

Lemma push_sep f fa w r fa' w' :
  heap_ok w -> sep_ok w ->
  finalizer_array.push f fa w = (r, fa', w') -> sep_ok w'.
Proof.
  intros Hheap Hsep Hp.
  destruct (push_blocks _ _ _ _ _ _ Hheap Hp)
    as (Hbrk & [(Hb & _)|(n & Hn & Hroom & Hb & _)]); unfold sep_ok; rewrite Hb.
  - eapply sep_subset; [apply Hsep|done|done].
  - apply sep_insert; [|done|done]. by apply sep_delete.
Qed.

Lemma allocate_no_align_sep size z w x z' w' :
  heap_ok w -> sep_ok w ->
  zone.allocate_no_align size z w = Some (x, z', w') -> sep_ok w'.
Proof.
  intros Hheap Hsep. unfold zone.allocate_no_align.
  destruct (zone.m_free z <? size).
  - unfold zone.allocate_expand.
    destruct (zone.grow _ _ _) as [sz|]; [|done].
    destruct (malloc _ w) as [c w1] eqn:Hm.
    pose proof (malloc_sep _ _ _ _ Hheap Hsep (proj1 (size_t_range _)) Hm).
    by destruct (c =? 0); intros [= <- <- <-].
  - by intros [= <- <- <-].
Qed.

Lemma step_sep o z w z' w' cs c0 l :
  zone_ok w z cs c0 l -> sep_ok w ->
  step o z w = Some (z', w') -> sep_ok w'.
Proof.
  intros Hok Hsep Hs. pose proof (zo_heap _ _ _ _ _ Hok) as Hheap.
  destruct o as [size|size|func data|dtor p|sT d ctor|]; cbn [step] in Hs.
  - destruct (zone.allocate_align size z w) as [[[x z1] w1]|] eqn:Ha; [|done].
    injection Hs as <- <-. eapply allocate_no_align_sep; eauto.
  - destruct (zone.allocate_no_align size z w) as [[[x z1] w1]|] eqn:Ha; [|done].
    injection Hs as <- <-. eapply allocate_no_align_sep; eauto.
  - unfold zone.push_finalizer in Hs.
    destruct (finalizer_array.push _ _ w) as [[r fa] w1] eqn:Hp.
    injection Hs as <- <-. eapply push_sep; eauto.
  - unfold zone.push_finalizer_unique in Hs.
    destruct (finalizer_array.push _ _ w) as [[r fa] w1] eqn:Hp.
    pose proof (push_sep _ _ _ _ _ _ Hheap Hsep Hp) as Hsep1.
    destruct r; injection Hs as <- <-; unfold zone.unique_ptr_dtor;
      by repeat case_match.
  - destruct (zone.allocate sT d ctor z w) as [[[r z2] w2]|] eqn:Ha; [|done].
    injection Hs as <- <-.
    destruct (allocate_stages _ _ _ _ _ _ _ _ Ha)
      as (x & z1 & w1 & rp & fa2 & Hal & Hp & _).
    destruct (allocate_no_align_ok _ _ _ _ _ _ _ _ _ Hok Hal) as (Hok1 & _).
    eapply push_sep; [apply (zo_heap _ _ _ _ _ Hok1)| |done].
    eapply allocate_no_align_sep; eauto.
  - destruct (clear_ok _ _ _ _ _ Hok)
      as (z1 & w1 & Hc & _ & _ & _ & _ & Hgone & Hkept & _).
    pose proof (clear_same _ _ _ _ _ (zo_reg _ _ _ _ _ Hok) Hc) as (_ & _ & _ & _ & Hb).
    destruct (invoke_all_frame (rev l) w) as (_ & Hb' & _).
    rewrite Hc in Hs. injection Hs as <- <-.
    eapply sep_subset; [apply Hsep| |lia].
    intros a s Hs. destruct (decide (a ∈ front (zone.m_head z))) as [Hin|Hout].
    + by rewrite (Hgone a Hin) in Hs.
    + by rewrite <- (Hkept a Hout).
Qed.

Lemma head_in_chain c : c_addr c ∈ chain c.
Proof. destruct c; cbn [c_addr chain]; elems. Qed.

Lemma placed_inside hd ptr m r : placed hd ptr m r -> inside hd m r.
Proof. intros (c & bs & ? & ? & ? & ? & ? & _). by exists c, bs. Qed.

Lemma regions_frame hd ptr ptr' m m' rs :
  regions_ok hd ptr m rs ->
  (forall c bs, c ∈ chain hd -> m !! c = Some bs -> m' !! c = Some bs) ->
  ptr <= ptr' ->
  regions_ok hd ptr' m' rs.
Proof.
  intros [Hap Hpl] Hm Hptr. split; [done|].
  eapply Forall_impl; [apply Hpl|].
  intros r (c & bs & Hin & Hc & H1 & H2 & H3 & H4).
  exists c, bs. split_and!; eauto. intros Heq. specialize (H4 Heq). lia.
Qed.

Lemma regions_tail hd ptr m r rs :
  regions_ok hd ptr m (r :: rs) -> regions_ok hd ptr m rs.
Proof.
  intros [[_ Hap] Hpl]. split; [done|]. by apply Forall_cons in Hpl as [_ ?].
Qed.

Lemma allocate_no_align_regions size z w x z1 w1 cs c0 l rs :
  zone_ok w z cs c0 l -> bump_ok w z -> sep_ok w ->
  0 <= cs <= PTRDIFF_MAX - sizeof_chunk ->
  0 <= size <= PTRDIFF_MAX - sizeof_chunk ->
  regions_ok (zone.m_head z) (zone.m_ptr z) (blocks w) rs ->
  zone.allocate_no_align size z w = Some (x, z1, w1) ->
  (x = 0 /\ z1 = z /\ blocks w1 = blocks w) \/
  (x <> 0 /\ zone.m_ptr z1 = x + size /\
   forall ptr2 k, 0 <= k <= size -> x + k <= ptr2 ->
     regions_ok (zone.m_head z1) ptr2 (blocks w1) ((x, k) :: rs)).
Proof.
  intros Hok Hbump Hsep Hcs Hsize [Hap Hpl] Ha.
  pose proof (zo_heap _ _ _ _ _ Hok) as Hheap.
  destruct (allocate_no_align_bump_ok _ _ _ _ _ _ _ _ _ Hok Hbump Hcs Hsize Ha)
    as (Hbump1 & Hx).
  destruct Hbump as (n & Hn & Hnr & Hptr & Hfree).
  destruct Hbump1 as (n1 & Hn1 & Hnr1 & Hptr1 & Hfree1).
  unfold zone.allocate_no_align in Ha.
  destruct (zone.m_free z <? size) eqn:E.
  - destruct (allocate_expand_cases _ _ _ _ _ _ Hheap Ha)
      as (sz & _ & _ & _ & _ & _ & [(-> & -> & Hb & _)|(-> & _ & -> & Hb & Hbrk & _)]).
    + by left.
    + right. pose proof (brk_pos _ Hheap). plat.
      zsimpl. cbn [c_addr] in *.
      split; [lia|]. split; [done|]. intros ptr2 k Hk Hp2.
      rewrite Hb in Hn1 |- *. rewrite lookup_insert_eq in Hn1.
      injection Hn1 as Hn1.
      split; [split; [|done]|apply Forall_cons; split].
      * eapply Forall_impl; [apply Hpl|].
        intros r (c & bs & Hin & Hc & H1 & H2 & H3 & H4). plat.
        right. cbn [fst snd]. apply (proj1 Hsep) in Hc. lia.
      * exists (brk w), (size_t (8 + sz)). cbn [chain c_addr fst snd].
        rewrite lookup_insert_eq. split_and!; try done; try lia. elems.
      * eapply Forall_impl; [apply Hpl|].
        intros r (c & bs & Hin & Hc & H1 & H2 & H3 & H4). plat.
        exists c, bs. pose proof (blocks_below _ Hheap _ _ Hc).
        cbn [chain c_addr]. rewrite lookup_insert_ne by lia.
        split_and!; try done; [elems|lia].
  - apply Z.ltb_ge in E. injection Ha as <- <- <-. right.
    pose proof (blocks_below _ Hheap _ _ Hn) as Hhd. plat. zsimpl.
    split; [lia|]. split; [done|]. intros ptr2 k Hk Hp2.
    split; [split; [|done]|apply Forall_cons; split].
    + eapply Forall_impl; [apply Hpl|].
      intros r (c & bs & Hin & Hc & H1 & H2 & H3 & H4). plat.
      unfold apart. cbn [fst snd].
      destruct (decide (c = c_addr (zone.m_head z))) as [Heq|Hne].
      * specialize (H4 Heq). unfold zone.m_ptr, zone.m_head in *. lia.
      * destruct (proj2 Hsep _ _ _ _ Hc Hn Hne);
          unfold zone.m_ptr, zone.m_head, zone.m_free in *; lia.
    + exists (c_addr (zone.m_head z)), n. cbn [fst snd].
      split_and!; try done; try apply head_in_chain;
        plat; unfold zone.m_ptr, zone.m_head, zone.m_free in *; lia.
    + eapply Forall_impl; [apply Hpl|].
      intros r (c & bs & Hin & Hc & H1 & H2 & H3 & H4). plat.
      exists c, bs. split_and!; try done. intros Heq. specialize (H4 Heq).
      unfold zone.m_ptr, zone.m_head, zone.m_free in *. lia.
Qed.

Lemma push_regions f z w r fa' w' cs c0 l ptr rs :
  zone_ok w z cs c0 l ->
  finalizer_array.push f (zone.m_finalizer_array z) w = (r, fa', w') ->
  regions_ok (zone.m_head z) ptr (blocks w) rs ->
  regions_ok (zone.m_head z) ptr (blocks w') rs.
Proof.
  intros Hok Hp Hrs. destruct (zo_reg _ _ _ _ _ Hok) as [cap Hreg].
  destruct (push_registered _ _ _ _ _ _ _ _ (zo_heap _ _ _ _ _ Hok) Hreg Hp)
    as (_ & _ & _ & _ & Hframe & _).
  eapply regions_frame; [apply Hrs| |lia].
  intros c bs Hin Hc. apply Hframe; [|done].
  intros ->. by apply (zo_apart _ _ _ _ _ Hok).
Qed.

Lemma served_reachable cs c0 z w rs :
  served cs c0 z w rs -> reachable sound_op cs c0 z w.
Proof.
  induction 1 as [w0 z w Hheap _ Hc Hc0|o z w z' w' rs _ IH Hsound Hs].
  - by eapply reach_ctor.
  - by eapply reach_step.
Qed.

Lemma served_regions cs c0 z w rs :
  0 <= cs <= PTRDIFF_MAX - sizeof_chunk ->
  served cs c0 z w rs ->
  sep_ok w /\ regions_ok (zone.m_head z) (zone.m_ptr z) (blocks w) rs.
Proof.
  intros Hcs. induction 1 as [w0 z w Hheap Hsep Hc Hc0|o z w z' w' rs Hserved IH Hsound Hs].
  - split; [by eapply ctor_sep|]. by split.
  - destruct IH as [Hsep Hrs].
    pose proof (served_reachable _ _ _ _ _ Hserved) as Hreach.
    destruct (reachable_ok _ _ _ _ _ Hreach) as [l Hok].
    pose proof (reachable_bump_ok _ _ _ _ Hcs Hreach) as Hbump.
    split; [by eapply step_sep|].
    destruct Hsound as [Hfit Hnot].
    destruct o as [size|size|func data|dtor p|sT d ctor|];
      cbn [step hands_out sizes_fit storage_refused] in *.
    + destruct (zone.allocate_align size z w) as [[[x z1] w1]|] eqn:Ha; [|done].
      injection Hs as <- <-.
      pose proof (aligned_size_fits _ Hfit) as Hal.
      assert (0 <= zone.aligned_size size <= PTRDIFF_MAX - sizeof_chunk) as Hal'
        by (pose proof (aligned_size_range size); lia).
      unfold zone.allocate_align in Ha.
      destruct (allocate_no_align_regions _ _ _ _ _ _ _ _ _ _ Hok Hbump Hsep Hcs
                  Hal' Hrs Ha)
        as [(-> & -> & Hb)|(Hx & Hptr & Hnew)].
      * rewrite Hb. done.
      * apply Z.eqb_neq in Hx. rewrite Hx. unfold fits in Hfit.
        apply Hnew; lia.
    + destruct (zone.allocate_no_align size z w) as [[[x z1] w1]|] eqn:Ha; [|done].
      injection Hs as <- <-.
      assert (0 <= size <= PTRDIFF_MAX - sizeof_chunk) as Hsz
        by (unfold fits in Hfit; plat; lia).
      destruct (allocate_no_align_regions _ _ _ _ _ _ _ _ _ _ Hok Hbump Hsep Hcs
                  Hsz Hrs Ha)
        as [(-> & -> & Hb)|(Hx & Hptr & Hnew)].
      * rewrite Hb. done.
      * apply Z.eqb_neq in Hx. rewrite Hx. unfold fits in Hfit.
        apply Hnew; lia.
    + unfold zone.push_finalizer in Hs.
      destruct (finalizer_array.push _ _ w) as [[r fa] w1] eqn:Hp.
      injection Hs as <- <-. eapply (push_regions _ z); eauto.
    + unfold zone.push_finalizer_unique in Hs.
      destruct (finalizer_array.push _ _ w) as [[r fa] w1] eqn:Hp.
      pose proof (push_regions _ _ _ _ _ _ _ _ _ _ _ Hok Hp Hrs) as Hrs1.
      destruct r; injection Hs as <- <-; unfold zone.unique_ptr_dtor;
        by repeat case_match.
    + destruct (zone.allocate sT d ctor z w) as [[[r z2] w2]|] eqn:Ha; [|done].
      injection Hs as <- <-.
      destruct (allocate_stages _ _ _ _ _ _ _ _ Ha)
        as (x & z1 & w1 & rp & fa2 & Hal & Hp & Hr).
      destruct (allocate_no_align_ok _ _ _ _ _ _ _ _ _ Hok Hal) as (Hok1 & _).
      pose proof (aligned_size_fits _ Hfit) as Hsz.
      assert (0 <= zone.aligned_size sT <= PTRDIFF_MAX - sizeof_chunk) as Hsz'
        by (pose proof (aligned_size_range sT); lia).
      pose proof Hal as Hal'. unfold zone.allocate_align in Hal'.
      destruct (allocate_no_align_regions _ _ _ _ _ _ _ _ _ _ Hok Hbump Hsep Hcs
                  Hsz' Hrs Hal')
        as [(-> & -> & Hb)|(Hx & Hptr & Hnew)].
      { exfalso. apply Hnot. eauto. }
      assert (0 <= sT) as HsT by (unfold fits in Hfit; lia).
      destruct rp as [u|e].
      * destruct (ctor x) as [e|]; destruct Hr as [-> ->].
        -- cbn [app]. eapply regions_tail.
           eapply (push_regions _ z1); [done..|].
           apply (Hnew _ 0); [lia|]. zsimpl. lia.
        -- eapply (push_regions _ z1); [done..|].
           apply Hnew; [lia|]. zsimpl. lia.
      * destruct Hr as [-> ->]. cbn [app]. eapply regions_tail.
        eapply (push_regions _ z1); [done..|].
        apply (Hnew _ 0); [lia|]. zsimpl. lia.
    + by split.
Qed.

Lemma apart_sym r1 r2 : apart r1 r2 -> apart r2 r1.
Proof. unfold apart. lia. Qed.

Lemma all_apart_lookup rs : forall i j r1 r2,
  all_apart rs -> (i < j)%nat ->
  rs !! i = Some r1 -> rs !! j = Some r2 -> apart r1 r2.
Proof.
  induction rs as [|r rs IH]; intros i j r1 r2 Hap Hij Hi Hj; [done|].
  destruct Hap as [Hr Hap]. destruct j as [|j]; [lia|].
  destruct i as [|i].
  - injection Hi as <-. cbn in Hj.
    eapply Forall_forall in Hr; [done|]. by eapply list_elem_of_lookup_2.
  - cbn in Hi, Hj. eapply (IH i j); eauto. lia.
Qed.

(** X11.  Memory handed out is never handed out twice.  Take an arena
    under sound use and the regions (address returned, bytes asked for)
    that raw, aligned and typed allocation have handed out since its
    construction or its last [clear].  Any two of them share no byte, and
    each lies in the storage of a chunk that is on the chunk list and live
    on the heap. *)
Theorem X11_regions_handed_out_never_overlap cs c0 z w rs :
  0 <= cs <= PTRDIFF_MAX - sizeof_chunk ->
  served cs c0 z w rs ->
  (forall i j r1 r2,
     i <> j -> rs !! i = Some r1 -> rs !! j = Some r2 -> apart r1 r2) /\
  (forall r, r ∈ rs -> inside (zone.m_head z) (blocks w) r).
Proof.
  intros Hcs Hserved.
  destruct (served_regions _ _ _ _ _ Hcs Hserved) as (_ & Hap & Hpl).
  split.
  - intros i j r1 r2 Hij Hi Hj.
    destruct (decide (i < j)%nat).
    + by eapply (all_apart_lookup rs i j).
    + apply apart_sym. eapply (all_apart_lookup rs j i); eauto. lia.
  - intros r Hin. eapply placed_inside.
    eapply Forall_forall in Hpl; eauto.
Qed.

Lemma X11_witness :
  exists z w,
    served 64 16 z w [(104, 100); (24, 5)] /\
    apart (104, 100) (24, 5) /\
    inside (zone.m_head z) (blocks w) (104, 100) /\
    inside (zone.m_head z) (blocks w) (24, 5).
Proof.
  assert (served 64 16 demo_zone demo_world []) as H0.
  { by apply (served_ctor 64 16 (boot [])); [apply boot_ok|apply boot_sep|apply demo_ctor|]. }
  destruct (step (AllocateAlign 5) demo_zone demo_world) as [[z1 w1]|] eqn:Hs1;
    [|vm_compute in Hs1; discriminate Hs1].
  assert (sound_op (AllocateAlign 5) demo_zone demo_world) as Hso1.
  { split; [|by intros []]. unfold sizes_fit, fits. plat. lia. }
  pose proof (served_step 64 16 _ _ _ _ _ _ H0 Hso1 Hs1) as H1.
  destruct (step (AllocateNoAlign 100) z1 w1) as [[z2 w2]|] eqn:Hs2;
    [|vm_compute in Hs1; injection Hs1 as <- <-; vm_compute in Hs2; discriminate Hs2].
  assert (sound_op (AllocateNoAlign 100) z1 w1) as Hso2.
  { split; [|by intros []]. unfold sizes_fit, fits. plat. lia. }
  pose proof (served_step 64 16 _ _ _ _ _ _ H1 Hso2 Hs2) as H2.
  assert (match AllocateNoAlign 100 with
          | Clear => []
          | _ => hands_out (AllocateNoAlign 100) z1 w1 ++
                 match AllocateAlign 5 with
                 | Clear => []
                 | _ => hands_out (AllocateAlign 5) demo_zone demo_world ++ []
                 end
          end = [(104, 100); (24, 5)]) as Hrs.
  { vm_compute in Hs1. injection Hs1 as <- <-. by vm_compute. }
  rewrite Hrs in H2.
  assert (0 <= 64 <= PTRDIFF_MAX - sizeof_chunk) as Hcs by (plat; lia).
  destruct (X11_regions_handed_out_never_overlap 64 16 z2 w2 _ Hcs H2)
    as [Hap Hin].
  exists z2, w2. split_and!.
  - done.
  - by apply (Hap 0%nat 1%nat).
  - apply Hin. elems.
  - apply Hin. elems.
Defined.

(** ** The life of an arena *)

(** X12.  Over the whole life of an arena every finalizer that was
    registered is invoked exactly once: from construction to destruction,
    through any sequence of operations and any number of [clear]s in
    between, the finalizers invoked are, up to order, exactly the ones
    registered, with their multiplicities. *)
Theorem X12_every_registered_finalizer_runs_exactly_once
    cs w0 z1 w1 regs z w :
  heap_ok w0 ->
  zone.ctor cs w0 = zone.Built z1 w1 ->
  runs z1 w1 regs z w ->
  exists w' called,
    zone.dtor z w = Some w' /\
    invoked w' = invoked w0 ++ called /\
    called ≡ₚ regs.
Proof.
  intros Hheap Hc Hruns.
  destruct (ctor_ok _ _ _ _ Hheap Hc) as (Hok1 & _ & _ & _ & Hinv1).
  destruct (runs_accounting _ _ _ _ _ Hruns _ _ _ Hok1)
    as (l & called & Hok & Hinv & Hperm).
  destruct (dtor_ok _ _ _ _ _ Hok) as (w' & Hd & _ & Hinv' & _).
  exists w', (called ++ rev l). split_and!; [done| |].
  - by rewrite Hinv', Hinv, Hinv1, app_assoc.
  - rewrite <- (Permutation_rev l). exact Hperm.
Qed.

Lemma X12_witness :
  exists z w w' called,
    step (PushFinalizer 7 100) demo_zone demo_world = Some (z, w) /\
    zone.dtor z w = Some w' /\
    invoked w' = called /\ called ≡ₚ [Finalizer 7 100].
Proof.
  destruct (step (PushFinalizer 7 100) demo_zone demo_world) as [[z w]|] eqn:Hs;
    [|vm_compute in Hs; discriminate Hs].
  pose proof (runs_step _ _ _ _ _ _ _ _ Hs (runs_done _ _)) as Hruns.
  destruct (X12_every_registered_finalizer_runs_exactly_once
              64 (boot []) demo_zone demo_world _ z w (boot_ok []) demo_ctor Hruns)
    as (w' & called & Hd & Hinv & Hperm).
  by exists z, w, w', called.
Defined.

(** X13.  [undo_allocate] gives back exactly the bytes of the allocation
    before it: after a raw allocation of [size] bytes that returned a
    non-null address and an [undo_allocate(size)], the same allocation
    again returns the same address, without calling the system allocator,
    and leaves the arena as the first one left it. *)
Theorem X13_undo_allocate_gives_the_bytes_back
    size z w x z1 w1 cs c0 l :
  zone_ok w z cs c0 l -> bump_ok w z ->
  0 <= cs <= PTRDIFF_MAX - sizeof_chunk ->
  0 <= size <= PTRDIFF_MAX - sizeof_chunk ->
  zone.allocate_no_align size z w = Some (x, z1, w1) ->
  x <> 0 ->
  zone.m_ptr (zone.undo_allocate size z1) = x /\
  zone.allocate_no_align size (zone.undo_allocate size z1) w1
  = Some (x, z1, w1).
Proof.
  intros Hok Hbump Hcs Hsize Ha Hx.
  destruct (allocate_no_align_bump_ok _ _ _ _ _ _ _ _ _ Hok Hbump Hcs Hsize Ha)
    as ((n1 & Hn1 & Hnr1 & Hptr1 & Hfree1) & [(? & _)|(Hptr & Hlow & Hfree)]);
    [done|].
  assert (0 <= zone.m_free z1) as Hpos by lia.
  unfold zone.allocate_no_align, zone.undo_allocate. zsimpl.
  destruct z1 as [cs1 [fr1 pt1 hd1] fa1]. zsimpl.
  cbn [zone.m_chunk_list chunk_list.m_free chunk_list.m_ptr chunk_list.m_head
       zone.with_chunk_list zone.m_chunk_size zone.m_finalizer_array] in *.
  rewrite (size_t_small (fr1 + size)) by (plat; lia).
  split; [lia|].
  destruct (fr1 + size <? size) eqn:E; [apply Z.ltb_lt in E; lia|].
  replace (fr1 + size - size) with fr1 by lia.
  rewrite size_t_small by (plat; lia).
  do 3 f_equal; [lia|]. do 2 f_equal. lia.
Qed.

Lemma X13_witness :
  exists z1 w1,
    zone.allocate_no_align 100 demo_zone demo_world = Some (104, z1, w1) /\
    zone.allocate_no_align 100 (zone.undo_allocate 100 z1) w1
    = Some (104, z1, w1).
Proof.
  destruct (zone.allocate_no_align 100 demo_zone demo_world)
    as [[[x z1] w1]|] eqn:Ha; [|vm_compute in Ha; discriminate Ha].
  assert (x = 104) as -> by (vm_compute in Ha; by injection Ha as <- _ _).
  assert (bump_ok demo_world demo_zone) as Hb.
  { apply (ctor_bump_ok 64 (boot [])); [apply boot_ok|plat; lia|apply demo_ctor]. }
  destruct (X13_undo_allocate_gives_the_bytes_back 100 demo_zone demo_world 104
              z1 w1 64 16 [] demo_ok Hb ltac:(plat; lia) ltac:(plat; lia) Ha
              ltac:(lia)) as [_ H].
  by exists z1, w1.
Defined.

(** ** Growth of the registry *)

Lemma reallocs_app a b : reallocs (a ++ b) = (reallocs a + reallocs b)%nat.
Proof.
  induction a as [|[]]; simpl; [done|done| |done]. by rewrite IHa.
Qed.

Lemma reg_ok_capacity w fa l cap w' l' cap' fa' :
  reg_ok w fa l cap -> reg_ok w' fa' l' cap' ->
  finalizer_array.m_array fa' = finalizer_array.m_array fa ->
  finalizer_array.m_end fa' = finalizer_array.m_end fa ->
  cap' = cap.
Proof.
  intros H H' Ha He.
  pose proof (reg_end _ _ _ _ H). pose proof (reg_end _ _ _ _ H'). plat. lia.
Qed.

Lemma push_log w fa l cap f r fa' w' :
  heap_ok w -> reg_ok w fa l cap ->
  finalizer_array.push f fa w = (r, fa', w') ->
  heap_ok w' /\
  ((Z.of_nat (length l) < cap /\ r = Normal tt /\
    syslog w' = syslog w /\ oracle w' = oracle w /\ blocks w' = blocks w /\
    reg_ok w' fa' (l ++ [f]) cap) \/
   (Z.of_nat (length l) = cap /\ oracle w' = tail (oracle w) /\
    exists q,
      syslog w'
      = syslog w ++ [Realloc (finalizer_array.m_array fa)
                       (sizeof_finalizer * next_capacity cap) q] /\
      ((r = Normal tt /\
        grants (sizeof_finalizer * next_capacity cap) w = true /\
        reg_ok w' fa' (l ++ [f]) (next_capacity cap)) \/
       (r = Raise bad_alloc /\
        grants (sizeof_finalizer * next_capacity cap) w = false)))).
Proof.
  intros Hw H Hp.
  destruct (push_registered _ _ _ _ _ _ _ _ Hw H Hp)
    as (Hw' & _ & _ & _ & _ & Hcase).
  split; [done|].
  assert (r = Normal tt -> forall cap',
            reg_ok w' (finalizer_array.pop_last fa') l cap' ->
            reg_ok w' fa' (l ++ [f]) cap') as Hcap.
  { intros -> cap' Hpop.
    destruct Hcase as [(_ & [cap2 Hreg2] & _)|(? & _)]; [|done].
    by rewrite <- (reg_ok_capacity _ _ _ _ _ _ _ _ Hpop Hreg2). }
  revert Hp. unfold finalizer_array.push.
  pose proof (reg_tail _ _ _ _ H) as Ht. pose proof (reg_end _ _ _ _ H) as He.
  pose proof (reg_room _ _ _ _ H) as Hr. pose proof (reg_bound _ _ _ _ H) as Hb.
  destruct (finalizer_array.m_tail fa =? finalizer_array.m_end fa) eqn:E.
  - apply Z.eqb_eq in E.
    assert (Z.of_nat (length l) = cap) as Hlen by (plat; lia).
    unfold finalizer_array.push_expand.
    assert ((finalizer_array.m_end fa - finalizer_array.m_array fa) / sizeof_finalizer
            = cap) as ->.
    { rewrite He. replace (_ + _ * cap - _) with (cap * sizeof_finalizer) by lia.
      by apply Z.div_mul. }
    assert ((if cap =? 0
             then if sizeof_finalizer <? 72 / 2 then 72 / sizeof_finalizer else 8
             else size_t (cap * 2)) = next_capacity cap) as ->.
    { unfold next_capacity. destruct (cap =? 0); [done|].
      rewrite size_t_small by (plat; lia). lia. }
    assert (0 <= next_capacity cap /\
            sizeof_finalizer * next_capacity cap < size_mod) as (Hn0 & Hn2).
    { unfold next_capacity. destruct (cap =? 0) eqn:E0; plat; lia. }
    rewrite (size_t_small (_ * _)) by (plat; lia).
    destruct (realloc _ _ w) as [tmp w1] eqn:R.
    apply realloc_ok in R; [|done|plat; lia].
    destruct R as (_ & _ & _ & Hor & Hlog & [(-> & G & _)|(-> & G & _)]).
    + cbn [Z.eqb]. intros [= <- <- <-]. right. split_and!; try done.
      eexists. split; [done|]. by right.
    + pose proof (brk_pos _ Hw) as Hpos.
      destruct (brk w =? 0) eqn:E0; [lia|].
      intros [= <- <- <-]. right.
      destruct Hcase as [(_ & _ & _ & _ & Hpop)|(? & _)]; [|done].
      cbv iota in Hpop.
      split_and!; [done|by destruct w1|].
      eexists. split; [by destruct w1|]. left. split_and!; try done.
      by apply Hcap.
  - apply Z.eqb_neq in E. intros [= <- <- <-]. left.
    destruct Hcase as [(_ & _ & _ & _ & Hpop)|(? & _)]; [|done].
    cbv iota in Hpop.
    split_and!; try done; try (by destruct w).
    + plat. lia.
    + by apply Hcap.
Qed.

Lemma push_each_grows fs : forall w fa l cap c,
  heap_ok w -> oracle w = [] ->
  reg_ok w fa l cap ->
  grown cap c (Z.of_nat (length l)) ->
  32 * Z.of_nat (length l + length fs) <= PTRDIFF_MAX ->
  exists fa' w' cap' c',
    push_each fs fa w = (Normal tt, fa', w') /\
    heap_ok w' /\ oracle w' = [] /\
    reg_ok w' fa' (l ++ fs) cap' /\
    grown cap' c' (Z.of_nat (length l + length fs)) /\
    (c <= c')%nat /\
    reallocs (syslog w') = (reallocs (syslog w) + (c' - c))%nat.
Proof.
  induction fs as [|f fs IH]; intros w fa l cap c Hw Hor Hreg Hg Hbound.
  - exists fa, w, cap, c. rewrite app_nil_r, Nat.add_0_r.
    split_and!; try done. lia.
  - cbn [push_each].
    destruct (finalizer_array.push f fa w) as [[r fa1] w1] eqn:Hp.
    destruct (push_log _ _ _ _ _ _ _ _ Hw Hreg Hp) as (Hw1 & Hcase).
    cbn [length] in Hbound.
    assert (exists cap1 c1,
               r = Normal tt /\ oracle w1 = [] /\
               reg_ok w1 fa1 (l ++ [f]) cap1 /\
               grown cap1 c1 (Z.of_nat (length (l ++ [f]))) /\
               (c <= c1)%nat /\
               reallocs (syslog w1) = (reallocs (syslog w) + (c1 - c))%nat)
      as (cap1 & c1 & -> & Hor1 & Hreg1 & Hg1 & Hc1 & Hre1).
    { rewrite length_app. cbn [length].
      destruct Hcase as [(Hlt & -> & Hlog & Ho & _ & Hreg1)
                        |(Hlen & Ho & q & Hlog & Hres)].
      - exists cap, c. split_and!; try done; try congruence.
        + destruct Hg as [(-> & _ & _)|(Hcap & Hc & Hn & Hlast)]; [lia|].
          right. split_and!; try done; lia.
        + rewrite Hlog. lia.
      - assert (grants (sizeof_finalizer * next_capacity cap) w = true) as Hgr.
        { unfold grants. rewrite Hor. cbn [hd]. rewrite andb_true_r.
          apply Z.leb_le. unfold next_capacity. destruct (cap =? 0); plat; lia. }
        destruct Hres as [(-> & _ & Hreg1)|(_ & Hno)]; [|congruence].
        exists (next_capacity cap), (S c). split_and!; try done.
        + by rewrite Ho, Hor.
        + right. unfold next_capacity.
          destruct Hg as [(-> & -> & Hn)|(Hcap & Hc & Hn & Hlast)].
          * cbn [Z.eqb]. split_and!; try done; try lia; by left.
          * assert (0 < 2 ^ (Z.of_nat c + 1)) by (apply Z.pow_pos_nonneg; lia).
            destruct (cap =? 0) eqn:E0; [apply Z.eqb_eq in E0; lia|].
            split_and!; try lia.
            rewrite Nat2Z.inj_succ. unfold Z.succ.
            rewrite (Z.pow_add_r _ _ 1) by lia. lia.
        + lia.
        + rewrite Hlog, reallocs_app. simpl. lia. }
    destruct (IH w1 fa1 (l ++ [f]) cap1 c1 Hw1 Hor1 Hreg1 Hg1)
      as (fa' & w' & cap' & c' & Hpe & Hw' & Hor' & Hreg' & Hg' & Hc' & Hre').
    { rewrite length_app. cbn [length]. lia. }
    exists fa', w', cap', c'. rewrite length_app in Hg'. cbn [length] in Hg'.
    rewrite <- app_assoc in Hreg'. cbn [app] in Hreg'.
    cbn [length].
    replace (length l + S (length fs))%nat with (length l + 1 + length fs)%nat by lia.
    split_and!; try done; lia.
Qed.

(** X14.  The registry grows geometrically.  Registering [n] finalizers,
    one by one, in a new registry, with an allocator that has the memory,
    succeeds every time and calls [::realloc] exactly [c] times, where
    [2 ^ (c + 1)] is the capacity reached: at least [n], and either the
    initial 4 slots or less than [2 * n].  All [n] are then registered in
    the order given. *)
Theorem X14_registry_grows_by_doubling fs w :
  heap_ok w -> oracle w = [] -> fs <> [] ->
  32 * Z.of_nat (length fs) <= PTRDIFF_MAX ->
  exists fa' w' (c : nat),
    push_each fs finalizer_array.init w = (Normal tt, fa', w') /\
    reg_ok w' fa' fs (2 ^ (Z.of_nat c + 1)) /\
    reallocs (syslog w') = (reallocs (syslog w) + c)%nat /\
    (1 <= c)%nat /\
    Z.of_nat (length fs) <= 2 ^ (Z.of_nat c + 1) /\
    (c = 1%nat \/ 2 ^ (Z.of_nat c + 1) < 2 * Z.of_nat (length fs)).
Proof.
  intros Hw Hor Hne Hbound.
  destruct (push_each_grows fs w finalizer_array.init [] 0 O Hw Hor
              (reg_ok_init w) ltac:(by left) Hbound)
    as (fa' & w' & cap' & c' & Hpe & _ & _ & Hreg & Hg & _ & Hre).
  cbn [app length Nat.add] in *.
  destruct Hg as [(_ & _ & Hn)|(-> & Hc & Hn & Hlast)].
  - destruct fs; [done|]. cbn [length] in Hn. lia.
  - exists fa', w', c'. split_and!; try done. rewrite Hre. lia.
Qed.

Lemma X14_witness :
  exists fa' w',
    push_each (replicate 5 (Finalizer 7 100)) finalizer_array.init (boot [])
    = (Normal tt, fa', w') /\
    reg_ok w' fa' (replicate 5 (Finalizer 7 100)) 8 /\
    reallocs (syslog w') = 2%nat.
Proof.
  destruct (X14_registry_grows_by_doubling (replicate 5 (Finalizer 7 100)) (boot [])
              (boot_ok []) eq_refl ltac:(discriminate) ltac:(vm_compute; discriminate))
    as (fa' & w' & c & Hpe & Hreg & Hre & Hc & Hn & Hlast).
  assert (c = 2%nat) as ->.
  { vm_compute in Hpe. injection Hpe as <- <-. vm_compute in Hre. lia. }
  by exists fa', w'.
Defined.

Lemma push_each_room fs : forall w fa l cap,
  heap_ok w -> reg_ok w fa l cap ->
  Z.of_nat (length l + length fs) <= cap ->
  exists fa' w',
    push_each fs fa w = (Normal tt, fa', w') /\
    heap_ok w' /\ syslog w' = syslog w /\ blocks w' = blocks w /\
    reg_ok w' fa' (l ++ fs) cap.
Proof.
  induction fs as [|f fs IH]; intros w fa l cap Hw Hreg Hroom.
  - exists fa, w. by rewrite app_nil_r.
  - cbn [push_each length] in *.
    destruct (finalizer_array.push f fa w) as [[r fa1] w1] eqn:Hp.
    destruct (push_log _ _ _ _ _ _ _ _ Hw Hreg Hp)
      as (Hw1 & [(_ & -> & Hlog & _ & Hb & Hreg1)|(Hlen & _)]); [|lia].
    destruct (IH w1 fa1 (l ++ [f]) cap Hw1 Hreg1)
      as (fa' & w' & Hpe & Hw' & Hlog' & Hb' & Hreg').
    { rewrite length_app. cbn [length]. lia. }
    exists fa', w'. rewrite <- app_assoc in Hreg'.
    split_and!; try done; congruence.
Qed.

(** X15.  [clear] keeps the storage of the registry.  After a [clear], as
    many finalizers as were registered before it can be registered again
    without a single call to the system allocator, and so without any
    chance of failure; the live heap blocks are the same before and after
    these registrations. *)
Theorem X15_clear_keeps_the_registry_storage z w cs c0 l z' w' fs :
  zone_ok w z cs c0 l ->
  zone.clear z w = Some (z', w') ->
  (length fs <= length l)%nat ->
  exists fa'' w'',
    push_each fs (zone.m_finalizer_array z') w' = (Normal tt, fa'', w'') /\
    syslog w'' = syslog w' /\ blocks w'' = blocks w' /\
    registered w'' fa'' fs.
Proof.
  intros Hok Hc Hlen.
  destruct (clear_ok _ _ _ _ _ Hok)
    as (z1 & w1 & Hc1 & Hok1 & _ & _ & _ & _ & _ & _ & _ & _ & _ & Harr & Hend & _).
  rewrite Hc in Hc1. injection Hc1 as <- <-.
  destruct (zo_reg _ _ _ _ _ Hok) as [cap Hreg].
  destruct (zo_reg _ _ _ _ _ Hok1) as [cap1 Hreg1].
  pose proof (reg_ok_capacity _ _ _ _ _ _ _ _ Hreg Hreg1 Harr Hend) as ->.
  pose proof (reg_room _ _ _ _ Hreg) as Hroom.
  destruct (push_each_room fs w' _ [] cap (zo_heap _ _ _ _ _ Hok1) Hreg1)
    as (fa'' & w'' & Hpe & _ & Hlog & Hb & Hreg'').
  { cbn [length]. lia. }
  exists fa'', w''. split_and!; try done. by exists cap.
Qed.

Lemma X15_witness :
  exists z w z' w' fa'' w'',
    step (PushFinalizer 7 100) demo_zone demo_world = Some (z, w) /\
    zone.clear z w = Some (z', w') /\
    push_each [Finalizer 9 200] (zone.m_finalizer_array z') w'
    = (Normal tt, fa'', w'') /\
    syslog w'' = syslog w'.
Proof.
  destruct (finalizer_array.push (Finalizer 7 100)
              (zone.m_finalizer_array demo_zone) demo_world)
    as [[r fa] w] eqn:Hp.
  destruct (push_zone_ok _ _ _ _ _ _ _ _ _ demo_ok Hp)
    as (_ & _ & [(-> & Hok & _)|(-> & _)]);
    [|vm_compute in Hp; discriminate Hp].
  destruct (zone.clear (zone.with_finalizer_array fa demo_zone) w)
    as [[z' w']|] eqn:Hc;
    [|vm_compute in Hp; injection Hp as <- <-; vm_compute in Hc; discriminate Hc].
  destruct (X15_clear_keeps_the_registry_storage _ _ _ _ _ z' w' [Finalizer 9 200]
              Hok Hc ltac:(cbn [length app]; lia))
    as (fa'' & w'' & Hpe & Hlog & _).
  exists (zone.with_finalizer_array fa demo_zone), w, z', w', fa'', w''.
  split_and!; try done.
  cbn [step]. unfold zone.push_finalizer. by rewrite Hp.
Defined.

(** ** Calls of the system allocator *)

Lemma allocate_no_align_calls size z w x z' w' :
  heap_ok w ->
  zone.allocate_no_align size z w = Some (x, z', w') ->
  exists calls, syslog w' = syslog w ++ calls /\ one_malloc calls.
Proof.
  intros Hheap. unfold zone.allocate_no_align.
  destruct (zone.m_free z <? size).
  - intros Ha.
    destruct (allocate_expand_cases _ _ _ _ _ _ Hheap Ha)
      as (sz & _ & _ & _ & _ & _ & [(_ & _ & _ & _ & Hlog)
                                   |(_ & _ & _ & _ & _ & Hlog)]);
      eexists; (split; [apply Hlog|]); right; eauto.
  - intros [= <- <- <-]. exists []. split; [by rewrite app_nil_r|by left].
Qed.

Lemma push_calls f z w r fa' w' cs c0 l :
  zone_ok w z cs c0 l ->
  finalizer_array.push f (zone.m_finalizer_array z) w = (r, fa', w') ->
  exists calls, syslog w' = syslog w ++ calls /\ one_realloc calls.
Proof.
  intros Hok Hp. destruct (zo_reg _ _ _ _ _ Hok) as [cap Hreg].
  destruct (push_log _ _ _ _ _ _ _ _ (zo_heap _ _ _ _ _ Hok) Hreg Hp)
    as (_ & [(_ & _ & Hlog & _)|(_ & _ & q & Hlog & _)]).
  - exists []. split; [by rewrite app_nil_r|by left].
  - eexists. split; [apply Hlog|]. right. eauto.
Qed.

(** X16.  Which system calls an operation makes.  Raw and aligned
    allocation call [::malloc] at most once and nothing else;
    registering a finalizer calls [::realloc] at most once and nothing
    else; typed allocation makes at most one [::malloc] followed by at most
    one [::realloc]; [clear] calls [::free] once for every chunk but the first,
    newest chunk first, and nothing else.  So no operation but [clear] ever
    frees memory. *)
Theorem X16_system_calls_of_each_operation o z w z' w' cs c0 l :
  zone_ok w z cs c0 l ->
  step o z w = Some (z', w') ->
  exists calls, syslog w' = syslog w ++ calls /\ calls_of o z calls.
Proof.
  intros Hok Hs. pose proof (zo_heap _ _ _ _ _ Hok) as Hheap.
  destruct o as [size|size|func data|dtor p|sT d ctor|]; cbn [step calls_of] in *.
  - destruct (zone.allocate_align size z w) as [[[x z1] w1]|] eqn:Ha; [|done].
    injection Hs as <- <-. by eapply allocate_no_align_calls.
  - destruct (zone.allocate_no_align size z w) as [[[x z1] w1]|] eqn:Ha; [|done].
    injection Hs as <- <-. by eapply allocate_no_align_calls.
  - unfold zone.push_finalizer in Hs.
    destruct (finalizer_array.push _ _ w) as [[r fa] w1] eqn:Hp.
    injection Hs as <- <-. by eapply push_calls.
  - unfold zone.push_finalizer_unique in Hs.
    destruct (finalizer_array.push _ _ w) as [[r fa] w1] eqn:Hp.
    destruct (push_calls _ _ _ _ _ _ _ _ _ Hok Hp) as (calls & Hlog & Hone).
    exists calls. split; [|done].
    destruct r; injection Hs as <- <-; unfold zone.unique_ptr_dtor;
      by repeat case_match.
  - destruct (zone.allocate sT d ctor z w) as [[[r z2] w2]|] eqn:Ha; [|done].
    injection Hs as <- <-.
    destruct (allocate_stages _ _ _ _ _ _ _ _ Ha)
      as (x & z1 & w1 & rp & fa2 & Hal & Hp & _).
    destruct (allocate_no_align_ok _ _ _ _ _ _ _ _ _ Hok Hal) as (Hok1 & _).
    destruct (allocate_no_align_calls _ _ _ _ _ _ Hheap Hal) as (ms & Hms & Hm1).
    destruct (push_calls _ _ _ _ _ _ _ _ _ Hok1 Hp) as (rs & Hrs & Hr1).
    exists (ms ++ rs). split; [by rewrite Hrs, Hms, app_assoc|]. by exists ms, rs.
  - destruct (clear_ok _ _ _ _ _ Hok)
      as (z1 & w1 & Hc & _ & _ & _ & Hlog & _).
    rewrite Hc in Hs. injection Hs as <- <-. eauto.
Qed.

Lemma X16_witness :
  exists z w z' w',
    step (AllocateNoAlign 100) demo_zone demo_world = Some (z, w) /\
    step Clear z w = Some (z', w') /\
    syslog w = syslog demo_world ++ [Malloc 136 96] /\
    syslog w' = syslog w ++ [Free 96].
Proof.
  destruct (step (AllocateNoAlign 100) demo_zone demo_world) as [[z w]|] eqn:Hs;
    [|vm_compute in Hs; discriminate Hs].
  destruct (step_ok _ _ _ _ _ _ _ _ demo_ok Hs) as [l Hok].
  destruct (step Clear z w) as [[z' w']|] eqn:Hc;
    [|vm_compute in Hs; injection Hs as <- <-; vm_compute in Hc; discriminate Hc].
  destruct (X16_system_calls_of_each_operation Clear z w z' w' 64 16 l Hok Hc)
    as (calls & Hlog & Hcalls).
  exists z, w, z', w'. split_and!; try done.
  - vm_compute in Hs. by injection Hs as <- <-.
  - rewrite Hlog. cbn [calls_of] in Hcalls. rewrite Hcalls.
    vm_compute in Hs. by injection Hs as <- <-.
Defined.


(** ** Objects handed over *)




